(** * Verification of [scripts/blender_mesh_converter.py]

    A shallow embedding of the four mesh operations of the converter
    ([json_to_obj], [obj_to_json], [trim_edges], [smooth_edges]) and the
    properties the specification states about them.

    Conventions of the embedding.
    - A Python [float] is a binary64 value: Rocq's primitive [float], whose
      operations are the IEEE ones the interpreter uses.
    - A Python [int] is a [Z].
    - A raised exception is a value of [exn]; a function that may raise
      returns a [result].  Statements are sequenced with [bind], so the first
      exception raised is the one returned, as in the source.
    - The files a function reads are its arguments (the loaded JSON document,
      the lines of the OBJ file, the lines typed on standard input); the file
      it writes is its result.  Console output is not modelled, except that
      the expressions a [print] evaluates are evaluated, because they can
      raise.
    - A loop [for i in range(0, len(xs), 3)] that reads [xs[i]], [xs[i+1]],
      ... is a recursion over [xs] that consumes three elements per step and
      raises [IndexError] where the read index is past the end. *)

From Stdlib Require Import ZArith Bool String Ascii List Lia Floats.
From Stdlib Require Import DecimalString DecimalZ DecimalPos.
Import ListNotations.

Set Warnings "-inexact-float".

(** ** The Python runtime *)

Module Py.

(** The exceptions the modelled code can raise. *)
Inductive exn : Type :=
| ValueError
| KeyError
| IndexError
| ZeroDivisionError
| EOFError
| SystemExit (code : Z).

Inductive result (A : Type) : Type :=
| Ok (a : A)
| Raise (e : exn).

Arguments Ok {A} a.
Arguments Raise {A} e.

Definition bind {A B : Type} (r : result A) (k : A -> result B) : result B :=
  match r with
  | Ok a => k a
  | Raise e => Raise e
  end.

(** [o[key]] on a JSON object whose member may be absent. *)
Definition subscript {A : Type} (o : option A) : result A :=
  match o with
  | Some a => Ok a
  | None => Raise KeyError
  end.

(** [l[i]] on a list: a negative index counts from the end, an index out of
    range raises [IndexError]. *)
Definition getitem {A : Type} (l : list A) (i : Z) : result A :=
  let n := Z.of_nat (length l) in
  let j := if (i <? 0)%Z then (i + n)%Z else i in
  if ((j <? 0) || (n <=? j))%Z then Raise IndexError
  else match nth_error l (Z.to_nat j) with
       | Some a => Ok a
       | None => Raise IndexError
       end.

(** [len(l)] and [len(l) // 3]. *)
Definition len {A : Type} (l : list A) : Z := Z.of_nat (length l).

(** [min(a, b)] and [max(a, b)]: the builtin keeps its first argument unless
    the next one compares strictly smaller (greater). *)
Definition min2 (a b : float) : float := if (b <? a)%float then b else a.
Definition max2 (a b : float) : float := if (a <? b)%float then b else a.

(** [float(n)] for an integer [n], correctly rounded. *)
Definition float_of_int (n : Z) : float :=
  SF2Prim (binary_normalize prec emax n 0 false).

(** [a / b] on floats. *)
Definition truediv (a b : float) : result float :=
  if (b =? 0)%float then Raise ZeroDivisionError else Ok (a / b)%float.

(** [a / n] for a float [a] and an integer [n]: [n] is converted to a float,
    which is zero exactly when [n] is. *)
Definition truediv_int (a : float) (n : Z) : result float :=
  if (n =? 0)%Z then Raise ZeroDivisionError
  else Ok (a / float_of_int n)%float.

(** [a / b] on integers (true division).  The model only uses whether it
    raises; the quotient is the interpreter's for operands below [2^53]. *)
Definition int_truediv (a b : Z) : result float :=
  if (b =? 0)%Z then Raise ZeroDivisionError
  else Ok (float_of_int a / float_of_int b)%float.

(** [sum(l)], [min(l)], [max(l)] on a list of floats.  The sum adds from
    left to right, starting from zero (CPython 3.12 and later carry a
    compensation term that can change its last bits). *)
Definition sum (l : list float) : float :=
  fold_left PrimFloat.add l 0%float.

Definition min_list (l : list float) : result float :=
  match l with
  | [] => Raise ValueError
  | a :: r => Ok (fold_left min2 r a)
  end.

Definition max_list (l : list float) : result float :=
  match l with
  | [] => Raise ValueError
  | a :: r => Ok (fold_left max2 r a)
  end.

End Py.

Export Py.

Notation "x <- r ;; k" := (bind r (fun x => k))
  (at level 61, r at next level, right associativity).

Notation "' pat <- r ;; k" := (bind r (fun x => match x with pat => k end))
  (at level 61, pat pattern, r at next level, right associativity).

(** ** Python strings

    A string is a sequence of characters with code points below 256.  The
    white space of [str.strip] and [str.split] among them: tab to carriage
    return (9 to 13), the four separators 28 to 31, the space, the next-line
    control (133) and the no-break space (160). *)

Module Str.

Definition is_space (c : ascii) : bool :=
  let n := nat_of_ascii c in
  ((9 <=? n) && (n <=? 13) || (28 <=? n) && (n <=? 32)
   || (n =? 133) || (n =? 160))%nat.

(** [s.strip()] *)
Fixpoint lstrip (s : string) : string :=
  match s with
  | EmptyString => EmptyString
  | String c r => if is_space c then lstrip r else s
  end.

Fixpoint rstrip (s : string) : string :=
  match s with
  | EmptyString => EmptyString
  | String c r =>
      match rstrip r with
      | EmptyString => if is_space c then EmptyString else String c EmptyString
      | r' => String c r'
      end
  end.

Definition strip (s : string) : string := rstrip (lstrip s).

(** [s.split()]: the maximal runs of characters that are not white space. *)
Definition at_word_end (r : string) : bool :=
  match r with
  | EmptyString => true
  | String c _ => is_space c
  end.

Fixpoint split (s : string) : list string :=
  match s with
  | EmptyString => []
  | String c r =>
      let ws := split r in
      if is_space c then ws
      else if at_word_end r then String c EmptyString :: ws
      else match ws with
           | w :: ws' => String c w :: ws'
           | [] => [String c EmptyString]
           end
  end.

(** A token: a non-empty string without white space, which [split] hands
    back whole. *)
Fixpoint no_space (s : string) : bool :=
  match s with
  | EmptyString => true
  | String c r => negb (is_space c) && no_space r
  end.

Definition token (s : string) : bool :=
  match s with
  | EmptyString => false
  | String _ _ => no_space s
  end.

(** [s.startswith(p)] *)
Definition startswith (p s : string) : bool := String.prefix p s.

(** [s.split(sep)[0]]: the characters before the first [sep]. *)
Fixpoint before (sep : ascii) (s : string) : string :=
  match s with
  | EmptyString => EmptyString
  | String c r => if Ascii.eqb c sep then EmptyString else String c (before sep r)
  end.

(** [s.lower()]: the capital letters below 256 are [A] to [Z] and 192 to
    222 without the multiplication sign (215). *)
Definition lower_char (c : ascii) : ascii :=
  let n := nat_of_ascii c in
  if ((65 <=? n) && (n <=? 90)
      || (192 <=? n) && (n <=? 222) && negb (n =? 215))%nat
  then ascii_of_nat (n + 32) else c.

Fixpoint lower (s : string) : string :=
  match s with
  | EmptyString => EmptyString
  | String c r => String (lower_char c) (lower r)
  end.

(** [str(n)] for an integer. *)
Definition of_int (n : Z) : string := NilEmpty.string_of_int (Z.to_int n).

Definition digit (c : ascii) : option (Decimal.uint -> Decimal.uint) :=
  match c with
  | "0"%char => Some Decimal.D0
  | "1"%char => Some Decimal.D1
  | "2"%char => Some Decimal.D2
  | "3"%char => Some Decimal.D3
  | "4"%char => Some Decimal.D4
  | "5"%char => Some Decimal.D5
  | "6"%char => Some Decimal.D6
  | "7"%char => Some Decimal.D7
  | "8"%char => Some Decimal.D8
  | "9"%char => Some Decimal.D9
  | _ => None
  end.

(** The digits of an integer literal: decimal digits, with single
    underscores allowed between two digits.  [after_digit] tells whether the
    previous character was a digit. *)
Fixpoint digits (s : string) (after_digit : bool) : option Decimal.uint :=
  match s with
  | EmptyString => if after_digit then Some Decimal.Nil else None
  | String c r =>
      if Ascii.eqb c "_"%char then
        if after_digit then
          match r with
          | EmptyString => None
          | _ => digits r false
          end
        else None
      else match digit c with
           | Some d => option_map d (digits r true)
           | None => None
           end
  end.

(** [int(s)] for a string without white space (as the parts of a [split]
    are): an optional sign, then the digits.  [ValueError] otherwise.  The
    interpreter's limit on the length of an integer literal is not
    modelled. *)
Definition to_int (s : string) : result Z :=
  let parsed :=
    match s with
    | String "-"%char r => option_map (fun u => (- Z.of_uint u)%Z) (digits r false)
    | String "+"%char r => option_map Z.of_uint (digits r false)
    | _ => option_map Z.of_uint (digits s false)
    end in
  match parsed with
  | Some n => Ok n
  | None => Raise ValueError
  end.

(** The characters that end a line of a text file: line feed and carriage
    return. *)
Definition is_line_break (c : ascii) : bool :=
  let n := nat_of_ascii c in ((n =? 10) || (n =? 13))%nat.

Fixpoint no_line_break (s : string) : bool :=
  match s with
  | EmptyString => true
  | String c r => negb (is_line_break c) && no_line_break r
  end.

(** The lines that [for line in f] reads back from what [f.write(s + "\n")]
    put in a file, without their line ends: a line ends at a line feed, at a
    carriage return, or at a carriage return followed by a line feed. *)
Fixpoint read_lines (s : string) : list string :=
  match s with
  | EmptyString => [EmptyString]
  | String c r =>
      if (nat_of_ascii c =? 10)%nat then EmptyString :: read_lines r
      else if (nat_of_ascii c =? 13)%nat then
        match r with
        | EmptyString => [EmptyString]
        | String c' r' =>
            if (nat_of_ascii c' =? 10)%nat then EmptyString :: read_lines r'
            else EmptyString :: read_lines r
        end
      else
        match read_lines r with
        | l :: ls => String c l :: ls
        | [] => [String c EmptyString]
        end
  end.

End Str.

(** ** The data model *)

(** A loaded JSON document: [{"triangles": {"v": [...], "f": [...]}}], each
    key possibly absent. *)
Record triangles : Type := {
  tri_v : option (list float);
  tri_f : option (list Z)
}.

Record document : Type := {
  doc_triangles : option triangles
}.

(** The mesh a function writes: [{"triangles": {"v": vertices, "f": faces}}]. *)
Record mesh : Type := {
  vertices : list float;
  faces : list Z
}.

Definition to_document (m : mesh) : document :=
  {| doc_triangles := Some {| tri_v := Some (vertices m); tri_f := Some (faces m) |} |}.

(** ** Bounds over X and Y ([trim_edges], [smooth_edges]) *)

Record bounds : Type := {
  min_x : float;
  max_x : float;
  min_y : float;
  max_y : float
}.

(** [min_x, max_x = float('inf'), float('-inf')] and the same for Y. *)
Definition initial_bounds : bounds :=
  {| min_x := infinity; max_x := neg_infinity;
     min_y := infinity; max_y := neg_infinity |}.

Definition extend_bounds (b : bounds) (x y : float) : bounds :=
  {| min_x := min2 (min_x b) x; max_x := max2 (max_x b) x;
     min_y := min2 (min_y b) y; max_y := max2 (max_y b) y |}.

(** The loop reads [vertices[i]] and [vertices[i + 1]] only. *)
Fixpoint bounds_loop (vs : list float) (b : bounds) : result bounds :=
  match vs with
  | [] => Ok b
  | [_] => Raise IndexError
  | [x; y] => Ok (extend_bounds b x y)
  | x :: y :: _ :: rest => bounds_loop rest (extend_bounds b x y)
  end.

Definition find_bounds (vs : list float) : result bounds :=
  bounds_loop vs initial_bounds.

(** ** [trim_edges] *)

(** The trimmed box: each side moved inwards by [trim_percent] of the extent. *)
Definition trim_bounds (b : bounds) (trim_percent : float) : bounds :=
  let trim_x := ((max_x b - min_x b) * trim_percent)%float in
  let trim_y := ((max_y b - min_y b) * trim_percent)%float in
  {| min_x := (min_x b + trim_x)%float; max_x := (max_x b - trim_x)%float;
     min_y := (min_y b + trim_y)%float; max_y := (max_y b - trim_y)%float |}.

(** [new_min_x <= x <= new_max_x and new_min_y <= y <= new_max_y] *)
Definition inside (nb : bounds) (x y : float) : bool :=
  ((min_x nb <=? x) && (x <=? max_x nb) && (min_y nb <=? y) && (y <=? max_y nb))%float.

Fixpoint mark_inside (nb : bounds) (vs : list float) : result (list bool) :=
  match vs with
  | [] => Ok []
  | [_] => Raise IndexError
  | [x; y] => Ok [inside nb x y]
  | x :: y :: _ :: rest =>
      marks <- mark_inside nb rest ;;
      Ok (inside nb x y :: marks)
  end.

(** [vertex_inside[v1] and vertex_inside[v2] and vertex_inside[v3]]: the
    later subscripts are evaluated only when the earlier ones are true. *)
Definition face_inside (vertex_inside : list bool) (v1 v2 v3 : Z) : result bool :=
  i1 <- getitem vertex_inside v1 ;;
  if i1 then
    i2 <- getitem vertex_inside v2 ;;
    if i2 then getitem vertex_inside v3 else Ok false
  else Ok false.

Fixpoint filter_faces (vertex_inside : list bool) (fs : list Z) : result (list Z) :=
  match fs with
  | [] => Ok []
  | v1 :: v2 :: v3 :: rest =>
      keep <- face_inside vertex_inside v1 v2 v3 ;;
      kept <- filter_faces vertex_inside rest ;;
      Ok (if keep then v1 :: v2 :: v3 :: kept else kept)
  | _ => Raise IndexError
  end.

Definition trim_edges (data : document) (trim_percent : float) : result mesh :=
  t <- subscript (doc_triangles data) ;;
  vertices <- subscript (tri_v t) ;;
  faces <- subscript (tri_f t) ;;
  let num_faces_original := (len faces / 3)%Z in
  b <- find_bounds vertices ;;
  let nb := trim_bounds b trim_percent in
  vertex_inside <- mark_inside nb vertices ;;
  new_faces <- filter_faces vertex_inside faces ;;
  let num_faces_new := (len new_faces / 3)%Z in
  let faces_removed := (num_faces_original - num_faces_new)%Z in
  (* print(f"... {faces_removed / num_faces_original * 100:.1f}%)") *)
  _ <- int_truediv faces_removed num_faces_original ;;
  Ok {| vertices := vertices; faces := new_faces |}.

(** ** [smooth_edges] *)

(** What [smooth_edges] hands back: the output path after writing the
    smoothed mesh, or the input path with nothing written. *)
Inductive smoothed : Type :=
| Written (m : mesh)
| InputPath.

(** The widths of the edge zone. *)
Definition edge_x (b : bounds) (edge_distance : float) : float :=
  ((max_x b - min_x b) * edge_distance)%float.

Definition edge_y (b : bounds) (edge_distance : float) : float :=
  ((max_y b - min_y b) * edge_distance)%float.

(** [min_x + edge_x < x < max_x - edge_x and min_y + edge_y < y < max_y - edge_y and z > 0] *)
Definition is_interior (b : bounds) (ex ey : float) (x y z : float) : bool :=
  ((min_x b + ex <? x) && (x <? max_x b - ex) &&
   (min_y b + ey <? y) && (y <? max_y b - ey) && (0 <? z))%float.

Fixpoint interior_loop (b : bounds) (ex ey : float) (vs : list float) : result (list float) :=
  match vs with
  | [] => Ok []
  | x :: y :: z :: rest =>
      zs <- interior_loop b ex ey rest ;;
      Ok (if is_interior b ex ey x y z then z :: zs else zs)
  | _ => Raise IndexError
  end.

(** The statistics of the interior elevations. *)
Record interior_stats : Type := {
  avg_elevation : float;
  min_interior : float;
  max_interior : float
}.

Definition stats_of (interior_elevations : list float) : result interior_stats :=
  avg <- truediv_int (sum interior_elevations) (len interior_elevations) ;;
  lo <- min_list interior_elevations ;;
  hi <- max_list interior_elevations ;;
  Ok {| avg_elevation := avg; min_interior := lo; max_interior := hi |}.

(** [(d) / edge if edge > 0 else 1] *)
Definition edge_dist (d edge : float) : result float :=
  if (0 <? edge)%float then truediv d edge else Ok 1%float.

(** [min(dist_from_left, dist_from_right, dist_from_bottom, dist_from_top)] *)
Definition min_dist_of (b : bounds) (ex ey : float) (x y : float) : result float :=
  dist_from_left <- edge_dist (x - min_x b)%float ex ;;
  dist_from_right <- edge_dist (max_x b - x)%float ex ;;
  dist_from_bottom <- edge_dist (y - min_y b)%float ey ;;
  dist_from_top <- edge_dist (max_y b - y)%float ey ;;
  Ok (min2 (min2 (min2 dist_from_left dist_from_right) dist_from_bottom) dist_from_top).

(** [z <= 0 or z < min_interior * 0.8 or z > max_interior * 1.2] *)
Definition is_outlier (st : interior_stats) (z : float) : bool :=
  ((z <=? 0) || (z <? min_interior st * 0.8) || (max_interior st * 1.2 <? z))%float.

(** The value [vertices[i + 2]] holds after the loop body ran on vertex
    [(x, y, z)]. *)
Definition smooth_z (st : interior_stats) (smooth_strength min_dist z : float) : float :=
  if (min_dist <? 1)%float then
    if is_outlier st z then avg_elevation st
    else (z + (avg_elevation st - z) * smooth_strength * (1 - min_dist))%float
  else z.

Fixpoint smooth_loop (b : bounds) (ex ey : float) (st : interior_stats)
    (smooth_strength : float) (vs : list float) : result (list float) :=
  match vs with
  | [] => Ok []
  | x :: y :: z :: rest =>
      min_dist <- min_dist_of b ex ey x y ;;
      rest' <- smooth_loop b ex ey st smooth_strength rest ;;
      Ok (x :: y :: smooth_z st smooth_strength min_dist z :: rest')
  | _ => Raise IndexError
  end.

Definition smooth_edges (data : document) (edge_distance smooth_strength : float)
    : result smoothed :=
  t <- subscript (doc_triangles data) ;;
  vertices <- subscript (tri_v t) ;;
  faces <- subscript (tri_f t) ;;
  b <- find_bounds vertices ;;
  let ex := edge_x b edge_distance in
  let ey := edge_y b edge_distance in
  interior_elevations <- interior_loop b ex ey vertices ;;
  match interior_elevations with
  | [] => Ok InputPath
  | _ :: _ =>
      st <- stats_of interior_elevations ;;
      vertices' <- smooth_loop b ex ey st smooth_strength vertices ;;
      Ok (Written {| vertices := vertices'; faces := faces |})
  end.

(** ** The OBJ text format *)

(** The text of an OBJ file is the list of its lines as they are read back,
    without their line ends.  The name of a file may hold a line break: the
    header entry that carries it is then read back as several lines.
    Formatting a float ([f"{x}"]) and parsing one ([float(s)], [None] for
    [ValueError]) belong to the interpreter and are parameters of the
    model. *)

Section Runtime.

Variable float_repr : float -> string.
Variable float_of_string : string -> option float.

Definition to_float (s : string) : result float :=
  match float_of_string s with
  | Some x => Ok x
  | None => Raise ValueError
  end.

(** *** [json_to_obj] *)

(** The bounds over X, Y and Z that [json_to_obj] reports. *)
Fixpoint bounds_xyz_loop (vs : list float) (acc : bounds * (float * float))
    : result (bounds * (float * float)) :=
  match vs with
  | [] => Ok acc
  | x :: y :: z :: rest =>
      let '(b, (min_z, max_z)) := acc in
      bounds_xyz_loop rest (extend_bounds b x y, (min2 min_z z, max2 max_z z))
  | _ => Raise IndexError
  end.

(** The lines of the header.  The entry with the name of the file is one
    line unless the name holds a line break. *)
Definition header (name : string) (num_vertices num_faces : Z) : list string :=
  [ "# Exported from qgis2threejs JSON by blender_mesh_converter.py"%string ]
  ++ Str.read_lines ("# Original file: " ++ name)
  ++ [ "# Vertices: " ++ Str.of_int num_vertices ++ ", Faces: " ++ Str.of_int num_faces;
       "#";
       "# IMPORTANT: Only edit Z values (elevation) in Blender!";
       "# Do not move, rotate, or scale the mesh.";
       "#";
       "" ]%string.

(** [f"v {x} {y} {z}"] *)
Definition vertex_line (x y z : float) : string :=
  ("v " ++ float_repr x ++ " " ++ float_repr y ++ " " ++ float_repr z)%string.

Fixpoint vertex_lines (vs : list float) : result (list string) :=
  match vs with
  | [] => Ok []
  | x :: y :: z :: rest =>
      ls <- vertex_lines rest ;;
      Ok (vertex_line x y z :: ls)
  | _ => Raise IndexError
  end.

(** [f"f {v1} {v2} {v3}"], the indices already 1-based. *)
Definition face_line (v1 v2 v3 : Z) : string :=
  ("f " ++ Str.of_int v1 ++ " " ++ Str.of_int v2 ++ " " ++ Str.of_int v3)%string.

Fixpoint face_lines (fs : list Z) : result (list string) :=
  match fs with
  | [] => Ok []
  | a :: b :: c :: rest =>
      ls <- face_lines rest ;;
      Ok (face_line (a + 1) (b + 1) (c + 1) :: ls)
  | _ => Raise IndexError
  end.

(** [data['triangles'].get(key, [])] *)
Definition get_or_empty {A : Type} (o : option (list A)) : list A :=
  match o with
  | Some l => l
  | None => []
  end.

Definition json_to_obj (data : document) (name : string) : result (list string) :=
  match doc_triangles data with
  | None => Raise ValueError
  | Some t =>
      let vertices := get_or_empty (tri_v t) in
      let faces := get_or_empty (tri_f t) in
      match vertices with
      | [] => Raise ValueError
      | _ :: _ =>
          let num_vertices := (len vertices / 3)%Z in
          let num_faces := (len faces / 3)%Z in
          _ <- bounds_xyz_loop vertices (initial_bounds, (infinity, neg_infinity)) ;;
          vlines <- vertex_lines vertices ;;
          flines <- face_lines faces ;;
          Ok (header name num_vertices num_faces ++ vlines ++ [""%string] ++ flines)
      end
  end.

(** *** [obj_to_json] *)

(** One line of the OBJ file, added to the vertices and faces parsed so far. *)
Definition parse_line (line : string) (acc : list float * list Z)
    : result (list float * list Z) :=
  let '(vertices, faces_from_obj) := acc in
  let line := Str.strip line in
  if Str.startswith "v " line then
    let parts := Str.split line in
    if (4 <=? length parts)%nat then
      x <- to_float (nth 1 parts ""%string) ;;
      y <- to_float (nth 2 parts ""%string) ;;
      z <- to_float (nth 3 parts ""%string) ;;
      Ok (vertices ++ [x; y; z], faces_from_obj)
    else Ok acc
  else if Str.startswith "f " line then
    let parts := Str.split line in
    if (4 <=? length parts)%nat then
      v1 <- Str.to_int (Str.before "/" (nth 1 parts ""%string)) ;;
      v2 <- Str.to_int (Str.before "/" (nth 2 parts ""%string)) ;;
      v3 <- Str.to_int (Str.before "/" (nth 3 parts ""%string)) ;;
      Ok (vertices, faces_from_obj ++ [v1 - 1; v2 - 1; v3 - 1]%Z)
    else Ok acc
  else Ok acc.

Fixpoint parse_lines (lines : list string) (acc : list float * list Z)
    : result (list float * list Z) :=
  match lines with
  | [] => Ok acc
  | line :: rest =>
      acc' <- parse_line line acc ;;
      parse_lines rest acc'
  end.

Definition parse_obj (lines : list string) : result (list float * list Z) :=
  parse_lines lines ([], []).

(** [response = input(...)], then [sys.exit(1)] unless the answer is a [y]:
    the lines still to be read on standard input are handed on. *)
Definition confirm (stdin : list string) : result (list string) :=
  match stdin with
  | [] => Raise EOFError
  | response :: rest =>
      if negb (String.eqb (Str.lower response) "y") then Raise (SystemExit 1)
      else Ok rest
  end.

(** The greatest horizontal and vertical differences over the vertices that
    both lists hold: [(max_xy_diff, max_z_diff)]. *)
Fixpoint drift_loop (vs ovs : list float) (acc : float * float)
    : result (float * float) :=
  match vs, ovs with
  | [], _ => Ok acc
  | _ :: _, [] => Ok acc
  | x :: y :: z :: vs', ox :: oy :: oz :: ovs' =>
      let '(max_xy_diff, max_z_diff) := acc in
      let x_diff := abs (x - ox) in
      let y_diff := abs (y - oy) in
      let z_diff := abs (z - oz) in
      drift_loop vs' ovs' (max2 (max2 max_xy_diff x_diff) y_diff, max2 max_z_diff z_diff)
  | _, _ => Raise IndexError
  end.

(** The face list [obj_to_json] settles on, and what is left of standard
    input. *)
Definition resolve_faces (vertices original_vertices : list float)
    (faces_from_obj original_faces : list Z) (stdin : list string)
    : result (list Z * list string) :=
  let original_vertex_count := (len original_vertices / 3)%Z in
  let new_vertex_count := (len vertices / 3)%Z in
  if negb (new_vertex_count =? original_vertex_count)%Z then
    stdin' <- (if negb (len faces_from_obj =? len original_faces)%Z
               then confirm stdin else Ok stdin) ;;
    Ok (faces_from_obj, stdin')
  else Ok (original_faces, stdin).

(** The validation of the vertex positions: the X and Y of the vertices
    should match the original ones; beyond [0.001] the user is asked. *)
Definition check_positions (vertices original_vertices : list float)
    (stdin : list string) : result (list string) :=
  ' (max_xy_diff, max_z_diff) <- drift_loop vertices original_vertices (0, 0)%float ;;
  if (0.001 <? max_xy_diff)%float then confirm stdin else Ok stdin.

Definition obj_to_json (lines : list string) (original_data : document)
    (stdin : list string) : result mesh :=
  t <- subscript (doc_triangles original_data) ;;
  original_vertices <- subscript (tri_v t) ;;
  original_faces <- subscript (tri_f t) ;;
  ' (vertices, faces_from_obj) <- parse_obj lines ;;
  ' (faces, stdin) <- resolve_faces vertices original_vertices
                        faces_from_obj original_faces stdin ;;
  _ <- check_positions vertices original_vertices stdin ;;
  Ok {| vertices := vertices; faces := faces |}.

End Runtime.

(** ** The command line *)

(** [s.split(sep)]: the fields between the separators. *)
Fixpoint split_on (sep : ascii) (s : string) : list string :=
  match s with
  | EmptyString => [EmptyString]
  | String c r =>
      if Ascii.eqb c sep then EmptyString :: split_on sep r
      else match split_on sep r with
           | f :: fs => String c f :: fs
           | [] => [String c EmptyString]
           end
  end.

(** What the main program calls once its arguments are read. *)
Inductive invocation : Type :=
| ToObj (json_path : string) (obj_path : option string)
| ToJson (obj_path original_json : string) (output_json : option string)
| Trim (json_path : string) (output_path : option string) (trim_percent : float)
| Smooth (json_path : string) (output_path : option string)
         (edge_distance smooth_strength : float)
| PrintUsage.

(** What a run leaves behind: a written file (OBJ lines or a JSON mesh, at
    the path given or, for [None], at the default one) or nothing. *)
Inductive effect : Type :=
| WroteObj (path : option string) (lines : list string)
| WroteJson (path : option string) (m : mesh)
| WroteNothing.

(** How the main program ends: it runs to its end (exit status 0) with
    something written or not, or it exits with a status; what a run that
    exits left on disk is not modelled. *)
Inductive outcome : Type :=
| Finished (e : effect)
| Exit (status : Z).

(** The files and the terminal a run sees.  Every path names a file of the
    right kind: a missing file and a file that is no JSON are not
    modelled. *)
Record world : Type := {
  load_json : string -> document;
  read_obj : string -> list string;
  file_name : string -> string;
  typed : list string
}.

Section CommandLine.

Variable float_repr : float -> string.
Variable float_of_string : string -> option float.

(** [float(arg.split('=')[1])] *)
Definition option_value (arg : string) : result float :=
  v <- getitem (split_on "=" arg) 1 ;;
  to_float float_of_string v.

(** The loop over [sys.argv[3:]] of the [trim] command. *)
Fixpoint trim_options (args : list string) (output_path : option string)
    (trim_percent : float) : result (option string * float) :=
  match args with
  | [] => Ok (output_path, trim_percent)
  | arg :: rest =>
      if Str.startswith "--percent=" arg then
        p <- option_value arg ;;
        trim_options rest output_path p
      else if negb (Str.startswith "--" arg) then
        trim_options rest (Some arg) trim_percent
      else trim_options rest output_path trim_percent
  end.

(** The loop over [sys.argv[3:]] of the [smooth] command. *)
Fixpoint smooth_options (args : list string) (output_path : option string)
    (edge_distance smooth_strength : float)
    : result (option string * (float * float)) :=
  match args with
  | [] => Ok (output_path, (edge_distance, smooth_strength))
  | arg :: rest =>
      if Str.startswith "--distance=" arg then
        d <- option_value arg ;;
        smooth_options rest output_path d smooth_strength
      else if Str.startswith "--strength=" arg then
        s <- option_value arg ;;
        smooth_options rest output_path edge_distance s
      else if negb (Str.startswith "--" arg) then
        smooth_options rest (Some arg) edge_distance smooth_strength
      else smooth_options rest output_path edge_distance smooth_strength
  end.

(** The body of the [try] block: the command, already in lower case, and the
    arguments after it. *)
Definition dispatch (command : string) (args : list string) : result invocation :=
  if String.eqb command "to-obj" then
    match args with
    | [] => Raise (SystemExit 1)
    | json_path :: rest => Ok (ToObj json_path (nth_error rest 0))
    end
  else if String.eqb command "to-json" then
    match args with
    | obj_path :: original_json :: rest =>
        Ok (ToJson obj_path original_json (nth_error rest 0))
    | _ => Raise (SystemExit 1)
    end
  else if String.eqb command "trim" then
    match args with
    | [] => Raise (SystemExit 1)
    | json_path :: rest =>
        ' (output_path, trim_percent) <- trim_options rest None 0.02%float ;;
        Ok (Trim json_path output_path trim_percent)
    end
  else if String.eqb command "smooth" then
    match args with
    | [] => Raise (SystemExit 1)
    | json_path :: rest =>
        ' (output_path, (edge_distance, smooth_strength)) <-
            smooth_options rest None 0.05%float 0.5%float ;;
        Ok (Smooth json_path output_path edge_distance smooth_strength)
    end
  else if String.eqb command "help" || String.eqb command "-h"
          || String.eqb command "--help" then
    Ok PrintUsage
  else Raise (SystemExit 1).

(** The call itself, on the files of the world. *)
Definition invoke (w : world) (i : invocation) : result effect :=
  match i with
  | ToObj json_path obj_path =>
      lines <- json_to_obj float_repr (load_json w json_path) (file_name w json_path) ;;
      Ok (WroteObj obj_path lines)
  | ToJson obj_path original_json output_json =>
      m <- obj_to_json float_of_string (read_obj w obj_path)
             (load_json w original_json) (typed w) ;;
      Ok (WroteJson output_json m)
  | Trim json_path output_path trim_percent =>
      m <- trim_edges (load_json w json_path) trim_percent ;;
      Ok (WroteJson output_path m)
  | Smooth json_path output_path edge_distance smooth_strength =>
      r <- smooth_edges (load_json w json_path) edge_distance smooth_strength ;;
      Ok (match r with
          | Written m => WroteJson output_path m
          | InputPath => WroteNothing
          end)
  | PrintUsage => Ok WroteNothing
  end.

(** The main program.  [argv] is [sys.argv], the name of the script first.
    [SystemExit] goes through the [except] clauses, every other exception
    ends in [sys.exit(1)]. *)
Definition main (w : world) (argv : list string) : outcome :=
  match argv with
  | _ :: command :: args =>
      match (i <- dispatch (Str.lower command) args ;; invoke w i) with
      | Ok e => Finished e
      | Raise (SystemExit code) => Exit code
      | Raise _ => Exit 1
      end
  | _ => Exit 1
  end.

End CommandLine.

(** ** Sample meshes *)

(** The unit square of the specification: four vertices, two triangles. *)
Definition unit_square : mesh :=
  {| vertices := [0; 0; 1;  1; 0; 1;  0; 1; 1;  1; 1; 1]%float;
     faces := [0; 1; 2;  1; 3; 2]%Z |}.

(** A 3 x 3 grid over [0, 2] x [0, 2]; the centre vertex is the only one off
    the boundary. *)
Definition grid3 : mesh :=
  {| vertices := [0; 0; 4;  1; 0; 4;  2; 0; 4;
                  0; 1; 4;  1; 1; 8;  2; 1; 4;
                  0; 2; 4;  1; 2; 4;  2; 2; 4]%float;
     faces := [0; 1; 3;  1; 4; 3;  1; 2; 4;  2; 5; 4;
               3; 4; 6;  4; 7; 6;  4; 5; 7;  5; 8; 7]%Z |}.

(** One vertex, no face. *)
Definition single_vertex : mesh :=
  {| vertices := [0; 0; 1]%float; faces := [] |}.

(** No vertex, no face. *)
Definition empty_mesh : mesh :=
  {| vertices := []; faces := [] |}.

(** Three vertices and no face. *)
Definition bare_triangle : mesh :=
  {| vertices := [0; 0; 1;  1; 0; 1;  0; 1; 1]%float; faces := [] |}.

(** Seven vertices over [0, 2] x [0, 2] with two of them (4 and 5) away from
    the boundary. *)
Definition terrain : mesh :=
  {| vertices := [0; 0; 4;  2; 2; 7;  0.25; 1; 7;  1; 1.75; 0;
                  1; 1; 8;  1; 1.25; 10;  2; 0; 13]%float;
     faces := [0; 2; 4;  4; 5; 1;  6; 4; 0]%Z |}.

(** The interpreter's formatting and parsing of floats, on the coordinates
    of the samples. *)
Definition sample_float_repr (x : float) : string :=
  if (x =? 0)%float then "0.0"
  else if (x =? 1)%float then "1.0"
  else if (x =? 2)%float then "2.0"
  else if (x =? 0.5)%float then "0.5"
  else "nan".

Definition sample_float_of_string (s : string) : option float :=
  if String.eqb s "0.0" then Some 0%float
  else if String.eqb s "1.0" then Some 1%float
  else if String.eqb s "2.0" then Some 2%float
  else if String.eqb s "0.5" then Some 0.5%float
  else if String.eqb s "nan" then Some nan
  else None.

(** The unit square as an OBJ file, as Blender could hand it back: the
    elevation of the last vertex raised, the faces renumbered. *)
Definition edited_square_obj : list string :=
  [ "# Blender 4.1"; "o terrain";
    "v 0.0 0.0 1.0"; "v 1.0 0.0 1.0"; "v 0.0 1.0 1.0"; "v 1.0 1.0 2.0";
    "s 0";
    "f 3/1/1 2/2/1 1/3/1"; "f 3/1/1 4/4/1 2/2/1" ]%string.

(** An OBJ file with one vertex more than the unit square and as many
    faces. *)
Definition five_vertex_obj : list string :=
  [ "v 0.0 0.0 1.0"; "v 1.0 0.0 1.0"; "v 0.0 1.0 1.0"; "v 1.0 1.0 1.0";
    "v 0.5 0.5 1.0";
    "f 1 2 5"; "f 2 4 5" ]%string.

(** An OBJ file with one vertex and one face more than the unit square. *)
Definition remeshed_obj : list string :=
  [ "v 0.0 0.0 1.0"; "v 1.0 0.0 1.0"; "v 0.0 1.0 1.0"; "v 1.0 1.0 1.0";
    "v 0.5 0.5 1.0";
    "f 1 2 5"; "f 2 4 5"; "f 4 3 5" ]%string.

(** A triangle as wide as the format allows: its extent in X, [2^1024], is
    beyond the largest binary64 value. *)
Definition wide_triangle : mesh :=
  {| vertices := [-0x1p1023; 0; 1;  0x1p1023; 0; 1;  0; 1; 1]%float;
     faces := [0; 1; 2]%Z |}.

(** Five vertices over [0, 4] x [0, 4]: two corners and a triangle in the
    middle. *)
Definition island : mesh :=
  {| vertices := [0; 0; 1;  4; 4; 1;  1; 1; 2;  3; 1; 2;  2; 3; 2]%float;
     faces := [0; 2; 3;  2; 3; 4]%Z |}.

(** A file name with a line feed in it, a vertex line after the line
    feed. *)
Definition two_line_name : string :=
  ("a0" ++ String (ascii_of_nat 10) "v 1.0 1.0 1.0 .json")%string.

(** Tokens written on one line, a single space between them. *)
Fixpoint join_tokens (ts : list string) : string :=
  match ts with
  | [] => EmptyString
  | [t] => t
  | t :: rest => (t ++ String " " (join_tokens rest))%string
  end.

(** An index of a face line with the texture and normal indices some
    exporters append: [i/t/n]. *)
Definition with_suffix (n : Z) (suffix : string) : string :=
  (Str.of_int n ++ String "/" suffix)%string.

(** The lines of an OBJ file that [obj_to_json] reads: those that start,
    once stripped, with [v ] or [f ]. *)
Definition obj_relevant (line : string) : bool :=
  Str.startswith "v " (Str.strip line) || Str.startswith "f " (Str.strip line).

(** A directory with two mesh files, the unit square in [square.json] and
    the bare triangle in every other one, an edited OBJ file, and nobody at
    the terminal. *)
Definition sample_world : world :=
  {| load_json := fun path =>
       if String.eqb path "square.json" then to_document unit_square
       else to_document bare_triangle;
     read_obj := fun _ => edited_square_obj;
     file_name := fun path => path;
     typed := [] |}.

(** ** Views used to state the properties *)

(** The options of a command that carry a number. *)
Definition takes_value (command arg : string) : bool :=
  if String.eqb command "trim" then Str.startswith "--percent=" arg
  else Str.startswith "--distance=" arg || Str.startswith "--strength=" arg.

(** The arguments after the input path that the [trim] and [smooth]
    commands look at: the options that carry a number and everything that
    does not start with two dashes. *)
Definition heeded (command arg : string) : bool :=
  takes_value command arg || negb (Str.startswith "--" arg).

(** The vertices of a flat coordinate list, as triples. *)
Fixpoint vertex_triples (vs : list float) : list (float * float * float) :=
  match vs with
  | x :: y :: z :: rest => (x, y, z) :: vertex_triples rest
  | _ => []
  end.

(** The faces of a flat index list, as triples. *)
Fixpoint face_triples (fs : list Z) : list (Z * Z * Z) :=
  match fs with
  | a :: b :: c :: rest => (a, b, c) :: face_triples rest
  | _ => []
  end.

Fixpoint flatten_faces (ts : list (Z * Z * Z)) : list Z :=
  match ts with
  | [] => []
  | (a, b, c) :: rest => a :: b :: c :: flatten_faces rest
  end.

(** The mesh invariant of the data model: both lists hold whole triples and
    every face index names a vertex. *)
Definition whole_triples {A : Type} (l : list A) : Prop :=
  (length l mod 3 = 0)%nat.

Definition index_ok (n : nat) (i : Z) : Prop :=
  (0 <= i < Z.of_nat n)%Z.

Definition valid_mesh (m : mesh) : Prop :=
  whole_triples (vertices m) /\ whole_triples (faces m) /\
  Forall (index_ok (length (vertices m) / 3)) (faces m).

(** The bounds of a list of vertices. *)
Definition bounds_of (ts : list (float * float * float)) : bounds :=
  fold_left (fun b t => let '(x, y, _) := t in extend_bounds b x y) ts initial_bounds.

(** Vertex [i] of the trimmed box test. *)
Definition vertex_in_box (nb : bounds) (ts : list (float * float * float)) (i : Z) : bool :=
  match nth_error ts (Z.to_nat i) with
  | Some (x, y, _) => inside nb x y
  | None => false
  end.

Definition face_in_box (nb : bounds) (ts : list (float * float * float))
    (t : Z * Z * Z) : bool :=
  let '(a, b, c) := t in
  vertex_in_box nb ts a && vertex_in_box nb ts b && vertex_in_box nb ts c.

(** The normalized distance of a vertex from the nearest side of the box,
    as a pure function. *)
Definition norm_dist (d edge : float) : float :=
  if (0 <? edge)%float then (d / edge)%float else 1%float.

Definition min_dist (b : bounds) (ex ey : float) (x y : float) : float :=
  min2 (min2 (min2 (norm_dist (x - min_x b) ex) (norm_dist (max_x b - x) ex))
             (norm_dist (y - min_y b) ey))
       (norm_dist (max_y b - y) ey).

(** The elevations of the interior vertices, in vertex order. *)
Definition interior_of (b : bounds) (ex ey : float)
    (ts : list (float * float * float)) : list float :=
  map (fun t => snd t)
      (filter (fun t => let '(x, y, z) := t in is_interior b ex ey x y z) ts).

(** The faces [trim_edges] is to keep: those whose three vertices are in the
    trimmed box, in their original order. *)
Definition kept_faces (nb : bounds) (ts : list (float * float * float))
    (fs : list Z) : list Z :=
  flatten_faces (filter (face_in_box nb ts) (face_triples fs)).

(** The mean, the least and the greatest of the interior elevations. *)
Definition stats (zs : list float) : interior_stats :=
  {| avg_elevation := (sum zs / float_of_int (len zs))%float;
     min_interior := fold_left min2 (tl zs) (hd 0%float zs);
     max_interior := fold_left max2 (tl zs) (hd 0%float zs) |}.

(** What the smoothing loop leaves of one vertex. *)
Definition smooth_vertex (b : bounds) (ex ey : float) (st : interior_stats)
    (smooth_strength : float) (t : float * float * float) : float * float * float :=
  let '(x, y, z) := t in
  (x, y, smooth_z st smooth_strength (min_dist b ex ey x y) z).

Fixpoint flatten_vertices (ts : list (float * float * float)) : list float :=
  match ts with
  | [] => []
  | (x, y, z) :: rest => x :: y :: z :: flatten_vertices rest
  end.

(** A float survives the text of an OBJ file when its formatting is a token
    that parses back to it (the interpreter's [repr] is such for every
    float). *)
Definition survives_text (float_repr : float -> string)
    (float_of_string : string -> option float) (x : float) : Prop :=
  Str.token (float_repr x) = true /\ float_of_string (float_repr x) = Some x.

(** The place of a binary64 value in the order of the comparisons: its
    class (the infinities outermost, zero in the middle), then exponent and
    mantissa, both negated for a negative value.  NaN has none. *)
Definition rank (x : spec_float) : option (Z * Z * Z) :=
  match x with
  | S754_nan => None
  | S754_infinity true => Some (-2, 0, 0)%Z
  | S754_infinity false => Some (2, 0, 0)%Z
  | S754_zero _ => Some (0, 0, 0)%Z
  | S754_finite false m e => Some (1, e, Z.pos m)%Z
  | S754_finite true m e => Some (-1, - e, Z.neg m)%Z
  end.

Definition lex_compare (p q : Z * Z * Z) : comparison :=
  let '(a1, b1, c1) := p in
  let '(a2, b2, c2) := q in
  match (a1 ?= a2)%Z with
  | Eq => match (b1 ?= b2)%Z with
          | Eq => (c1 ?= c2)%Z
          | r => r
          end
  | r => r
  end.

Definition lex_le (p q : Z * Z * Z) : Prop :=
  let '(a1, b1, c1) := p in
  let '(a2, b2, c2) := q in
  (a1 < a2 \/ (a1 = a2 /\ (b1 < b2 \/ (b1 = b2 /\ c1 <= c2))))%Z.

(** [x <= y] on floats that are not NaN. *)
Definition float_le (x y : float) : Prop :=
  exists p q, rank (Prim2SF x) = Some p /\ rank (Prim2SF y) = Some q /\ lex_le p q.

Definition not_nan (x : float) : Prop :=
  exists p, rank (Prim2SF x) = Some p.


(** * Properties *)

(** ** Lists of triples *)

Lemma list_ind3 {A : Type} (P : list A -> Prop) :
  P [] -> (forall x, P [x]) -> (forall x y, P [x; y]) ->
  (forall x y z l, P l -> P (x :: y :: z :: l)) ->
  forall l, P l.
Proof.
  intros H0 H1 H2 H3.
  fix IH 1.
  intros [|x [|y [|z l]]].
  - exact H0.
  - apply H1.
  - apply H2.
  - apply H3, IH.
Qed.

Lemma whole_triples_cons3 {A : Type} (x y z : A) (l : list A) :
  whole_triples (x :: y :: z :: l) <-> whole_triples l.
Proof.
  unfold whole_triples. cbn [length].
  replace (S (S (S (length l)))) with (length l + 1 * 3)%nat by lia.
  rewrite Nat.Div0.mod_add. tauto.
Qed.

Lemma whole_triples_ind {A : Type} (P : list A -> Prop) :
  P [] ->
  (forall x y z l, whole_triples l -> P l -> P (x :: y :: z :: l)) ->
  forall l, whole_triples l -> P l.
Proof.
  intros H0 H3 l. induction l as [|x|x y|x y z l IH] using list_ind3; intros Hl.
  - exact H0.
  - discriminate.
  - discriminate.
  - apply whole_triples_cons3 in Hl. apply H3; auto.
Qed.

Lemma length_vertex_triples (vs : list float) :
  length (vertex_triples vs) = (length vs / 3)%nat.
Proof.
  induction vs as [|x|x y|x y z l IH] using list_ind3; try reflexivity.
  simpl vertex_triples. simpl length. rewrite IH.
  replace (S (S (S (length l)))) with (length l + 1 * 3)%nat by lia.
  rewrite Nat.div_add by lia. lia.
Qed.

(** ** The loops over whole triples *)

Lemma bounds_loop_whole (vs : list float) :
  whole_triples vs ->
  forall b, bounds_loop vs b =
    Ok (fold_left (fun b t => let '(x, y, _) := t in extend_bounds b x y)
                  (vertex_triples vs) b).
Proof.
  intros Hw. pattern vs. apply whole_triples_ind; [|intros x y z l Hl IH|exact Hw].
  - reflexivity.
  - intros b. cbn [bounds_loop vertex_triples fold_left]. apply IH.
Qed.

Lemma find_bounds_whole (vs : list float) :
  whole_triples vs -> find_bounds vs = Ok (bounds_of (vertex_triples vs)).
Proof.
  intros Hw. apply bounds_loop_whole, Hw.
Qed.

Lemma mark_inside_whole (nb : bounds) (vs : list float) :
  whole_triples vs ->
  mark_inside nb vs =
    Ok (map (fun t => let '(x, y, _) := t in inside nb x y) (vertex_triples vs)).
Proof.
  intros Hw. pattern vs. apply whole_triples_ind; [|intros x y z l Hl IH|exact Hw].
  - reflexivity.
  - cbn [mark_inside vertex_triples map]. rewrite IH. reflexivity.
Qed.

Lemma getitem_index_ok {A : Type} (l : list A) (i : Z) :
  index_ok (length l) i ->
  exists a, nth_error l (Z.to_nat i) = Some a /\ getitem l i = Ok a.
Proof.
  unfold index_ok, getitem. intros [Hlo Hhi].
  assert (Hneg : (i <? 0)%Z = false) by (apply Z.ltb_ge; lia).
  assert (Hle : (Z.of_nat (length l) <=? i)%Z = false) by (apply Z.leb_gt; lia).
  cbv zeta. rewrite Hneg. cbv iota. rewrite Hneg, Hle. cbn [orb].
  destruct (nth_error l (Z.to_nat i)) as [a|] eqn:Hn.
  - exists a. auto.
  - apply nth_error_None in Hn. lia.
Qed.

Lemma vertex_in_box_marks (nb : bounds) (ts : list (float * float * float)) (i : Z) :
  index_ok (length ts) i ->
  getitem (map (fun t => let '(x, y, _) := t in inside nb x y) ts) i =
    Ok (vertex_in_box nb ts i).
Proof.
  intros Hi.
  destruct (getitem_index_ok (map (fun t => let '(x, y, _) := t in inside nb x y) ts) i)
    as (a & Hn & Hg).
  { rewrite length_map. exact Hi. }
  rewrite Hg. unfold vertex_in_box.
  rewrite nth_error_map in Hn.
  destruct (nth_error ts (Z.to_nat i)) as [[[x y] z]|]; simpl in Hn; congruence.
Qed.

Lemma filter_faces_valid (nb : bounds) (ts : list (float * float * float)) (fs : list Z) :
  whole_triples fs ->
  Forall (index_ok (length ts)) fs ->
  filter_faces (map (fun t => let '(x, y, _) := t in inside nb x y) ts) fs =
    Ok (kept_faces nb ts fs).
Proof.
  intros Hw. pattern fs. apply whole_triples_ind; [|intros a b c l Hl IH|exact Hw].
  - reflexivity.
  - intros Hall.
    inversion Hall as [|? ? Ha Hall1]; subst.
    inversion Hall1 as [|? ? Hb Hall2]; subst.
    inversion Hall2 as [|? ? Hc Hall3]; subst.
    cbn [filter_faces]. unfold face_inside.
    rewrite !vertex_in_box_marks by assumption.
    rewrite (IH Hall3).
    unfold kept_faces. cbn [face_triples filter face_in_box bind].
    destruct (vertex_in_box nb ts a), (vertex_in_box nb ts b),
      (vertex_in_box nb ts c); reflexivity.
Qed.

Lemma len_div3_pos {A : Type} (l : list A) :
  whole_triples l -> l <> [] -> (len l / 3 =? 0)%Z = false.
Proof.
  intros Hw Hne. apply Z.eqb_neq. unfold len.
  destruct l as [|x [|y [|z r]]]; try congruence; try discriminate.
  cbn [length]. intros H.
  assert (3 <= Z.of_nat (S (S (S (length r)))))%Z by lia.
  assert (1 <= Z.of_nat (S (S (S (length r)))) / 3)%Z.
  { apply Z.div_le_lower_bound; lia. }
  lia.
Qed.

(** The filter of [trim_edges] on a valid mesh, with or without faces: the
    faces kept are those with their three vertices in the trimmed box. *)
Lemma trim_filter_valid (m : mesh) (trim_percent : float) :
  valid_mesh m ->
  let ts := vertex_triples (vertices m) in
  let nb := trim_bounds (bounds_of ts) trim_percent in
  exists vertex_inside,
    find_bounds (vertices m) = Ok (bounds_of ts) /\
    mark_inside nb (vertices m) = Ok vertex_inside /\
    filter_faces vertex_inside (faces m) = Ok (kept_faces nb ts (faces m)).
Proof.
  intros (Hv & Hf & Hidx) ts nb. eexists.
  split; [apply find_bounds_whole, Hv|].
  split; [apply mark_inside_whole, Hv|].
  apply filter_faces_valid; [exact Hf|].
  unfold ts. rewrite length_vertex_triples. exact Hidx.
Qed.

(** [trim_edges] on a valid mesh with at least one face: the vertices are
    handed on untouched and the faces are filtered by the trimmed box. *)
Lemma trim_edges_valid (m : mesh) (trim_percent : float) :
  valid_mesh m -> faces m <> [] ->
  trim_edges (to_document m) trim_percent =
    Ok {| vertices := vertices m;
          faces := kept_faces
                     (trim_bounds (bounds_of (vertex_triples (vertices m))) trim_percent)
                     (vertex_triples (vertices m)) (faces m) |}.
Proof.
  intros (Hv & Hf & Hidx) Hne.
  unfold trim_edges, to_document. cbn [doc_triangles tri_v tri_f subscript bind].
  rewrite (find_bounds_whole _ Hv). cbn [bind].
  rewrite (mark_inside_whole _ _ Hv). cbn [bind].
  rewrite filter_faces_valid; [|exact Hf|rewrite length_vertex_triples; exact Hidx].
  cbn [bind]. unfold int_truediv.
  rewrite (len_div3_pos _ Hf Hne). reflexivity.
Qed.

(** ** Facts about binary64 comparison and arithmetic *)

Lemma SFcompare_antisym (x y : spec_float) :
  SFcompare y x = option_map CompOpp (SFcompare x y).
Proof.
  destruct x as [sx|sx| |sx mx ex], y as [sy|sy| |sy my ey]; cbn;
    try reflexivity;
    try (destruct sx; reflexivity); try (destruct sy; reflexivity);
    try (destruct sx, sy; reflexivity).
  destruct sx, sy; try reflexivity.
  all: rewrite (Z.compare_antisym ex ey); destruct (ex ?= ey)%Z; cbn; try reflexivity.
  all: rewrite !Pos.compare_cont_spec; cbn [Pos.switch_Eq].
  all: rewrite (Pos.compare_antisym mx my); destruct (mx ?= my)%positive; reflexivity.
Qed.

Lemma ltb_pos_nonzero (e : float) :
  (0 <? e)%float = true -> (e =? 0)%float = false.
Proof.
  rewrite ltb_spec, eqb_spec. unfold SFltb, SFeqb.
  rewrite (SFcompare_antisym (Prim2SF 0) (Prim2SF e)).
  destruct (SFcompare (Prim2SF 0) (Prim2SF e)) as [[ | | ]|]; cbn; congruence.
Qed.

Lemma leb_not_ltb (a b : float) :
  (a <=? b)%float = true -> (b <? a)%float = false.
Proof.
  rewrite leb_spec, ltb_spec. unfold SFleb, SFltb.
  rewrite (SFcompare_antisym (Prim2SF a) (Prim2SF b)).
  destruct (SFcompare (Prim2SF a) (Prim2SF b)) as [[ | | ]|]; cbn; congruence.
Qed.

Lemma SFmul_comm (x y : spec_float) :
  SFmul prec emax x y = SFmul prec emax y x.
Proof.
  destruct x as [sx|sx| |sx mx ex], y as [sy|sy| |sy my ey]; cbn;
    try reflexivity; try (rewrite xorb_comm; reflexivity).
  rewrite xorb_comm, Pos.mul_comm, Z.add_comm. reflexivity.
Qed.

Lemma float_mul_comm (x y : float) : (x * y = y * x)%float.
Proof.
  apply Prim2SF_inj. rewrite !mul_spec. apply SFmul_comm.
Qed.

(** [x - x] is [+0] for a finite [x] and NaN otherwise. *)
Lemma sub_diag_cases (x : float) :
  (x - x = 0 \/ x - x = nan)%float.
Proof.
  assert (H : Prim2SF (x - x) = S754_zero false \/ Prim2SF (x - x) = S754_nan).
  { rewrite sub_spec. unfold SF64sub.
    destruct (Prim2SF x) as [s|s| |s m e]; cbn.
    - left. destruct s; reflexivity.
    - right. destruct s; reflexivity.
    - right. reflexivity.
    - left. rewrite Z.min_id, Z.sub_diag. reflexivity. }
  destruct H as [H|H]; [left|right]; apply Prim2SF_inj; rewrite H; reflexivity.
Qed.

Lemma max2_abs_sub_diag (x : float) : max2 0 (abs (x - x)) = 0%float.
Proof.
  unfold max2.
  destruct (sub_diag_cases x) as [H|H]; rewrite H; reflexivity.
Qed.

(** ** The loops of [smooth_edges] *)

Lemma flatten_vertex_triples (vs : list float) :
  whole_triples vs -> flatten_vertices (vertex_triples vs) = vs.
Proof.
  intros Hw. pattern vs. apply whole_triples_ind; [|intros x y z l Hl IH|exact Hw].
  - reflexivity.
  - cbn [vertex_triples flatten_vertices]. rewrite IH. reflexivity.
Qed.

Lemma vertex_triples_flatten (ts : list (float * float * float)) :
  vertex_triples (flatten_vertices ts) = ts.
Proof.
  induction ts as [|[[x y] z] ts IH]; [reflexivity|].
  cbn [flatten_vertices vertex_triples]. rewrite IH. reflexivity.
Qed.

Lemma length_flatten_vertices (ts : list (float * float * float)) :
  length (flatten_vertices ts) = (3 * length ts)%nat.
Proof.
  induction ts as [|[[x y] z] ts IH]; [reflexivity|].
  cbn [flatten_vertices length]. rewrite IH. lia.
Qed.

Lemma interior_loop_whole (b : bounds) (ex ey : float) (vs : list float) :
  whole_triples vs ->
  interior_loop b ex ey vs = Ok (interior_of b ex ey (vertex_triples vs)).
Proof.
  intros Hw. pattern vs. apply whole_triples_ind; [|intros x y z l Hl IH|exact Hw].
  - reflexivity.
  - cbn [interior_loop vertex_triples]. rewrite IH. cbn [bind].
    unfold interior_of. cbn [filter].
    destruct (is_interior b ex ey x y z); reflexivity.
Qed.

Lemma interior_loop_ok_whole (b : bounds) (ex ey : float) (vs zs : list float) :
  interior_loop b ex ey vs = Ok zs -> whole_triples vs.
Proof.
  revert zs. induction vs as [|x|x y|x y z l IH] using list_ind3; intros zs H.
  - reflexivity.
  - discriminate.
  - discriminate.
  - apply whole_triples_cons3. cbn [interior_loop] in H.
    destruct (interior_loop b ex ey l) as [zs'|e] eqn:E; [|discriminate].
    eapply IH. reflexivity.
Qed.

Lemma edge_dist_norm (d edge : float) : edge_dist d edge = Ok (norm_dist d edge).
Proof.
  unfold edge_dist, norm_dist, truediv.
  destruct (0 <? edge)%float eqn:E; [|reflexivity].
  rewrite (ltb_pos_nonzero _ E). reflexivity.
Qed.

Lemma min_dist_of_ok (b : bounds) (ex ey x y : float) :
  min_dist_of b ex ey x y = Ok (min_dist b ex ey x y).
Proof.
  unfold min_dist_of. rewrite !edge_dist_norm. reflexivity.
Qed.

Lemma smooth_loop_whole (b : bounds) (ex ey : float) (st : interior_stats)
    (s : float) (vs : list float) :
  whole_triples vs ->
  smooth_loop b ex ey st s vs =
    Ok (flatten_vertices (map (smooth_vertex b ex ey st s) (vertex_triples vs))).
Proof.
  intros Hw. pattern vs. apply whole_triples_ind; [|intros x y z l Hl IH|exact Hw].
  - reflexivity.
  - cbn [smooth_loop vertex_triples map flatten_vertices smooth_vertex].
    rewrite min_dist_of_ok, IH. reflexivity.
Qed.

Lemma stats_of_ok (zs : list float) :
  zs <> [] -> stats_of zs = Ok (stats zs).
Proof.
  destruct zs as [|z zs]; [congruence|]. intros _.
  unfold stats_of, truediv_int, len.
  destruct (Z.of_nat (length (z :: zs)) =? 0)%Z eqn:E.
  - apply Z.eqb_eq in E. cbn [length] in E. lia.
  - reflexivity.
Qed.

(** [smooth_edges] on a mesh whose vertex list holds whole triples. *)
Lemma smooth_edges_whole (m : mesh) (e s : float) :
  whole_triples (vertices m) ->
  let ts := vertex_triples (vertices m) in
  let b := bounds_of ts in
  let zs := interior_of b (edge_x b e) (edge_y b e) ts in
  smooth_edges (to_document m) e s =
    match zs with
    | [] => Ok InputPath
    | _ :: _ =>
        Ok (Written
              {| vertices :=
                   flatten_vertices
                     (map (smooth_vertex b (edge_x b e) (edge_y b e) (stats zs) s) ts);
                 faces := faces m |})
    end.
Proof.
  intros Hw ts b zs.
  unfold smooth_edges, to_document. cbn [doc_triangles tri_v tri_f subscript bind].
  rewrite (find_bounds_whole _ Hw). cbn [bind].
  rewrite (interior_loop_whole _ _ _ _ Hw). cbn [bind].
  fold ts. fold b. fold zs.
  destruct zs as [|z zs'] eqn:E; [reflexivity|].
  rewrite stats_of_ok by congruence. cbn [bind].
  rewrite (smooth_loop_whole _ _ _ _ _ _ Hw). reflexivity.
Qed.

(** A run of [smooth_edges] that returns (either way) read whole triples. *)
Lemma smooth_edges_ok_whole (m : mesh) (e s : float) (r : smoothed) :
  smooth_edges (to_document m) e s = Ok r -> whole_triples (vertices m).
Proof.
  unfold smooth_edges, to_document. cbn [doc_triangles tri_v tri_f subscript bind].
  destruct (find_bounds (vertices m)) as [b|]; [|discriminate]. cbn [bind].
  destruct (interior_loop b (edge_x b e) (edge_y b e) (vertices m)) as [zs|] eqn:E;
    [|discriminate].
  intros _. eapply interior_loop_ok_whole, E.
Qed.

(** ** [trim_edges]: the claims *)

Lemma valid_single_vertex : valid_mesh single_vertex.
Proof.
  split; [reflexivity|]. split; [reflexivity|]. constructor.
Qed.

Lemma valid_bare_triangle : valid_mesh bare_triangle.
Proof.
  split; [reflexivity|]. split; [reflexivity|]. constructor.
Qed.

(** C10.  On a valid mesh whose face list is empty, [trim_edges] raises
    [ZeroDivisionError]: marking the vertices and filtering the (empty)
    face list both succeed, and the percentage of removed faces is then
    computed with the unguarded divisor [num_faces_original = 0]. *)
Theorem trim_edges_no_faces_zero_division (m : mesh) (trim_percent : float) :
  valid_mesh m -> faces m = [] ->
  (exists b vertex_inside,
      find_bounds (vertices m) = Ok b /\
      mark_inside (trim_bounds b trim_percent) (vertices m) = Ok vertex_inside /\
      filter_faces vertex_inside (faces m) = Ok []) /\
  int_truediv (len (faces m) / 3 - len (@nil Z) / 3) (len (faces m) / 3)
    = Raise ZeroDivisionError /\
  trim_edges (to_document m) trim_percent = Raise ZeroDivisionError.
Proof.
  intros (Hv & _ & _) Hf. split; [|split].
  - eexists. eexists. split; [apply find_bounds_whole, Hv|]. split.
    + apply mark_inside_whole, Hv.
    + rewrite Hf. reflexivity.
  - rewrite Hf. reflexivity.
  - unfold trim_edges, to_document. cbn [doc_triangles tri_v tri_f subscript bind].
    rewrite (find_bounds_whole _ Hv). cbn [bind].
    rewrite (mark_inside_whole _ _ Hv). cbn [bind].
    rewrite Hf. reflexivity.
Qed.

Lemma trim_edges_no_faces_zero_division_witness :
  valid_mesh single_vertex /\ faces single_vertex = [] /\
  trim_edges (to_document single_vertex) 0.02 = Raise ZeroDivisionError.
Proof.
  split; [exact valid_single_vertex|]. split; [reflexivity|].
  exact (proj2 (proj2 (trim_edges_no_faces_zero_division single_vertex 0.02
                         valid_single_vertex eq_refl))).
Defined.

(** C6.  The failing input: a valid mesh of one vertex and no face, trimmed
    by the default fraction.  The filtered face list is computed (it is
    empty), but no mesh is handed back: the call ends in
    [ZeroDivisionError]. *)
Theorem trim_edges_single_vertex_no_output :
  valid_mesh single_vertex /\
  kept_faces (trim_bounds (bounds_of (vertex_triples (vertices single_vertex))) 0.02)
             (vertex_triples (vertices single_vertex)) (faces single_vertex) = [] /\
  trim_edges (to_document single_vertex) 0.02 = Raise ZeroDivisionError /\
  ~ exists out, trim_edges (to_document single_vertex) 0.02 = Ok out.
Proof.
  split; [exact valid_single_vertex|]. split; [reflexivity|].
  split; [reflexivity|]. intros [out H]. vm_compute in H. discriminate.
Qed.

(** C7.  The failing input: a valid mesh of three vertices and no face,
    trimmed by [0].  The call is not the identity: it raises
    [ZeroDivisionError] and hands back no mesh. *)
Theorem trim_edges_zero_not_identity :
  valid_mesh bare_triangle /\
  trim_edges (to_document bare_triangle) 0 = Raise ZeroDivisionError /\
  trim_edges (to_document bare_triangle) 0 <> Ok bare_triangle.
Proof.
  split; [exact valid_bare_triangle|]. split; [reflexivity|].
  intros H. vm_compute in H. discriminate.
Qed.

(** ** Flat indices and triples *)

Lemma nth_error_flatten_x (ts : list (float * float * float)) (i : nat) :
  nth_error (flatten_vertices ts) (3 * i) =
    option_map (fun t => fst (fst t)) (nth_error ts i).
Proof.
  revert i. induction ts as [|[[x y] z] ts IH]; intros [|i]; try reflexivity.
  replace (3 * S i)%nat with (S (S (S (3 * i)))) by lia.
  cbn [flatten_vertices nth_error]. apply IH.
Qed.

Lemma nth_error_flatten_y (ts : list (float * float * float)) (i : nat) :
  nth_error (flatten_vertices ts) (3 * i + 1) =
    option_map (fun t => snd (fst t)) (nth_error ts i).
Proof.
  revert i. induction ts as [|[[x y] z] ts IH]; intros [|i]; try reflexivity.
  replace (3 * S i + 1)%nat with (S (S (S (3 * i + 1)))) by lia.
  cbn [flatten_vertices nth_error]. apply IH.
Qed.

Lemma nth_error_flatten_z (ts : list (float * float * float)) (i : nat) :
  nth_error (flatten_vertices ts) (3 * i + 2) =
    option_map (fun t => snd t) (nth_error ts i).
Proof.
  revert i. induction ts as [|[[x y] z] ts IH]; intros [|i]; try reflexivity.
  replace (3 * S i + 2)%nat with (S (S (S (3 * i + 2)))) by lia.
  cbn [flatten_vertices nth_error]. apply IH.
Qed.

(** Vertex [i] of a whole flat list, read by flat indices or as a triple. *)
Lemma vertex_at (vs : list float) (i : nat) (x y z : float) :
  whole_triples vs ->
  nth_error vs (3 * i) = Some x ->
  nth_error vs (3 * i + 1) = Some y ->
  nth_error vs (3 * i + 2) = Some z ->
  nth_error (vertex_triples vs) i = Some (x, y, z).
Proof.
  intros Hw. rewrite <- (flatten_vertex_triples vs Hw) at 1 2 3.
  rewrite nth_error_flatten_x, nth_error_flatten_y, nth_error_flatten_z.
  destruct (nth_error (vertex_triples vs) i) as [[[a b] c]|]; cbn; congruence.
Qed.

(** ** [smooth_edges]: the claims *)

(** What a run of [smooth_edges] that writes a mesh wrote. *)
Lemma smooth_edges_written (m m' : mesh) (e s : float) :
  smooth_edges (to_document m) e s = Ok (Written m') ->
  let ts := vertex_triples (vertices m) in
  let b := bounds_of ts in
  let zs := interior_of b (edge_x b e) (edge_y b e) ts in
  whole_triples (vertices m) /\
  m' = {| vertices :=
            flatten_vertices
              (map (smooth_vertex b (edge_x b e) (edge_y b e) (stats zs) s) ts);
          faces := faces m |}.
Proof.
  intros H ts b zs.
  pose proof (smooth_edges_ok_whole _ _ _ _ H) as Hw.
  split; [exact Hw|].
  rewrite (smooth_edges_whole m e s Hw) in H. cbv zeta in H.
  fold ts in H. fold b in H. fold zs in H.
  destruct zs; [discriminate|]. congruence.
Qed.

(** A mesh is written whenever the vertex list holds whole triples and some
    vertex is interior. *)
Lemma smooth_edges_writes (m : mesh) (e s : float) :
  whole_triples (vertices m) ->
  let ts := vertex_triples (vertices m) in
  let b := bounds_of ts in
  interior_of b (edge_x b e) (edge_y b e) ts <> [] ->
  exists m', smooth_edges (to_document m) e s = Ok (Written m').
Proof.
  intros Hw ts b Hne. rewrite (smooth_edges_whole m e s Hw). cbv zeta.
  fold ts. fold b.
  destruct (interior_of b (edge_x b e) (edge_y b e) ts); [congruence|].
  eexists. reflexivity.
Qed.

Lemma interior_of_nil_iff (b : bounds) (ex ey : float) (ts : list (float * float * float)) :
  interior_of b ex ey ts = [] <->
  Forall (fun t => let '(x, y, z) := t in is_interior b ex ey x y z = false) ts.
Proof.
  unfold interior_of. induction ts as [|[[x y] z] ts IH]; cbn [filter map].
  - split; [constructor|reflexivity].
  - destruct (is_interior b ex ey x y z) eqn:E; cbn [map].
    + split; [discriminate|]. intros H. inversion H; congruence.
    + rewrite IH. split; [intros H; constructor; assumption|].
      intros H. inversion H; assumption.
Qed.

(** C1 (as amended).  When no vertex is interior, [smooth_edges] raises
    nothing and writes nothing: it returns the input path. *)
Theorem smooth_edges_no_interior (m : mesh) (e s : float) :
  whole_triples (vertices m) ->
  let ts := vertex_triples (vertices m) in
  let b := bounds_of ts in
  Forall (fun t => let '(x, y, z) := t in
                   is_interior b (edge_x b e) (edge_y b e) x y z = false) ts ->
  smooth_edges (to_document m) e s = Ok InputPath.
Proof.
  intros Hw ts b Hnone. apply interior_of_nil_iff in Hnone.
  rewrite (smooth_edges_whole m e s Hw). cbv zeta.
  fold ts. fold b. rewrite Hnone. reflexivity.
Qed.

Lemma smooth_edges_no_interior_witness :
  whole_triples (vertices unit_square) /\
  smooth_edges (to_document unit_square) 0.05 0.5 = Ok InputPath.
Proof.
  split; [reflexivity|].
  apply (smooth_edges_no_interior unit_square 0.05 0.5); [reflexivity|].
  repeat constructor.
Defined.

(** C1, as stated, fails on the unit square: no vertex is interior, and the
    call returns normally instead of raising. *)
Lemma smooth_edges_no_interior_not_raised :
  (let ts := vertex_triples (vertices unit_square) in
   let b := bounds_of ts in
   interior_of b (edge_x b 0.05) (edge_y b 0.05) ts = []) /\
  smooth_edges (to_document unit_square) 0.05 0.5 = Ok InputPath /\
  ~ exists err, smooth_edges (to_document unit_square) 0.05 0.5 = Raise err.
Proof.
  split; [reflexivity|]. split; [reflexivity|].
  intros [err H]. vm_compute in H. discriminate.
Qed.

(** C8.  A run of [smooth_edges] that writes a mesh keeps the face list, the
    number of coordinates, the X and Y of every vertex, and the Z of every
    vertex whose normalized distance from the nearest side is at least 1. *)
Theorem smooth_edges_frame (m m' : mesh) (e s : float) :
  smooth_edges (to_document m) e s = Ok (Written m') ->
  let b := bounds_of (vertex_triples (vertices m)) in
  faces m' = faces m /\
  length (vertices m') = length (vertices m) /\
  forall i : nat,
    nth_error (vertices m') (3 * i) = nth_error (vertices m) (3 * i) /\
    nth_error (vertices m') (3 * i + 1) = nth_error (vertices m) (3 * i + 1) /\
    forall x y z,
      nth_error (vertices m) (3 * i) = Some x ->
      nth_error (vertices m) (3 * i + 1) = Some y ->
      nth_error (vertices m) (3 * i + 2) = Some z ->
      (1 <=? min_dist b (edge_x b e) (edge_y b e) x y)%float = true ->
      nth_error (vertices m') (3 * i + 2) = Some z.
Proof.
  intros H b. destruct (smooth_edges_written _ _ _ _ H) as [Hw ->].
  clear H. fold b. cbn [faces vertices].
  pose proof (flatten_vertex_triples _ Hw) as Hfl.
  set (ts := vertex_triples (vertices m)) in *.
  set (f := smooth_vertex b (edge_x b e) (edge_y b e) _ s).
  clearbody ts. rewrite <- Hfl. clear Hfl Hw.
  split; [reflexivity|]. split.
  - rewrite !length_flatten_vertices, length_map. reflexivity.
  - intros i.
    rewrite !nth_error_flatten_x, !nth_error_flatten_y, !nth_error_flatten_z.
    rewrite nth_error_map.
    destruct (nth_error ts i) as [[[a c] d]|]; cbn [option_map f smooth_vertex fst snd].
    + split; [reflexivity|]. split; [reflexivity|].
      intros x y z Hx Hy Hz Hd.
      injection Hx as <-. injection Hy as <-. injection Hz as <-.
      unfold f, smooth_vertex, smooth_z. cbn [snd].
      rewrite (leb_not_ltb _ _ Hd). reflexivity.
    + split; [reflexivity|]. split; [reflexivity|]. discriminate.
Qed.

Lemma smooth_edges_frame_witness :
  exists m',
    smooth_edges (to_document terrain) 0.25 0.5 = Ok (Written m') /\
    faces m' = faces terrain /\
    length (vertices m') = length (vertices terrain) /\
    nth_error (vertices m') (3 * 4) = Some 1%float /\
    nth_error (vertices m') (3 * 4 + 1) = Some 1%float /\
    nth_error (vertices m') (3 * 4 + 2) = Some 8%float.
Proof.
  eexists. split; [reflexivity|].
  destruct (smooth_edges_frame terrain _ 0.25 0.5 eq_refl) as (Hf & Hl & Hi).
  destruct (Hi 4%nat) as (Hx & Hy & Hz).
  split; [exact Hf|]. split; [exact Hl|]. split; [exact Hx|]. split; [exact Hy|].
  apply (Hz 1%float 1%float 8%float); reflexivity.
Defined.

(** C9.  In a run of [smooth_edges] that writes a mesh, a vertex of the edge
    zone (normalized distance [d < 1]) gets the mean interior elevation when
    its elevation [z] is non-positive, below 0.8 times the least interior
    elevation or above 1.2 times the greatest one, and
    [z + (avg - z) * smooth_strength * (1 - d)] otherwise. *)
Theorem smooth_edges_edge_zone (m m' : mesh) (e s : float) :
  smooth_edges (to_document m) e s = Ok (Written m') ->
  let ts := vertex_triples (vertices m) in
  let b := bounds_of ts in
  let zs := interior_of b (edge_x b e) (edge_y b e) ts in
  let avg := avg_elevation (stats zs) in
  let lo := min_interior (stats zs) in
  let hi := max_interior (stats zs) in
  forall (i : nat) (x y z : float),
    nth_error (vertices m) (3 * i) = Some x ->
    nth_error (vertices m) (3 * i + 1) = Some y ->
    nth_error (vertices m) (3 * i + 2) = Some z ->
    let d := min_dist b (edge_x b e) (edge_y b e) x y in
    (d <? 1)%float = true ->
    nth_error (vertices m') (3 * i + 2) =
      Some (if ((z <=? 0) || (z <? 0.8 * lo) || (1.2 * hi <? z))%float then avg
            else (z + (avg - z) * s * (1 - d))%float).
Proof.
  intros H ts b zs avg lo hi i x y z Hx Hy Hz d Hd.
  destruct (smooth_edges_written _ _ _ _ H) as [Hw ->]. clear H.
  fold ts. fold b. fold zs. cbn [vertices].
  rewrite nth_error_flatten_z, nth_error_map.
  pose proof (vertex_at _ _ _ _ _ Hw Hx Hy Hz) as Ht. fold ts in Ht. rewrite Ht.
  cbn [option_map smooth_vertex snd]. fold d.
  unfold smooth_z, is_outlier. rewrite Hd.
  rewrite (float_mul_comm (min_interior (stats zs)) 0.8).
  rewrite (float_mul_comm (max_interior (stats zs)) 1.2).
  reflexivity.
Qed.

Lemma smooth_edges_edge_zone_witness :
  exists m',
    smooth_edges (to_document terrain) 0.25 0.5 = Ok (Written m') /\
    nth_error (vertices m') (3 * 2 + 2) = Some 7.5%float /\
    nth_error (vertices m') (3 * 0 + 2) = Some 9%float.
Proof.
  eexists. split; [reflexivity|]. split.
  - exact (smooth_edges_edge_zone terrain _ 0.25 0.5 eq_refl
             2%nat 0.25%float 1%float 7%float eq_refl eq_refl eq_refl eq_refl).
  - exact (smooth_edges_edge_zone terrain _ 0.25 0.5 eq_refl
             0%nat 0%float 0%float 4%float eq_refl eq_refl eq_refl eq_refl).
Defined.

(** ** Bounds of an empty vertex list *)

(** C2.  The failing input: the empty vertex list.  The bounds loop of
    [trim_edges] and [smooth_edges] hands back the inverted infinities it
    started from, and both functions go on with them: [smooth_edges]
    derives its edge widths from them and returns normally, [trim_edges]
    derives a box of NaNs from them and fails only later, in the percentage
    of removed faces.  [json_to_obj] alone refuses an empty vertex list,
    before it computes any bounds. *)
Theorem empty_vertices_inverted_bounds :
  find_bounds [] = Ok initial_bounds /\
  (min_x initial_bounds = infinity /\ max_x initial_bounds = neg_infinity /\
   min_y initial_bounds = infinity /\ max_y initial_bounds = neg_infinity) /\
  (forall (fs : list Z) (e s : float),
      smooth_edges (to_document {| vertices := []; faces := fs |}) e s = Ok InputPath) /\
  edge_x initial_bounds 0.05 = neg_infinity /\
  trim_bounds initial_bounds 0.02 =
    {| min_x := nan; max_x := nan; min_y := nan; max_y := nan |} /\
  trim_edges (to_document empty_mesh) 0.02 = Raise ZeroDivisionError /\
  (forall (float_repr : float -> string) (name : string),
      json_to_obj float_repr (to_document empty_mesh) name = Raise ValueError).
Proof.
  repeat split; reflexivity.
Qed.

(** ** [obj_to_json]: the face list *)

Lemma whole_triples_app3 {A : Type} (l : list A) (a b c : A) :
  whole_triples l -> whole_triples (l ++ [a; b; c]).
Proof.
  unfold whole_triples. rewrite length_app. cbn [length]. intros H.
  replace (length l + 3)%nat with (length l + 1 * 3)%nat by lia.
  rewrite Nat.Div0.mod_add. exact H.
Qed.

Lemma whole_triples_len_div {A B : Type} (l : list A) (l' : list B) :
  whole_triples l -> whole_triples l' ->
  (len l / 3 = len l' / 3)%Z -> len l = len l'.
Proof.
  unfold whole_triples, len. intros H H' E.
  assert (Hm : forall n : nat, (n mod 3 = 0)%nat -> (Z.of_nat n = 3 * (Z.of_nat n / 3))%Z).
  { intros n Hn.
    assert (Hz : (Z.of_nat n mod 3 = 0)%Z).
    { change 3%Z with (Z.of_nat 3). rewrite <- Nat2Z.inj_mod, Hn. reflexivity. }
    pose proof (Z.div_mod (Z.of_nat n) 3 ltac:(lia)). lia. }
  rewrite (Hm _ H), (Hm _ H'), E. reflexivity.
Qed.

Section ObjToJson.

Variable float_of_string : string -> option float.

Lemma parse_line_whole (line : string) (vs vs' : list float) (fs fs' : list Z) :
  parse_line float_of_string line (vs, fs) = Ok (vs', fs') ->
  whole_triples vs -> whole_triples fs ->
  whole_triples vs' /\ whole_triples fs'.
Proof.
  unfold parse_line. intros H Hv Hf.
  destruct (Str.startswith "v " (Str.strip line)).
  - destruct (4 <=? length (Str.split (Str.strip line)))%nat.
    + destruct (to_float float_of_string (nth 1 (Str.split (Str.strip line)) ""%string))
        as [x|]; [|discriminate].
      destruct (to_float float_of_string (nth 2 (Str.split (Str.strip line)) ""%string))
        as [y|]; [|discriminate].
      destruct (to_float float_of_string (nth 3 (Str.split (Str.strip line)) ""%string))
        as [z|]; [|discriminate].
      cbn [bind] in H. injection H as <- <-.
      split; [apply whole_triples_app3|]; assumption.
    + injection H as <- <-. auto.
  - destruct (Str.startswith "f " (Str.strip line)).
    + destruct (4 <=? length (Str.split (Str.strip line)))%nat.
      * destruct (Str.to_int (Str.before "/" (nth 1 (Str.split (Str.strip line)) ""%string)))
          as [a|]; [|discriminate].
        destruct (Str.to_int (Str.before "/" (nth 2 (Str.split (Str.strip line)) ""%string)))
          as [b|]; [|discriminate].
        destruct (Str.to_int (Str.before "/" (nth 3 (Str.split (Str.strip line)) ""%string)))
          as [c|]; [|discriminate].
        cbn [bind] in H. injection H as <- <-.
        split; [|apply whole_triples_app3]; assumption.
      * injection H as <- <-. auto.
    + injection H as <- <-. auto.
Qed.

Lemma parse_lines_whole (lines : list string) :
  forall vs fs vs' fs',
  parse_lines float_of_string lines (vs, fs) = Ok (vs', fs') ->
  whole_triples vs -> whole_triples fs ->
  whole_triples vs' /\ whole_triples fs'.
Proof.
  induction lines as [|line rest IH]; intros vs fs vs' fs' H Hv Hf.
  - injection H as <- <-. auto.
  - cbn [parse_lines] in H.
    destruct (parse_line float_of_string line (vs, fs)) as [[vs1 fs1]|] eqn:E;
      [|discriminate].
    cbn [bind] in H. destruct (parse_line_whole _ _ _ _ _ E Hv Hf).
    eapply IH; eauto.
Qed.

(** The lists parsed from an OBJ file hold whole triples. *)
Lemma parse_obj_whole (lines : list string) (vs : list float) (fs : list Z) :
  parse_obj float_of_string lines = Ok (vs, fs) ->
  whole_triples vs /\ whole_triples fs.
Proof.
  intros H. eapply parse_lines_whole; [exact H| |]; reflexivity.
Qed.

Lemma obj_to_json_parsed (lines : list string) (ref : mesh) (stdin : list string)
    (vs : list float) (fs : list Z) :
  parse_obj float_of_string lines = Ok (vs, fs) ->
  obj_to_json float_of_string lines (to_document ref) stdin =
    (' (faces, stdin') <- resolve_faces vs (vertices ref) fs (faces ref) stdin ;;
     _ <- check_positions vs (vertices ref) stdin' ;;
     Ok {| vertices := vs; faces := faces |}).
Proof.
  intros H. unfold obj_to_json, to_document.
  cbn [doc_triangles tri_v tri_f subscript bind]. rewrite H. reflexivity.
Qed.

(** C3.  With as many parsed vertices as the reference has, the mesh written
    carries the reference's face list; with a different number of vertices
    and as many parsed face triples as the reference has, it carries the
    faces parsed from the OBJ.  In both cases the mesh is written exactly
    when the validation of the vertex positions lets the call go on. *)
Theorem obj_to_json_face_list (lines : list string) (ref : mesh) (stdin : list string)
    (vs : list float) (fs : list Z) :
  parse_obj float_of_string lines = Ok (vs, fs) ->
  ((len vs / 3 = len (vertices ref) / 3)%Z ->
     (forall out, obj_to_json float_of_string lines (to_document ref) stdin = Ok out ->
                  faces out = faces ref /\ vertices out = vs) /\
     (forall stdin', check_positions vs (vertices ref) stdin = Ok stdin' ->
        obj_to_json float_of_string lines (to_document ref) stdin =
          Ok {| vertices := vs; faces := faces ref |}))
  /\
  ((len vs / 3 <> len (vertices ref) / 3)%Z ->
   whole_triples (faces ref) ->
   (len fs / 3 = len (faces ref) / 3)%Z ->
     (forall out, obj_to_json float_of_string lines (to_document ref) stdin = Ok out ->
                  faces out = fs /\ vertices out = vs) /\
     (forall stdin', check_positions vs (vertices ref) stdin = Ok stdin' ->
        obj_to_json float_of_string lines (to_document ref) stdin =
          Ok {| vertices := vs; faces := fs |})).
Proof.
  intros Hp. rewrite (obj_to_json_parsed _ _ _ _ _ Hp). unfold resolve_faces.
  split.
  - intros Hv. apply Z.eqb_eq in Hv. rewrite Hv. cbn [negb bind].
    split.
    + intros out H.
      destruct (check_positions vs (vertices ref) stdin); [|discriminate].
      cbn [bind] in H. injection H as <-. auto.
    + intros stdin' H. rewrite H. reflexivity.
  - intros Hv Hw Hf. apply Z.eqb_neq in Hv. rewrite Hv. cbn [negb].
    destruct (parse_obj_whole _ _ _ Hp) as [_ Hwf].
    rewrite (whole_triples_len_div _ _ Hwf Hw Hf), Z.eqb_refl. cbn [negb bind].
    split.
    + intros out H.
      destruct (check_positions vs (vertices ref) stdin); [|discriminate].
      cbn [bind] in H. injection H as <-. auto.
    + intros stdin' H. rewrite H. reflexivity.
Qed.

(** C4.  With a parsed vertex count and a parsed face count that both
    differ from the reference's, [obj_to_json] asks for a confirmation and
    exits with status 1 unless the answer is a [y]; with no answer to read it
    raises [EOFError].  A mesh is written only after that explicit
    confirmation. *)
Theorem obj_to_json_topology_mismatch (lines : list string) (ref : mesh)
    (stdin : list string) (vs : list float) (fs : list Z) :
  parse_obj float_of_string lines = Ok (vs, fs) ->
  (len vs / 3 <> len (vertices ref) / 3)%Z ->
  (len fs / 3 <> len (faces ref) / 3)%Z ->
  match stdin with
  | [] => obj_to_json float_of_string lines (to_document ref) stdin = Raise EOFError
  | response :: rest =>
      if String.eqb (Str.lower response) "y"
      then obj_to_json float_of_string lines (to_document ref) stdin =
             (_ <- check_positions vs (vertices ref) rest ;;
              Ok {| vertices := vs; faces := fs |})
      else obj_to_json float_of_string lines (to_document ref) stdin =
             Raise (SystemExit 1)
  end /\
  (forall out, obj_to_json float_of_string lines (to_document ref) stdin = Ok out ->
     exists response rest,
       stdin = response :: rest /\ Str.lower response = "y"%string).
Proof.
  intros Hp Hv Hf. rewrite (obj_to_json_parsed _ _ _ _ _ Hp). unfold resolve_faces.
  apply Z.eqb_neq in Hv. rewrite Hv. cbn [negb].
  assert (Hl : (len fs =? len (faces ref))%Z = false).
  { apply Z.eqb_neq. intros E. apply Hf. rewrite E. reflexivity. }
  rewrite Hl. cbn [negb].
  destruct stdin as [|response rest]; cbn [confirm bind].
  - split; [reflexivity|]. discriminate.
  - destruct (String.eqb (Str.lower response) "y") eqn:Ey; cbn [negb bind].
    + split; [reflexivity|]. intros out _.
      exists response, rest. split; [reflexivity|]. apply String.eqb_eq, Ey.
    + split; [reflexivity|]. discriminate.
Qed.

End ObjToJson.

Lemma obj_to_json_face_list_witness :
  obj_to_json sample_float_of_string edited_square_obj (to_document unit_square) [] =
    Ok {| vertices := [0; 0; 1;  1; 0; 1;  0; 1; 1;  1; 1; 2]%float;
          faces := faces unit_square |} /\
  obj_to_json sample_float_of_string five_vertex_obj (to_document unit_square) [] =
    Ok {| vertices := [0; 0; 1;  1; 0; 1;  0; 1; 1;  1; 1; 1;  0.5; 0.5; 1]%float;
          faces := [0; 1; 4;  1; 3; 4]%Z |}.
Proof.
  split.
  - apply (proj1 (obj_to_json_face_list sample_float_of_string edited_square_obj
                    unit_square [] _ [2; 1; 0; 2; 3; 1]%Z eq_refl) eq_refl) with (stdin' := []).
    reflexivity.
  - apply (proj2 (obj_to_json_face_list sample_float_of_string five_vertex_obj
                    unit_square [] _ _ eq_refl)) with (stdin' := []).
    + discriminate.
    + reflexivity.
    + reflexivity.
    + reflexivity.
Defined.

Lemma obj_to_json_topology_mismatch_witness :
  obj_to_json sample_float_of_string remeshed_obj (to_document unit_square) [""%string] =
    Raise (SystemExit 1).
Proof.
  apply (proj1 (obj_to_json_topology_mismatch sample_float_of_string remeshed_obj
                  unit_square [""%string] _ _ eq_refl
                  ltac:(discriminate) ltac:(discriminate))).
Defined.

(** ** Strings: tokens, lines and integer literals *)

Lemma token_cons (c : ascii) (r : string) :
  Str.token (String c r) = true ->
  Str.is_space c = false /\ (r = EmptyString \/ Str.token r = true).
Proof.
  cbn [Str.token Str.no_space]. intros H. apply andb_true_iff in H as [Hc Hr].
  apply negb_true_iff in Hc. split; [exact Hc|].
  destruct r; [left; reflexivity|right; exact Hr].
Qed.

Lemma rstrip_token (t : string) : Str.token t = true -> Str.rstrip t = t.
Proof.
  induction t as [|c r IH]; [discriminate|]. intros H.
  destruct (token_cons _ _ H) as [Hc [->|Hr]].
  - cbn [Str.rstrip]. rewrite Hc. reflexivity.
  - cbn [Str.rstrip]. rewrite (IH Hr). destruct r; [discriminate|reflexivity].
Qed.

Lemma rstrip_app_token (a t : string) :
  Str.token t = true -> Str.rstrip (a ++ t) = (a ++ t)%string.
Proof.
  intros Ht. induction a as [|c a IH].
  - apply rstrip_token, Ht.
  - cbn [append Str.rstrip]. rewrite IH.
    destruct (a ++ t)%string eqn:E; [|reflexivity].
    destruct a; cbn [append] in E; [subst t|]; discriminate.
Qed.

Lemma split_space (r : string) : Str.split (String " " r) = Str.split r.
Proof. reflexivity. Qed.

Lemma split_token (t : string) : Str.token t = true -> Str.split t = [t].
Proof.
  induction t as [|c r IH]; [discriminate|]. intros H.
  destruct (token_cons _ _ H) as [Hc [->|Hr]].
  - cbn [Str.split Str.at_word_end]. rewrite Hc. reflexivity.
  - cbn [Str.split]. rewrite Hc, (IH Hr).
    destruct r as [|c' r']; [discriminate|].
    destruct (token_cons _ _ Hr) as [Hc' _].
    cbn [Str.at_word_end]. rewrite Hc'. reflexivity.
Qed.

Lemma split_token_space (t rest : string) :
  Str.token t = true ->
  Str.split (t ++ String " " rest) = t :: Str.split rest.
Proof.
  induction t as [|c r IH]; [discriminate|]. intros H.
  destruct (token_cons _ _ H) as [Hc [->|Hr]].
  - cbn [append Str.split Str.at_word_end]. rewrite Hc. reflexivity.
  - cbn [append Str.split]. rewrite Hc, (IH Hr).
    destruct r as [|c' r']; [discriminate|].
    destruct (token_cons _ _ Hr) as [Hc' _].
    cbn [append Str.at_word_end]. rewrite Hc'. reflexivity.
Qed.

Lemma string_app_assoc (a b c : string) :
  ((a ++ b) ++ c = a ++ (b ++ c))%string.
Proof.
  induction a as [|x a IH]; [reflexivity|]. cbn [append]. rewrite IH. reflexivity.
Qed.

(** A line of three tokens after a one-letter keyword. *)
Lemma strip_keyword_line (k : ascii) (a b c : string) :
  Str.is_space k = false -> Str.token c = true ->
  Str.strip (String k (String " " (a ++ String " " (b ++ String " " c)))) =
    String k (String " " (a ++ String " " (b ++ String " " c))).
Proof.
  intros Hk Hc. unfold Str.strip. cbn [Str.lstrip]. rewrite Hk.
  assert (E : String k (String " " (a ++ String " " (b ++ String " " c))) =
              (String k (String " " (a ++ String " " (b ++ String " " EmptyString)))
               ++ c)%string).
  { cbn [append]. rewrite string_app_assoc. cbn [append].
    rewrite string_app_assoc. reflexivity. }
  rewrite E. apply rstrip_app_token, Hc.
Qed.

Lemma split_keyword_line (k : ascii) (a b c : string) :
  Str.is_space k = false ->
  Str.token a = true -> Str.token b = true -> Str.token c = true ->
  Str.split (String k (String " " (a ++ String " " (b ++ String " " c)))) =
    [String k EmptyString; a; b; c].
Proof.
  intros Hk Ha Hb Hc.
  change (String k (String " " (a ++ String " " (b ++ String " " c))))
    with (String k EmptyString ++ String " " (a ++ String " " (b ++ String " " c)))%string.
  rewrite split_token_space by (cbn; rewrite Hk; reflexivity).
  rewrite (split_token_space a) by exact Ha.
  rewrite (split_token_space b) by exact Hb.
  rewrite (split_token c) by exact Hc. reflexivity.
Qed.

Lemma startswith_keyword (k : ascii) (r : string) :
  Str.startswith (String k (String " " EmptyString)) (String k (String " " r)) = true.
Proof.
  unfold Str.startswith. cbn [prefix].
  destruct (ascii_dec k k) as [_|N]; [|congruence].
  destruct (ascii_dec " " " ") as [_|N]; [|congruence].
  destruct r; reflexivity.
Qed.

Lemma startswith_other (k k' : ascii) (p r : string) :
  k <> k' -> Str.startswith (String k p) (String k' r) = false.
Proof.
  intros N. unfold Str.startswith. cbn [prefix].
  destruct (ascii_dec k k'); [congruence|reflexivity].
Qed.

(** A line that starts with [#] is neither a vertex nor a face line. *)
Lemma strip_comment (r : string) :
  exists r', Str.strip (String "#" r) = String "#" r'.
Proof.
  unfold Str.strip. cbn [Str.lstrip].
  change (Str.is_space "#") with false. cbv iota.
  cbn [Str.rstrip]. destruct (Str.rstrip r).
  - exists EmptyString. reflexivity.
  - eexists. reflexivity.
Qed.

Lemma digits_string_of_uint (u : Decimal.uint) :
  Str.digits (NilEmpty.string_of_uint u) true = Some u.
Proof.
  induction u; cbn [NilEmpty.string_of_uint Str.digits]; [reflexivity|..];
    match goal with
    | |- context [Ascii.eqb ?c "_"] => change (Ascii.eqb c "_") with false
    end; cbv iota; cbn [Str.digit]; rewrite IHu; reflexivity.
Qed.

Lemma digits_string_of_uint_first (u : Decimal.uint) :
  u <> Decimal.Nil ->
  Str.digits (NilEmpty.string_of_uint u) false = Some u.
Proof.
  destruct u; [congruence|..]; intros _;
    cbn [NilEmpty.string_of_uint Str.digits];
    match goal with
    | |- context [Ascii.eqb ?c "_"] => change (Ascii.eqb c "_") with false
    end; cbv iota; cbn [Str.digit]; rewrite digits_string_of_uint; reflexivity.
Qed.

Lemma no_space_string_of_uint (u : Decimal.uint) :
  Str.no_space (NilEmpty.string_of_uint u) = true.
Proof.
  induction u; cbn [NilEmpty.string_of_uint Str.no_space]; [reflexivity|..];
    rewrite IHu; reflexivity.
Qed.

Lemma before_slash_string_of_uint (u : Decimal.uint) :
  Str.before "/" (NilEmpty.string_of_uint u) = NilEmpty.string_of_uint u.
Proof.
  induction u; cbn [NilEmpty.string_of_uint Str.before]; [reflexivity|..];
    match goal with
    | |- context [Ascii.eqb ?c "/"] => change (Ascii.eqb c "/") with false
    end; cbv iota; rewrite IHu; reflexivity.
Qed.

(** [int(str(n)) == n] *)
Lemma to_int_of_int (n : Z) : Str.to_int (Str.of_int n) = Ok n.
Proof.
  unfold Str.of_int. destruct n as [|p|p]; cbn [Z.to_int NilEmpty.string_of_int].
  - reflexivity.
  - pose proof (DecimalPos.Unsigned.to_uint_nonnil p) as Hn.
    pose proof (DecimalPos.Unsigned.of_to p) as Hp.
    pose proof (digits_string_of_uint_first _ Hn) as Hd.
    unfold Str.to_int.
    destruct (Pos.to_uint p) eqn:E; [congruence|..];
      cbn [NilEmpty.string_of_uint] in *; rewrite Hd; cbn [option_map];
      unfold Z.of_uint; rewrite Hp; reflexivity.
  - pose proof (DecimalPos.Unsigned.to_uint_nonnil p) as Hn.
    pose proof (DecimalPos.Unsigned.of_to p) as Hp.
    unfold Str.to_int. rewrite (digits_string_of_uint_first _ Hn).
    cbn [option_map]. unfold Z.of_uint. rewrite Hp. reflexivity.
Qed.

Lemma token_of_int (n : Z) : Str.token (Str.of_int n) = true.
Proof.
  unfold Str.of_int. destruct n as [|p|p]; cbn [Z.to_int NilEmpty.string_of_int].
  - reflexivity.
  - pose proof (DecimalPos.Unsigned.to_uint_nonnil p) as Hn.
    pose proof (no_space_string_of_uint (Pos.to_uint p)) as Hs.
    destruct (Pos.to_uint p); [congruence|..]; exact Hs.
  - cbn [Str.token Str.no_space]. rewrite no_space_string_of_uint. reflexivity.
Qed.

Lemma before_slash_of_int (n : Z) : Str.before "/" (Str.of_int n) = Str.of_int n.
Proof.
  unfold Str.of_int. destruct n as [|p|p]; cbn [Z.to_int NilEmpty.string_of_int].
  - reflexivity.
  - apply before_slash_string_of_uint.
  - cbn [Str.before]. change (Ascii.eqb "-" "/") with false. cbv iota.
    rewrite before_slash_string_of_uint. reflexivity.
Qed.

(** ** The round trip through OBJ *)

Lemma read_lines_one (s : string) :
  Str.no_line_break s = true -> Str.read_lines s = [s].
Proof.
  induction s as [|c r IH]; [reflexivity|].
  cbn [Str.no_line_break Str.read_lines]. unfold Str.is_line_break. cbv zeta.
  intros H. apply andb_prop in H. destruct H as [Hc Hr].
  apply negb_true_iff, orb_false_elim in Hc. destruct Hc as [Hn Hcr].
  rewrite Hn, Hcr, (IH Hr). reflexivity.
Qed.

(** With no line break in the name, the header is eight lines. *)
Lemma header_one_line (name : string) (nv nf : Z) :
  Str.no_line_break name = true ->
  header name nv nf =
  [ "# Exported from qgis2threejs JSON by blender_mesh_converter.py";
    "# Original file: " ++ name;
    "# Vertices: " ++ Str.of_int nv ++ ", Faces: " ++ Str.of_int nf;
    "#";
    "# IMPORTANT: Only edit Z values (elevation) in Blender!";
    "# Do not move, rotate, or scale the mesh.";
    "#";
    "" ]%string.
Proof.
  intros Hname. unfold header.
  rewrite read_lines_one; [reflexivity|].
  cbn [append Str.no_line_break]. rewrite Hname. reflexivity.
Qed.

Section RoundTrip.

Variable float_repr : float -> string.
Variable float_of_string : string -> option float.

Local Abbreviation survives := (survives_text float_repr float_of_string).

Lemma parse_lines_app (l1 l2 : list string) (acc : list float * list Z) :
  parse_lines float_of_string (l1 ++ l2) acc =
    (acc' <- parse_lines float_of_string l1 acc ;; parse_lines float_of_string l2 acc').
Proof.
  revert acc. induction l1 as [|l l1 IH]; intros acc; [reflexivity|].
  cbn [app parse_lines].
  destruct (parse_line float_of_string l acc) as [acc'|e]; cbn [bind]; [apply IH|reflexivity].
Qed.

Lemma parse_comment_line (r : string) (acc : list float * list Z) :
  parse_line float_of_string (String "#" r) acc = Ok acc.
Proof.
  unfold parse_line. destruct acc as [vs fs].
  destruct (strip_comment r) as [r' ->]. reflexivity.
Qed.

Lemma parse_header (name : string) (nv nf : Z) (acc : list float * list Z) :
  Str.no_line_break name = true ->
  parse_lines float_of_string (header name nv nf) acc = Ok acc.
Proof.
  intros Hname. rewrite (header_one_line name nv nf Hname).
  cbn [parse_lines append].
  repeat (rewrite parse_comment_line; cbn [bind]).
  destruct acc as [vs fs]. reflexivity.
Qed.

Lemma parse_vertex_line (x y z : float) (vs : list float) (fs : list Z) :
  survives x -> survives y -> survives z ->
  parse_line float_of_string (vertex_line float_repr x y z) (vs, fs) =
    Ok (vs ++ [x; y; z], fs).
Proof.
  intros [Tx Px] [Ty Py] [Tz Pz]. unfold parse_line, vertex_line. cbn [append].
  rewrite strip_keyword_line by (reflexivity || assumption).
  rewrite startswith_keyword.
  rewrite split_keyword_line by (reflexivity || assumption).
  cbn [length Nat.leb nth]. unfold to_float. rewrite Px, Py, Pz. reflexivity.
Qed.

Lemma parse_face_line (a b c : Z) (vs : list float) (fs : list Z) :
  parse_line float_of_string (face_line (a + 1) (b + 1) (c + 1)) (vs, fs) =
    Ok (vs, fs ++ [a; b; c]).
Proof.
  unfold parse_line, face_line. cbn [append].
  rewrite strip_keyword_line by (reflexivity || apply token_of_int).
  rewrite startswith_other by discriminate.
  rewrite startswith_keyword.
  rewrite split_keyword_line by (reflexivity || apply token_of_int).
  cbn [length Nat.leb nth]. rewrite !before_slash_of_int, !to_int_of_int.
  cbn [bind]. rewrite !Z.add_simpl_r. reflexivity.
Qed.

Lemma vertex_lines_parse (vs : list float) :
  whole_triples vs -> Forall survives vs ->
  exists ls, vertex_lines float_repr vs = Ok ls /\
    forall vs0 fs0, parse_lines float_of_string ls (vs0, fs0) = Ok (vs0 ++ vs, fs0).
Proof.
  intros Hw. pattern vs. apply whole_triples_ind; [|intros x y z l Hl IH|exact Hw].
  - intros _. exists []. split; [reflexivity|].
    intros vs0 fs0. cbn [parse_lines]. rewrite app_nil_r. reflexivity.
  - intros Hall.
    inversion Hall as [|? ? Hx Hall1]; subst.
    inversion Hall1 as [|? ? Hy Hall2]; subst.
    inversion Hall2 as [|? ? Hz Hall3]; subst.
    destruct (IH Hall3) as (ls & Hls & Hparse).
    exists (vertex_line float_repr x y z :: ls). split.
    + cbn [vertex_lines]. rewrite Hls. reflexivity.
    + intros vs0 fs0. cbn [parse_lines].
      rewrite (parse_vertex_line x y z vs0 fs0 Hx Hy Hz). cbn [bind].
      rewrite Hparse, <- app_assoc. reflexivity.
Qed.

Lemma face_lines_parse (fs : list Z) :
  whole_triples fs ->
  exists ls, face_lines fs = Ok ls /\
    forall vs0 fs0, parse_lines float_of_string ls (vs0, fs0) = Ok (vs0, fs0 ++ fs).
Proof.
  intros Hw. pattern fs. apply whole_triples_ind; [|intros a b c l Hl IH|exact Hw].
  - exists []. split; [reflexivity|].
    intros vs0 fs0. cbn [parse_lines]. rewrite app_nil_r. reflexivity.
  - destruct IH as (ls & Hls & Hparse).
    exists (face_line (a + 1) (b + 1) (c + 1) :: ls). split.
    + cbn [face_lines]. rewrite Hls. reflexivity.
    + intros vs0 fs0. cbn [parse_lines].
      rewrite parse_face_line. cbn [bind].
      rewrite Hparse, <- app_assoc. reflexivity.
Qed.

Lemma bounds_xyz_loop_whole (vs : list float) :
  whole_triples vs ->
  forall acc, exists acc', bounds_xyz_loop vs acc = Ok acc'.
Proof.
  intros Hw. pattern vs. apply whole_triples_ind; [|intros x y z l Hl IH|exact Hw].
  - intros acc. exists acc. reflexivity.
  - intros [b [lo hi]]. cbn [bounds_xyz_loop]. apply IH.
Qed.

(** Against itself, a vertex list shows no difference. *)
Lemma drift_loop_diag (vs : list float) :
  whole_triples vs -> drift_loop vs vs (0, 0)%float = Ok (0, 0)%float.
Proof.
  intros Hw. pattern vs. apply whole_triples_ind; [|intros x y z l Hl IH|exact Hw].
  - reflexivity.
  - cbn [drift_loop].
    rewrite !max2_abs_sub_diag. exact IH.
Qed.

Lemma check_positions_diag (vs : list float) (stdin : list string) :
  whole_triples vs -> check_positions vs vs stdin = Ok stdin.
Proof.
  intros Hw. unfold check_positions. rewrite (drift_loop_diag _ Hw). reflexivity.
Qed.

(** The lines [json_to_obj] writes parse back to the lists they were
    written from. *)
Lemma json_to_obj_parse (m : mesh) (name : string) :
  Str.no_line_break name = true ->
  vertices m <> [] ->
  whole_triples (vertices m) -> whole_triples (faces m) ->
  Forall survives (vertices m) ->
  exists lines,
    json_to_obj float_repr (to_document m) name = Ok lines /\
    parse_obj float_of_string lines = Ok (vertices m, faces m).
Proof.
  destruct m as [vs fs]. cbn [vertices faces]. intros Hname Hne Hv Hf Hs.
  destruct (vertex_lines_parse vs Hv Hs) as (vl & Hvl & Hpv).
  destruct (face_lines_parse fs Hf) as (fl & Hfl & Hpf).
  destruct (bounds_xyz_loop_whole vs Hv (initial_bounds, (infinity, neg_infinity)))
    as (acc & Hb).
  exists (header name (len vs / 3) (len fs / 3) ++ vl ++ [""%string] ++ fl).
  split.
  - unfold json_to_obj, to_document.
    cbn [doc_triangles tri_v tri_f get_or_empty vertices faces].
    destruct vs as [|x vs']; [congruence|].
    rewrite Hb, Hvl, Hfl. reflexivity.
  - unfold parse_obj. rewrite parse_lines_app, (parse_header _ _ _ _ Hname).
    cbn [bind].
    rewrite parse_lines_app, Hpv. cbn [bind parse_lines app].
    change (parse_line float_of_string "" (vs, [])) with (Ok (vs, @nil Z)).
    cbn [bind]. rewrite Hpf. reflexivity.
Qed.

Lemma sub_diag_finite (x : float) : is_finite x = true -> (x - x = 0)%float.
Proof.
  intros Hfin. destruct (sub_diag_cases x) as [H|H]; [exact H|].
  exfalso. revert Hfin.
  assert (Hs : Prim2SF (x - x) = S754_nan) by (rewrite H; reflexivity).
  rewrite sub_spec in Hs. unfold SF64sub in Hs.
  unfold is_finite, is_nan, is_infinity.
  rewrite !eqb_spec, abs_spec.
  destruct (Prim2SF x) as [s|s| |s mx ex].
  - destruct s; discriminate.
  - destruct s; vm_compute; discriminate.
  - vm_compute. discriminate.
  - cbn in Hs. rewrite Z.min_id, Z.sub_diag in Hs. discriminate.
Qed.

(** C5.  A mesh with at least one vertex, whole triples of coordinates and
    of face indices, and coordinates that survive the text, exported by
    [json_to_obj] from a file whose name holds no line break and read back
    by [obj_to_json] against itself: the mesh written has the same vertex
    count, the same face list and the same coordinates, each within [1e-6]
    of the original wherever that difference is defined. *)
Theorem obj_round_trip (m : mesh) (name : string) (stdin : list string) :
  Str.no_line_break name = true ->
  vertices m <> [] ->
  whole_triples (vertices m) -> whole_triples (faces m) ->
  Forall survives (vertices m) ->
  exists lines out,
    json_to_obj float_repr (to_document m) name = Ok lines /\
    obj_to_json float_of_string lines (to_document m) stdin = Ok out /\
    (len (vertices out) / 3 = len (vertices m) / 3)%Z /\
    faces out = faces m /\
    Forall2 (fun x' x => x' = x /\
                         (is_finite x = true -> (abs (x' - x) <=? 1e-6)%float = true))
            (vertices out) (vertices m).
Proof.
  intros Hname Hne Hv Hf Hs.
  destruct (json_to_obj_parse m name Hname Hne Hv Hf Hs) as (lines & Hl & Hp).
  exists lines, m. split; [exact Hl|]. split.
  - rewrite (obj_to_json_parsed _ _ _ _ _ _ Hp). unfold resolve_faces.
    rewrite Z.eqb_refl. cbn [negb bind].
    rewrite (check_positions_diag _ _ Hv). destruct m. reflexivity.
  - split; [reflexivity|]. split; [reflexivity|].
    clear. induction (vertices m) as [|x l IH]; constructor; [|exact IH].
    split; [reflexivity|]. intros Hfin. rewrite (sub_diag_finite _ Hfin). reflexivity.
Qed.

End RoundTrip.

(** A line break in the name of the file is written into the header as it
    is: what follows it is read back as a line of its own, here as a fifth
    vertex ahead of the four of the unit square, and the positions no longer
    match the reference. *)
Remark line_break_in_name :
  (exists lines,
     json_to_obj sample_float_repr (to_document unit_square) two_line_name = Ok lines /\
     length lines = 16%nat /\
     parse_obj sample_float_of_string lines =
       Ok ([1; 1; 1]%float ++ vertices unit_square, faces unit_square) /\
     obj_to_json sample_float_of_string lines (to_document unit_square) [] =
       Raise EOFError) /\
  Str.no_line_break two_line_name = false.
Proof.
  split; [|reflexivity].
  eexists. split; [reflexivity|].
  split; [reflexivity|]. split; reflexivity.
Qed.

Lemma obj_round_trip_witness :
  exists lines out,
    json_to_obj sample_float_repr (to_document unit_square) "a0.json" = Ok lines /\
    obj_to_json sample_float_of_string lines (to_document unit_square) [] = Ok out /\
    (len (vertices out) / 3 = len (vertices unit_square) / 3)%Z /\
    faces out = faces unit_square /\
    Forall2 (fun x' x => x' = x /\
                         (is_finite x = true -> (abs (x' - x) <=? 1e-6)%float = true))
            (vertices out) (vertices unit_square).
Proof.
  apply (obj_round_trip sample_float_repr sample_float_of_string
           unit_square "a0.json" []).
  - reflexivity.
  - discriminate.
  - reflexivity.
  - reflexivity.
  - repeat constructor.
Defined.

(** ** The order of binary64 values *)

Lemma SFcompare_rank (x y : spec_float) :
  SFcompare x y =
    match rank x, rank y with
    | Some p, Some q => Some (lex_compare p q)
    | _, _ => None
    end.
Proof.
  destruct x as [sx|sx| |sx mx ex], y as [sy|sy| |sy my ey]; cbn;
    try reflexivity;
    try (destruct sx; reflexivity); try (destruct sy; reflexivity);
    try (destruct sx, sy; reflexivity).
  destruct sx, sy; cbn; try reflexivity.
  rewrite Z.compare_opp, (Z.compare_antisym ex ey).
  destruct (ex ?= ey)%Z; reflexivity.
Qed.

Lemma lex_compare_le (p q : Z * Z * Z) : lex_compare p q <> Gt <-> lex_le p q.
Proof.
  destruct p as [[a1 b1] c1], q as [[a2 b2] c2]. unfold lex_compare, lex_le.
  destruct (Z.compare_spec a1 a2), (Z.compare_spec b1 b2), (Z.compare_spec c1 c2);
    split; intros Hc; try congruence; try lia.
Qed.

Lemma lex_compare_lt (p q : Z * Z * Z) : lex_compare p q = Lt -> lex_le p q.
Proof.
  intros H. apply lex_compare_le. congruence.
Qed.

Lemma lex_le_refl (p : Z * Z * Z) : lex_le p p.
Proof.
  destruct p as [[a b] c]. unfold lex_le. lia.
Qed.

Lemma lex_le_trans (p q r : Z * Z * Z) : lex_le p q -> lex_le q r -> lex_le p r.
Proof.
  destruct p as [[a1 b1] c1], q as [[a2 b2] c2], r as [[a3 b3] c3].
  unfold lex_le. lia.
Qed.

Lemma lex_le_total (p q : Z * Z * Z) : lex_compare q p <> Lt -> lex_le p q.
Proof.
  destruct p as [[a1 b1] c1], q as [[a2 b2] c2]. unfold lex_compare, lex_le.
  destruct (Z.compare_spec a2 a1), (Z.compare_spec b2 b1), (Z.compare_spec c2 c1);
    intros Hc; try congruence; try lia.
Qed.

Lemma leb_float_le (x y : float) : (x <=? y)%float = true <-> float_le x y.
Proof.
  rewrite leb_spec. unfold SFleb, float_le. rewrite SFcompare_rank.
  destruct (rank (Prim2SF x)) as [p|], (rank (Prim2SF y)) as [q|].
  - split.
    + intros H. exists p, q. split; [reflexivity|]. split; [reflexivity|].
      apply lex_compare_le. destruct (lex_compare p q); congruence.
    + intros (p' & q' & Hp & Hq & Hle). injection Hp as <-. injection Hq as <-.
      apply lex_compare_le in Hle. destruct (lex_compare p q); congruence.
  - split; [discriminate|]. intros (p' & q' & _ & Hq & _). discriminate.
  - split; [discriminate|]. intros (p' & q' & Hp & _ & _). discriminate.
  - split; [discriminate|]. intros (p' & q' & Hp & _ & _). discriminate.
Qed.

Lemma float_le_refl (x : float) : not_nan x -> float_le x x.
Proof.
  intros [p Hp]. exists p, p. split; [exact Hp|]. split; [exact Hp|apply lex_le_refl].
Qed.

Lemma float_le_trans (x y z : float) : float_le x y -> float_le y z -> float_le x z.
Proof.
  intros (p & q & Hp & Hq & H1) (q' & r & Hq' & Hr & H2).
  rewrite Hq in Hq'. injection Hq' as <-.
  exists p, r. split; [exact Hp|]. split; [exact Hr|]. eapply lex_le_trans; eauto.
Qed.

Lemma ltb_float_le (x y : float) : (x <? y)%float = true -> float_le x y.
Proof.
  rewrite ltb_spec. unfold SFltb, float_le. rewrite SFcompare_rank.
  destruct (rank (Prim2SF x)) as [p|], (rank (Prim2SF y)) as [q|]; try discriminate.
  intros H. exists p, q. split; [reflexivity|]. split; [reflexivity|].
  apply lex_compare_lt. destruct (lex_compare p q); congruence.
Qed.

Lemma not_ltb_float_le (x y : float) :
  not_nan x -> not_nan y -> (y <? x)%float = false -> float_le x y.
Proof.
  intros [p Hp] [q Hq]. rewrite ltb_spec. unfold SFltb. rewrite SFcompare_rank, Hp, Hq.
  intros H. exists p, q. split; [exact Hp|]. split; [exact Hq|].
  apply lex_le_total. destruct (lex_compare q p); congruence.
Qed.

Lemma float_le_not_nan (x y : float) : float_le x y -> not_nan x /\ not_nan y.
Proof.
  intros (p & q & Hp & Hq & _). split; eexists; eassumption.
Qed.

Lemma finite_rank (x : float) :
  is_finite x = true ->
  (exists s, Prim2SF x = S754_zero s) \/ (exists s m e, Prim2SF x = S754_finite s m e).
Proof.
  unfold is_finite, is_nan, is_infinity. rewrite !eqb_spec, abs_spec.
  destruct (Prim2SF x) as [s|s| |s m e].
  - intros _. left. eexists. reflexivity.
  - destruct s; vm_compute; discriminate.
  - vm_compute. discriminate.
  - intros _. right. do 3 eexists. reflexivity.
Qed.

Lemma finite_not_nan (x : float) : is_finite x = true -> not_nan x.
Proof.
  intros H. unfold not_nan.
  destruct (finite_rank x H) as [[s E]|(s & m & e & E)]; rewrite E.
  - eexists. reflexivity.
  - destruct s; eexists; reflexivity.
Qed.

(** ** Bounds as least and greatest coordinates *)

Lemma min2_cases (a b : float) : min2 a b = a \/ min2 a b = b.
Proof. unfold min2. destruct (b <? a)%float; auto. Qed.

Lemma max2_cases (a b : float) : max2 a b = a \/ max2 a b = b.
Proof. unfold max2. destruct (a <? b)%float; auto. Qed.

Lemma min2_le (a b : float) :
  not_nan a -> not_nan b -> float_le (min2 a b) a /\ float_le (min2 a b) b.
Proof.
  intros Ha Hb. unfold min2. destruct (b <? a)%float eqn:E.
  - split; [apply ltb_float_le, E|apply float_le_refl, Hb].
  - split; [apply float_le_refl, Ha|apply not_ltb_float_le; assumption].
Qed.

Lemma max2_ge (a b : float) :
  not_nan a -> not_nan b -> float_le a (max2 a b) /\ float_le b (max2 a b).
Proof.
  intros Ha Hb. unfold max2. destruct (a <? b)%float eqn:E.
  - split; [apply ltb_float_le, E|apply float_le_refl, Hb].
  - split; [apply float_le_refl, Ha|apply not_ltb_float_le; assumption].
Qed.

Lemma fold_min2_le (xs : list float) :
  Forall not_nan xs ->
  forall m, not_nan m ->
    float_le (fold_left min2 xs m) m /\ Forall (float_le (fold_left min2 xs m)) xs.
Proof.
  induction 1 as [|x xs Hx Hxs IH]; intros m Hm; cbn [fold_left].
  - split; [apply float_le_refl, Hm|constructor].
  - destruct (min2_le m x Hm Hx) as [H1 H2].
    destruct (IH (min2 m x) (proj1 (float_le_not_nan _ _ H1))) as [H3 H4].
    split; [eapply float_le_trans; eassumption|].
    constructor; [eapply float_le_trans; eassumption|exact H4].
Qed.

Lemma fold_max2_ge (xs : list float) :
  Forall not_nan xs ->
  forall m, not_nan m ->
    float_le m (fold_left max2 xs m) /\
    Forall (fun x => float_le x (fold_left max2 xs m)) xs.
Proof.
  induction 1 as [|x xs Hx Hxs IH]; intros m Hm; cbn [fold_left].
  - split; [apply float_le_refl, Hm|constructor].
  - destruct (max2_ge m x Hm Hx) as [H1 H2].
    destruct (IH (max2 m x) (proj2 (float_le_not_nan _ _ H1))) as [H3 H4].
    split; [eapply float_le_trans; eassumption|].
    constructor; [eapply float_le_trans; eassumption|exact H4].
Qed.

Lemma bounds_fold (ts : list (float * float * float)) (b0 : bounds) :
  let b := fold_left (fun b t => let '(x, y, _) := t in extend_bounds b x y) ts b0 in
  min_x b = fold_left min2 (map (fun t => fst (fst t)) ts) (min_x b0) /\
  max_x b = fold_left max2 (map (fun t => fst (fst t)) ts) (max_x b0) /\
  min_y b = fold_left min2 (map (fun t => snd (fst t)) ts) (min_y b0) /\
  max_y b = fold_left max2 (map (fun t => snd (fst t)) ts) (max_y b0).
Proof.
  revert b0. induction ts as [|[[x y] z] ts IH]; intros b0.
  - cbn. auto.
  - cbn [fold_left map fst snd]. apply (IH (extend_bounds b0 x y)).
Qed.

Lemma not_nan_infinity : not_nan infinity /\ not_nan neg_infinity.
Proof.
  split; eexists; vm_compute; reflexivity.
Qed.

(** The bounds lie below and above the coordinates of every vertex. *)
Lemma bounds_of_enclose (ts : list (float * float * float)) :
  Forall (fun t => not_nan (fst (fst t)) /\ not_nan (snd (fst t))) ts ->
  let b := bounds_of ts in
  (not_nan (min_x b) /\ not_nan (max_x b) /\ not_nan (min_y b) /\ not_nan (max_y b)) /\
  Forall (fun t => float_le (min_x b) (fst (fst t)) /\ float_le (fst (fst t)) (max_x b) /\
                   float_le (min_y b) (snd (fst t)) /\ float_le (snd (fst t)) (max_y b)) ts.
Proof.
  intros Hall b. unfold b, bounds_of.
  destruct (bounds_fold ts initial_bounds) as (E1 & E2 & E3 & E4).
  cbv zeta in E1, E2, E3, E4. rewrite E1, E2, E3, E4. cbn [initial_bounds min_x max_x min_y max_y].
  destruct not_nan_infinity as [Hi Hn].
  assert (Hxs : Forall not_nan (map (fun t : float * float * float => fst (fst t)) ts)).
  { apply Forall_map. eapply Forall_impl; [|exact Hall]. intros t [H _]. exact H. }
  assert (Hys : Forall not_nan (map (fun t : float * float * float => snd (fst t)) ts)).
  { apply Forall_map. eapply Forall_impl; [|exact Hall]. intros t [_ H]. exact H. }
  destruct (fold_min2_le _ Hxs infinity Hi) as [A1 A2].
  destruct (fold_max2_ge _ Hxs neg_infinity Hn) as [B1 B2].
  destruct (fold_min2_le _ Hys infinity Hi) as [C1 C2].
  destruct (fold_max2_ge _ Hys neg_infinity Hn) as [D1 D2].
  split.
  - repeat split.
    + exact (proj1 (float_le_not_nan _ _ A1)).
    + exact (proj2 (float_le_not_nan _ _ B1)).
    + exact (proj1 (float_le_not_nan _ _ C1)).
    + exact (proj2 (float_le_not_nan _ _ D1)).
  - rewrite Forall_map in A2, B2, C2, D2.
    rewrite Forall_forall in *. intros t Ht.
    repeat split; [apply A2|apply B2|apply C2|apply D2]; exact Ht.
Qed.

(** ** Trimming by nothing *)

Lemma mul_zero_finite (d : float) :
  is_finite d = true -> exists s, Prim2SF (d * 0) = S754_zero s.
Proof.
  intros H. rewrite mul_spec. unfold SF64mul.
  change (Prim2SF 0) with (S754_zero false).
  destruct (finite_rank d H) as [[s E]|(s & m & e & E)]; rewrite E; cbn;
    eexists; reflexivity.
Qed.

Lemma add_zero_rank (a t : float) (s : bool) :
  Prim2SF t = S754_zero s -> not_nan a ->
  rank (Prim2SF (a + t)) = rank (Prim2SF a).
Proof.
  intros Ht [p Hp]. rewrite add_spec, Ht. unfold SF64add.
  destruct (Prim2SF a) as [sa|sa| |sa m e]; cbn in Hp |- *; try discriminate.
  - destruct sa, s; reflexivity.
  - reflexivity.
  - reflexivity.
Qed.

Lemma sub_zero_rank (a t : float) (s : bool) :
  Prim2SF t = S754_zero s -> not_nan a ->
  rank (Prim2SF (a - t)) = rank (Prim2SF a).
Proof.
  intros Ht [p Hp]. rewrite sub_spec, Ht. unfold SF64sub.
  destruct (Prim2SF a) as [sa|sa| |sa m e]; cbn in Hp |- *; try discriminate.
  - destruct sa, s; reflexivity.
  - reflexivity.
  - reflexivity.
Qed.

Lemma float_le_rank_l (a a' c : float) :
  rank (Prim2SF a') = rank (Prim2SF a) -> float_le a c -> float_le a' c.
Proof.
  intros E (p & q & Hp & Hq & H). exists p, q. rewrite E. auto.
Qed.

Lemma float_le_rank_r (a a' c : float) :
  rank (Prim2SF a') = rank (Prim2SF a) -> float_le c a -> float_le c a'.
Proof.
  intros E (p & q & Hp & Hq & H). exists p, q. rewrite E. auto.
Qed.

(** With a trim fraction of zero and extents that do not overflow, every
    vertex is inside the trimmed box. *)
Lemma inside_trim_zero (ts : list (float * float * float)) :
  Forall (fun t => not_nan (fst (fst t)) /\ not_nan (snd (fst t))) ts ->
  let b := bounds_of ts in
  is_finite (max_x b - min_x b) = true ->
  is_finite (max_y b - min_y b) = true ->
  Forall (fun t => inside (trim_bounds b 0) (fst (fst t)) (snd (fst t)) = true) ts.
Proof.
  intros Hall b Hfx Hfy.
  destruct (bounds_of_enclose ts Hall) as [(N1 & N2 & N3 & N4) Henc]. fold b in N1, N2, N3, N4, Henc.
  destruct (mul_zero_finite _ Hfx) as [sx Zx].
  destruct (mul_zero_finite _ Hfy) as [sy Zy].
  eapply Forall_impl; [|exact Henc].
  intros [[x y] z]. cbn [fst snd]. intros (H1 & H2 & H3 & H4).
  unfold inside, trim_bounds. cbn [min_x max_x min_y max_y].
  rewrite !andb_true_iff. repeat split; apply leb_float_le.
  - eapply float_le_rank_l; [eapply add_zero_rank; eassumption|exact H1].
  - eapply float_le_rank_r; [eapply sub_zero_rank; eassumption|exact H2].
  - eapply float_le_rank_l; [eapply add_zero_rank; eassumption|exact H3].
  - eapply float_le_rank_r; [eapply sub_zero_rank; eassumption|exact H4].
Qed.

Lemma flatten_face_triples (fs : list Z) :
  whole_triples fs -> flatten_faces (face_triples fs) = fs.
Proof.
  intros Hw. pattern fs. apply whole_triples_ind; [|intros a b c l Hl IH|exact Hw].
  - reflexivity.
  - cbn [face_triples flatten_faces]. rewrite IH. reflexivity.
Qed.

Lemma Forall_face_triples (P : Z -> Prop) (fs : list Z) :
  Forall P fs ->
  Forall (fun t => let '(a, b, c) := t in P a /\ P b /\ P c) (face_triples fs).
Proof.
  induction fs as [|a|a b|a b c l IH] using list_ind3; intros H; cbn [face_triples];
    try constructor.
  - inversion H as [|? ? Ha H1]; subst. inversion H1 as [|? ? Hb H2]; subst.
    inversion H2 as [|? ? Hc H3]; subst. auto.
  - apply IH. inversion H as [|? ? Ha H1]; subst. inversion H1 as [|? ? Hb H2]; subst.
    inversion H2 as [|? ? Hc H3]; subst. exact H3.
Qed.

Lemma Forall_vertex_triples (P : float -> Prop) (vs : list float) :
  Forall P vs ->
  Forall (fun t => P (fst (fst t)) /\ P (snd (fst t))) (vertex_triples vs).
Proof.
  induction vs as [|a|a b|a b c l IH] using list_ind3; intros H; cbn [vertex_triples];
    try constructor.
  - inversion H as [|? ? Ha H1]; subst. inversion H1 as [|? ? Hb H2]; subst. auto.
  - apply IH. inversion H as [|? ? Ha H1]; subst. inversion H1 as [|? ? Hb H2]; subst.
    inversion H2 as [|? ? Hc H3]; subst. exact H3.
Qed.

(** The faces kept are all the faces when every vertex is in the box. *)
Lemma kept_faces_all (nb : bounds) (ts : list (float * float * float)) (fs : list Z) :
  whole_triples fs ->
  Forall (index_ok (length ts)) fs ->
  Forall (fun t => inside nb (fst (fst t)) (snd (fst t)) = true) ts ->
  kept_faces nb ts fs = fs.
Proof.
  intros Hw Hidx Hin. unfold kept_faces.
  assert (Hv : forall i, index_ok (length ts) i -> vertex_in_box nb ts i = true).
  { intros i [Hlo Hhi]. unfold vertex_in_box.
    destruct (nth_error ts (Z.to_nat i)) as [[[x y] z]|] eqn:E.
    - rewrite Forall_forall in Hin. apply (Hin _ (nth_error_In _ _ E)).
    - apply nth_error_None in E. lia. }
  rewrite <- (flatten_face_triples fs Hw) at 2. f_equal.
  apply Forall_face_triples in Hidx.
  induction Hidx as [|[[a b] c] l (Ha & Hb & Hc) Hl IH]; [reflexivity|].
  cbn [filter face_in_box]. rewrite (Hv a Ha), (Hv b Hb), (Hv c Hc). cbn [andb].
  rewrite IH. reflexivity.
Qed.

(** X5.  [trim_edges] with a trim fraction of zero is the identity on a valid
    mesh with at least one face, finite coordinates and extents that do not
    overflow. *)
Lemma trim_edges_zero_valid (m : mesh) :
  valid_mesh m -> faces m <> [] ->
  Forall (fun x => is_finite x = true) (vertices m) ->
  let b := bounds_of (vertex_triples (vertices m)) in
  is_finite (max_x b - min_x b) = true ->
  is_finite (max_y b - min_y b) = true ->
  trim_edges (to_document m) 0 = Ok m.
Proof.
  intros Hvalid Hne Hfin b Hx Hy.
  rewrite (trim_edges_valid m 0 Hvalid Hne). fold b.
  destruct Hvalid as (Hv & Hf & Hidx).
  rewrite kept_faces_all.
  - destruct m. reflexivity.
  - exact Hf.
  - rewrite length_vertex_triples. exact Hidx.
  - apply inside_trim_zero; [|exact Hx|exact Hy].
    apply Forall_vertex_triples with (P := not_nan).
    eapply Forall_impl; [|exact Hfin]. intros x. apply finite_not_nan.
Qed.

Lemma valid_unit_square : valid_mesh unit_square.
Proof.
  split; [reflexivity|]. split; [reflexivity|].
  repeat constructor; cbn; lia.
Qed.

Example trim_edges_zero_unit_square :
  trim_edges (to_document unit_square) 0 = Ok unit_square.
Proof.
  apply trim_edges_zero_valid.
  - exact valid_unit_square.
  - discriminate.
  - repeat constructor.
  - reflexivity.
  - reflexivity.
Defined.

(** Where the extent overflows, the trimmed box is made of NaNs and a trim
    fraction of zero removes every face. *)
Remark trim_edges_zero_overflow :
  (max_x (bounds_of (vertex_triples (vertices wide_triangle)))
   - min_x (bounds_of (vertex_triples (vertices wide_triangle))) = infinity)%float /\
  trim_edges (to_document wide_triangle) 0 =
    Ok {| vertices := vertices wide_triangle; faces := [] |}.
Proof.
  split; reflexivity.
Qed.

(** * Further properties of the converter *)

(** ** [trim_edges]: what it hands back *)

Lemma face_triples_flatten (ts : list (Z * Z * Z)) :
  face_triples (flatten_faces ts) = ts.
Proof.
  induction ts as [|[[a b] c] ts IH]; [reflexivity|].
  cbn [flatten_faces face_triples]. rewrite IH. reflexivity.
Qed.

Lemma whole_flatten_faces (ts : list (Z * Z * Z)) : whole_triples (flatten_faces ts).
Proof.
  induction ts as [|[[a b] c] ts IH]; [reflexivity|].
  cbn [flatten_faces]. apply whole_triples_cons3, IH.
Qed.

Lemma length_flatten_faces (ts : list (Z * Z * Z)) :
  length (flatten_faces ts) = (3 * length ts)%nat.
Proof.
  induction ts as [|[[a b] c] ts IH]; [reflexivity|].
  cbn [flatten_faces length]. rewrite IH. lia.
Qed.

Lemma Forall_flatten_faces (P : Z -> Prop) (ts : list (Z * Z * Z)) :
  Forall (fun t => let '(a, b, c) := t in P a /\ P b /\ P c) ts ->
  Forall P (flatten_faces ts).
Proof.
  induction 1 as [|[[a b] c] ts (Ha & Hb & Hc) _ IH]; [constructor|].
  cbn [flatten_faces]. repeat constructor; assumption.
Qed.

Lemma Forall_filter {A : Type} (P : A -> Prop) (f : A -> bool) (l : list A) :
  Forall P l -> Forall P (filter f l).
Proof.
  induction 1 as [|x l Hx _ IH]; [constructor|].
  cbn [filter]. destruct (f x); [constructor; assumption|assumption].
Qed.

Lemma filter_idem {A : Type} (f : A -> bool) (l : list A) :
  filter f (filter f l) = filter f l.
Proof.
  induction l as [|x l IH]; [reflexivity|].
  cbn [filter]. destruct (f x) eqn:E; [cbn [filter]; rewrite E, IH|]; auto.
Qed.

Lemma kept_faces_valid (nb : bounds) (ts : list (float * float * float)) (fs : list Z) :
  Forall (index_ok (length ts)) fs ->
  whole_triples (kept_faces nb ts fs) /\
  Forall (index_ok (length ts)) (kept_faces nb ts fs) /\
  (length (kept_faces nb ts fs) <= length fs)%nat.
Proof.
  intros Hidx. unfold kept_faces. split; [apply whole_flatten_faces|]. split.
  - apply Forall_flatten_faces, Forall_filter, Forall_face_triples, Hidx.
  - rewrite length_flatten_faces.
    pose proof (filter_length_le (face_in_box nb ts) (face_triples fs)) as Hle.
    assert (Hft : (3 * length (face_triples fs) <= length fs)%nat).
    { clear. induction fs as [|a|a b|a b c l IH] using list_ind3; cbn [face_triples length]; lia. }
    lia.
Qed.

(** X1.  On a valid mesh with at least one face, [trim_edges] hands back a
    valid mesh: the vertex list is the input's, the faces are the input faces
    whose three vertices are in the trimmed box, in their order, so the face
    list never grows and every index still names a vertex. *)
Theorem trim_edges_output_valid (m : mesh) (trim_percent : float) :
  valid_mesh m -> faces m <> [] ->
  exists out,
    trim_edges (to_document m) trim_percent = Ok out /\
    vertices out = vertices m /\
    valid_mesh out /\
    (length (faces out) <= length (faces m))%nat /\
    face_triples (faces out) =
      filter (face_in_box
                (trim_bounds (bounds_of (vertex_triples (vertices m))) trim_percent)
                (vertex_triples (vertices m)))
             (face_triples (faces m)).
Proof.
  intros Hvalid Hne. eexists. split; [apply trim_edges_valid; assumption|].
  cbn [vertices faces]. destruct Hvalid as (Hv & Hf & Hidx).
  rewrite <- length_vertex_triples in Hidx.
  destruct (kept_faces_valid
              (trim_bounds (bounds_of (vertex_triples (vertices m))) trim_percent)
              _ _ Hidx) as (K1 & K2 & K3).
  split; [reflexivity|]. split.
  - split; [exact Hv|]. split; [exact K1|].
    cbn [vertices faces]. rewrite <- length_vertex_triples. exact K2.
  - split; [exact K3|]. unfold kept_faces. apply face_triples_flatten.
Qed.

Lemma valid_island : valid_mesh island.
Proof.
  split; [reflexivity|]. split; [reflexivity|].
  repeat constructor; cbn; lia.
Qed.

Lemma trim_edges_output_valid_witness :
  exists out,
    trim_edges (to_document island) 0.25 = Ok out /\
    vertices out = vertices island /\
    valid_mesh out /\
    (length (faces out) <= length (faces island))%nat /\
    face_triples (faces out) = [(2, 3, 4)%Z].
Proof.
  destruct (trim_edges_output_valid island 0.25 valid_island ltac:(discriminate))
    as (out & H1 & H2 & H3 & H4 & H5).
  exists out. repeat split; try assumption.
  - apply H3.
  - apply H3.
  - apply H3.
Defined.

(** [trim_edges] on a valid mesh, with or without faces. *)
Lemma trim_edges_valid_cases (m : mesh) (trim_percent : float) :
  valid_mesh m ->
  trim_edges (to_document m) trim_percent =
    match faces m with
    | [] => Raise ZeroDivisionError
    | _ :: _ =>
        Ok {| vertices := vertices m;
              faces := kept_faces
                         (trim_bounds (bounds_of (vertex_triples (vertices m))) trim_percent)
                         (vertex_triples (vertices m)) (faces m) |}
    end.
Proof.
  intros Hvalid. destruct (faces m) as [|a fs] eqn:E.
  - destruct Hvalid as (Hv & _ & _).
    unfold trim_edges, to_document. cbn [doc_triangles tri_v tri_f subscript bind].
    rewrite (find_bounds_whole _ Hv). cbn [bind].
    rewrite (mark_inside_whole _ _ Hv). cbn [bind].
    rewrite E. reflexivity.
  - rewrite <- E. apply trim_edges_valid; [exact Hvalid|]. rewrite E. discriminate.
Qed.

Lemma kept_faces_idem (nb : bounds) (ts : list (float * float * float)) (fs : list Z) :
  kept_faces nb ts (kept_faces nb ts fs) = kept_faces nb ts fs.
Proof.
  unfold kept_faces. rewrite face_triples_flatten, filter_idem. reflexivity.
Qed.

(** X2.  Trimming twice with the same fraction: the vertices, hence the
    box, are those of the first call, so a second call on the mesh written by
    the first writes that mesh again, unless the first call removed every
    face, in which case the second one raises [ZeroDivisionError]. *)
Theorem trim_edges_twice (m out : mesh) (trim_percent : float) :
  valid_mesh m ->
  trim_edges (to_document m) trim_percent = Ok out ->
  trim_edges (to_document out) trim_percent =
    match faces out with
    | [] => Raise ZeroDivisionError
    | _ :: _ => Ok out
    end.
Proof.
  intros Hvalid H. rewrite (trim_edges_valid_cases m _ Hvalid) in H.
  destruct (faces m) as [|a fs] eqn:E; [discriminate|]. injection H as <-.
  rewrite <- E.
  set (ts := vertex_triples (vertices m)).
  set (nb := trim_bounds (bounds_of ts) trim_percent).
  assert (Hout : valid_mesh {| vertices := vertices m; faces := kept_faces nb ts (faces m) |}).
  { destruct Hvalid as (Hv & Hf & Hidx).
    rewrite <- length_vertex_triples in Hidx. fold ts in Hidx.
    destruct (kept_faces_valid nb ts _ Hidx) as (K1 & K2 & _).
    split; [exact Hv|]. split; [exact K1|].
    cbn [vertices faces]. rewrite <- length_vertex_triples. exact K2. }
  rewrite (trim_edges_valid_cases _ _ Hout). cbn [vertices faces].
  fold ts. fold nb. rewrite kept_faces_idem. reflexivity.
Qed.

Lemma trim_edges_twice_witness :
  trim_edges (to_document island) 0.25 =
    Ok {| vertices := vertices island; faces := [2; 3; 4]%Z |} /\
  trim_edges (to_document {| vertices := vertices island; faces := [2; 3; 4]%Z |}) 0.25 =
    Ok {| vertices := vertices island; faces := [2; 3; 4]%Z |}.
Proof.
  split; [reflexivity|].
  exact (trim_edges_twice island _ 0.25 valid_island eq_refl).
Defined.

(** ** The exceptions each function can raise *)

Lemma bounds_loop_raises (vs : list float) :
  forall b err, bounds_loop vs b = Raise err -> err = IndexError.
Proof.
  induction vs as [|x|x y|x y z l IH] using list_ind3; intros b err H;
    cbn [bounds_loop] in H; try discriminate.
  - congruence.
  - eapply IH, H.
Qed.

Lemma mark_inside_raises (nb : bounds) (vs : list float) (err : exn) :
  mark_inside nb vs = Raise err -> err = IndexError.
Proof.
  induction vs as [|x|x y|x y z l IH] using list_ind3; intros H;
    cbn [mark_inside] in H; try discriminate.
  - congruence.
  - destruct (mark_inside nb l); [discriminate|]. cbn [bind] in H.
    injection H as <-. apply IH. reflexivity.
Qed.

Lemma getitem_raises {A : Type} (l : list A) (i : Z) (err : exn) :
  getitem l i = Raise err -> err = IndexError.
Proof.
  unfold getitem. cbv zeta.
  destruct (_ || _)%bool; [congruence|].
  destruct (nth_error l _); [discriminate|congruence].
Qed.

Lemma face_inside_raises (marks : list bool) (a b c : Z) (err : exn) :
  face_inside marks a b c = Raise err -> err = IndexError.
Proof.
  unfold face_inside.
  destruct (getitem marks a) as [[|]|e] eqn:Ea; cbn [bind].
  - destruct (getitem marks b) as [[|]|e] eqn:Eb; cbn [bind].
    + apply getitem_raises.
    + discriminate.
    + intros H. injection H as <-. eapply getitem_raises, Eb.
  - discriminate.
  - intros H. injection H as <-. eapply getitem_raises, Ea.
Qed.

Lemma filter_faces_raises (marks : list bool) (fs : list Z) (err : exn) :
  filter_faces marks fs = Raise err -> err = IndexError.
Proof.
  induction fs as [|a|a b|a b c l IH] using list_ind3; intros H;
    cbn [filter_faces] in H; try discriminate; try congruence.
  destruct (face_inside marks a b c) as [keep|e] eqn:Ef; cbn [bind] in H.
  - destruct (filter_faces marks l); [discriminate|]. cbn [bind] in H.
    injection H as <-. apply IH. reflexivity.
  - injection H as <-. eapply face_inside_raises, Ef.
Qed.

Lemma filter_faces_ok_nonempty (marks : list bool) (fs kept : list Z) :
  filter_faces marks fs = Ok kept -> fs <> [] -> (len fs / 3 =? 0)%Z = false.
Proof.
  intros H Hne. destruct fs as [|a [|b [|c l]]]; try congruence; try discriminate.
  apply Z.eqb_neq. unfold len. cbn [length].
  assert (1 <= Z.of_nat (S (S (S (length l)))) / 3)%Z
    by (apply Z.div_le_lower_bound; lia).
  lia.
Qed.

(** X3.  [trim_edges] raises nothing but [KeyError] (a key is missing),
    [IndexError] (an incomplete triple or a face index out of range) and
    [ZeroDivisionError], the last one only on an empty face list. *)
Theorem trim_edges_failures (data : document) (trim_percent : float) (err : exn) :
  trim_edges data trim_percent = Raise err ->
  err = KeyError \/ err = IndexError \/
  (err = ZeroDivisionError /\
   exists t, doc_triangles data = Some t /\ tri_f t = Some []).
Proof.
  unfold trim_edges. intros H.
  destruct (doc_triangles data) as [t|]; cbn [subscript bind] in H; [|left; congruence].
  destruct (tri_v t) as [vs|]; cbn [subscript bind] in H; [|left; congruence].
  destruct (tri_f t) as [fs|] eqn:Ef; cbn [subscript bind] in H; [|left; congruence].
  destruct (find_bounds vs) as [b|e] eqn:Eb; cbn [bind] in H.
  2:{ right. left. injection H as <-. eapply bounds_loop_raises, Eb. }
  destruct (mark_inside (trim_bounds b trim_percent) vs) as [marks|e] eqn:Em;
    cbn [bind] in H.
  2:{ right. left. injection H as <-. eapply mark_inside_raises, Em. }
  destruct (filter_faces marks fs) as [kept|e] eqn:Ek; cbn [bind] in H.
  2:{ right. left. injection H as <-. eapply filter_faces_raises, Ek. }
  unfold int_truediv in H.
  destruct fs as [|a fs'].
  - right. right. cbn in H. split; [congruence|]. exists t. auto.
  - rewrite (filter_faces_ok_nonempty _ _ _ Ek) in H by discriminate. discriminate.
Qed.

Lemma trim_edges_failures_witness :
  trim_edges (to_document bare_triangle) 0.02 = Raise ZeroDivisionError /\
  (ZeroDivisionError = KeyError \/ ZeroDivisionError = IndexError \/
   (ZeroDivisionError = ZeroDivisionError /\
    exists t, doc_triangles (to_document bare_triangle) = Some t /\ tri_f t = Some [])).
Proof.
  split; [reflexivity|].
  exact (trim_edges_failures (to_document bare_triangle) 0.02 ZeroDivisionError eq_refl).
Defined.

Lemma interior_loop_raises (b : bounds) (ex ey : float) (vs : list float) (err : exn) :
  interior_loop b ex ey vs = Raise err -> err = IndexError.
Proof.
  induction vs as [|x|x y|x y z l IH] using list_ind3; intros H;
    cbn [interior_loop] in H; try discriminate; try congruence.
  destruct (interior_loop b ex ey l); [discriminate|]. cbn [bind] in H.
  injection H as <-. apply IH. reflexivity.
Qed.

(** X4.  [smooth_edges] raises nothing but [KeyError] and [IndexError]: its
    divisions are guarded ([edge_x > 0], a non-empty list of interior
    elevations), and so are [min] and [max]. *)
Theorem smooth_edges_failures (data : document) (edge_distance smooth_strength : float)
    (err : exn) :
  smooth_edges data edge_distance smooth_strength = Raise err ->
  err = KeyError \/ err = IndexError.
Proof.
  unfold smooth_edges. intros H.
  destruct (doc_triangles data) as [t|]; cbn [subscript bind] in H; [|left; congruence].
  destruct (tri_v t) as [vs|]; cbn [subscript bind] in H; [|left; congruence].
  destruct (tri_f t) as [fs|]; cbn [subscript bind] in H; [|left; congruence].
  right.
  destruct (find_bounds vs) as [b|e] eqn:Eb; cbn [bind] in H.
  2:{ injection H as <-. eapply bounds_loop_raises, Eb. }
  destruct (interior_loop b (edge_x b edge_distance) (edge_y b edge_distance) vs)
    as [zs|e] eqn:Ei; cbn [bind] in H.
  2:{ injection H as <-. eapply interior_loop_raises, Ei. }
  pose proof (interior_loop_ok_whole _ _ _ _ _ Ei) as Hw.
  destruct zs as [|z zs]; [discriminate|].
  rewrite stats_of_ok in H by discriminate. cbn [bind] in H.
  rewrite (smooth_loop_whole _ _ _ _ _ _ Hw) in H. discriminate.
Qed.

Lemma smooth_edges_failures_witness :
  smooth_edges (to_document {| vertices := [0; 0]%float; faces := [] |}) 0.05 0.5 =
    Raise IndexError /\
  (IndexError = KeyError \/ IndexError = IndexError).
Proof.
  split; [reflexivity|].
  exact (smooth_edges_failures
           (to_document {| vertices := [0; 0]%float; faces := [] |})
           0.05 0.5 IndexError eq_refl).
Defined.

(** ** [smooth_edges] and [trim_edges] together *)

Lemma whole_flatten_vertices (ts : list (float * float * float)) :
  whole_triples (flatten_vertices ts).
Proof.
  induction ts as [|[[x y] z] ts IH]; [reflexivity|].
  cbn [flatten_vertices]. apply whole_triples_cons3, IH.
Qed.

Lemma smooth_vertex_xy (b : bounds) (ex ey : float) (st : interior_stats) (s : float)
    (t : float * float * float) :
  fst (smooth_vertex b ex ey st s t) = fst t.
Proof. destruct t as [[x y] z]. reflexivity. Qed.

Lemma bounds_fold_xy (f : float * float * float -> float * float * float)
    (ts : list (float * float * float)) :
  (forall t, fst (f t) = fst t) ->
  forall b0,
    fold_left (fun b t => let '(x, y, _) := t in extend_bounds b x y) (map f ts) b0 =
    fold_left (fun b t => let '(x, y, _) := t in extend_bounds b x y) ts b0.
Proof.
  intros Hf. induction ts as [|t ts IH]; intros b0; [reflexivity|].
  cbn [map fold_left]. rewrite IH. f_equal.
  specialize (Hf t). destruct (f t) as [[x' y'] z'], t as [[x y] z].
  cbn [fst] in Hf. injection Hf as -> ->. reflexivity.
Qed.

Lemma vertex_in_box_xy (f : float * float * float -> float * float * float)
    (nb : bounds) (ts : list (float * float * float)) (i : Z) :
  (forall t, fst (f t) = fst t) ->
  vertex_in_box nb (map f ts) i = vertex_in_box nb ts i.
Proof.
  intros Hf. unfold vertex_in_box. rewrite nth_error_map.
  destruct (nth_error ts (Z.to_nat i)) as [t|]; [|reflexivity]. cbn [option_map].
  specialize (Hf t). destruct (f t) as [[x' y'] z'], t as [[x y] z].
  cbn [fst] in Hf. injection Hf as -> ->. reflexivity.
Qed.

Lemma kept_faces_xy (f : float * float * float -> float * float * float)
    (nb : bounds) (ts : list (float * float * float)) (fs : list Z) :
  (forall t, fst (f t) = fst t) ->
  kept_faces nb (map f ts) fs = kept_faces nb ts fs.
Proof.
  intros Hf. unfold kept_faces. f_equal. apply filter_ext.
  intros [[a b] c]. unfold face_in_box. rewrite !vertex_in_box_xy by exact Hf.
  reflexivity.
Qed.

(** X6.  [smooth_edges] keeps the mesh invariant: the mesh it writes from a
    valid mesh is valid. *)
Theorem smooth_edges_output_valid (m out : mesh) (e s : float) :
  valid_mesh m ->
  smooth_edges (to_document m) e s = Ok (Written out) ->
  valid_mesh out.
Proof.
  intros (Hv & Hf & Hidx) H.
  destruct (smooth_edges_written _ _ _ _ H) as [_ ->].
  split; [apply whole_flatten_vertices|]. split; [exact Hf|].
  cbn [vertices faces].
  rewrite length_flatten_vertices, length_map, length_vertex_triples.
  replace (3 * (length (vertices m) / 3) / 3)%nat with (length (vertices m) / 3)%nat.
  - exact Hidx.
  - rewrite Nat.mul_comm, Nat.div_mul by lia. reflexivity.
Qed.

Lemma smooth_edges_output_valid_witness :
  exists out,
    smooth_edges (to_document terrain) 0.25 0.5 = Ok (Written out) /\ valid_mesh out.
Proof.
  eexists. split; [reflexivity|].
  apply (smooth_edges_output_valid terrain _ 0.25 0.5); [|reflexivity].
  split; [reflexivity|]. split; [reflexivity|].
  repeat constructor; cbn; lia.
Defined.

(** X7.  Smoothing and trimming commute.  When [smooth_edges] writes a mesh
    from a valid mesh and [trim_edges] does too, each can be run on the
    other's output, and both orders write the same mesh: the smoothed
    vertices with the trimmed faces.  (Smoothing moves no vertex in X or Y,
    trimming moves no vertex at all.) *)
Theorem trim_smooth_commute (m smoothed_m trimmed_m : mesh) (p e s : float) :
  valid_mesh m ->
  smooth_edges (to_document m) e s = Ok (Written smoothed_m) ->
  trim_edges (to_document m) p = Ok trimmed_m ->
  trim_edges (to_document smoothed_m) p =
    Ok {| vertices := vertices smoothed_m; faces := faces trimmed_m |} /\
  smooth_edges (to_document trimmed_m) e s =
    Ok (Written {| vertices := vertices smoothed_m; faces := faces trimmed_m |}).
Proof.
  intros Hvalid Hs Ht.
  pose proof (smooth_edges_written _ _ _ _ Hs) as [Hw Es]. cbv zeta in Es.
  rewrite (trim_edges_valid_cases m p Hvalid) in Ht.
  destruct (faces m) as [|a fs] eqn:Ef; [discriminate|]. injection Ht as <-.
  rewrite <- Ef in *. cbn [vertices faces].
  set (ts := vertex_triples (vertices m)) in *.
  set (b := bounds_of ts) in *.
  set (f := smooth_vertex b (edge_x b e) (edge_y b e) _ s) in Es.
  assert (Hf : forall t, fst (f t) = fst t) by (intros t; apply smooth_vertex_xy).
  split.
  - assert (Hvs : valid_mesh smoothed_m).
    { destruct Hvalid as (Hv & Hfw & Hidx). rewrite Es.
      split; [apply whole_flatten_vertices|]. split; [exact Hfw|].
      cbn [vertices faces].
      rewrite length_flatten_vertices, length_map. unfold ts.
      rewrite length_vertex_triples.
      replace (3 * (length (vertices m) / 3) / 3)%nat with (length (vertices m) / 3)%nat
        by (rewrite Nat.mul_comm, Nat.div_mul by lia; reflexivity).
      exact Hidx. }
    rewrite (trim_edges_valid_cases _ p Hvs).
    rewrite Es at 1. cbn [faces]. rewrite Ef. rewrite <- Ef.
    f_equal. f_equal. rewrite Es. cbn [vertices faces].
    rewrite vertex_triples_flatten. unfold bounds_of.
    rewrite (bounds_fold_xy f ts Hf). fold (bounds_of ts). fold b.
    apply kept_faces_xy, Hf.
  - pose proof (smooth_edges_whole
                  {| vertices := vertices m;
                     faces := kept_faces (trim_bounds b p) ts (faces m) |} e s Hw) as H.
    cbv zeta in H. cbn [vertices faces] in H. fold ts in H. fold b in H.
    rewrite H. clear H.
    rewrite (smooth_edges_whole m e s Hw) in Hs. cbv zeta in Hs.
    fold ts in Hs. fold b in Hs.
    destruct (interior_of b (edge_x b e) (edge_y b e) ts); [discriminate|].
    injection Hs as <-. reflexivity.
Qed.

Lemma trim_smooth_commute_witness :
  exists sm tr,
    smooth_edges (to_document island) 0.125 0.5 = Ok (Written sm) /\
    trim_edges (to_document island) 0.25 = Ok tr /\
    faces tr = [2; 3; 4]%Z /\
    trim_edges (to_document sm) 0.25 =
      Ok {| vertices := vertices sm; faces := faces tr |} /\
    smooth_edges (to_document tr) 0.125 0.5 =
      Ok (Written {| vertices := vertices sm; faces := faces tr |}).
Proof.
  eexists. eexists. split; [reflexivity|]. split; [reflexivity|].
  split; [reflexivity|].
  apply (trim_smooth_commute island _ _ 0.25 0.125 0.5 valid_island eq_refl eq_refl).
Defined.

(** ** [json_to_obj]: refusals and the layout of the file *)

Lemma not_whole_cases {A : Type} (l : list A) :
  ~ whole_triples l ->
  exists l0 r, l = l0 ++ r /\ whole_triples l0 /\
               ((exists a, r = [a]) \/ (exists a b, r = [a; b])).
Proof.
  induction l as [|x|x y|x y z l IH] using list_ind3; intros H.
  - exfalso. apply H. reflexivity.
  - exists [], [x]. split; [reflexivity|]. split; [reflexivity|]. left. eauto.
  - exists [], [x; y]. split; [reflexivity|]. split; [reflexivity|]. right. eauto.
  - destruct IH as (l0 & r & -> & Hw & Hr).
    { intros Hw. apply H. apply whole_triples_cons3, Hw. }
    exists (x :: y :: z :: l0), r. split; [reflexivity|].
    split; [apply whole_triples_cons3, Hw|exact Hr].
Qed.

Lemma whole_triples_dec {A : Type} (l : list A) :
  {whole_triples l} + {~ whole_triples l}.
Proof. unfold whole_triples. apply Nat.eq_dec. Qed.

Lemma bounds_xyz_loop_not_whole (vs : list float) :
  ~ whole_triples vs ->
  forall acc, bounds_xyz_loop vs acc = Raise IndexError.
Proof.
  induction vs as [|x|x y|x y z l IH] using list_ind3; intros H acc.
  - exfalso. apply H. reflexivity.
  - reflexivity.
  - reflexivity.
  - destruct acc as [b [lo hi]]. cbn [bounds_xyz_loop]. apply IH.
    intros Hw. apply H, whole_triples_cons3, Hw.
Qed.

Lemma face_lines_not_whole (fs : list Z) :
  ~ whole_triples fs -> face_lines fs = Raise IndexError.
Proof.
  induction fs as [|x|x y|x y z l IH] using list_ind3; intros H.
  - exfalso. apply H. reflexivity.
  - reflexivity.
  - reflexivity.
  - cbn [face_lines]. rewrite IH; [reflexivity|].
    intros Hw. apply H, whole_triples_cons3, Hw.
Qed.

Lemma face_lines_whole (fs : list Z) :
  whole_triples fs ->
  face_lines fs =
    Ok (map (fun t => let '(a, b, c) := t in face_line (a + 1) (b + 1) (c + 1))
            (face_triples fs)).
Proof.
  intros Hw. pattern fs. apply whole_triples_ind; [|intros a b c l Hl IH|exact Hw].
  - reflexivity.
  - cbn [face_lines face_triples map]. rewrite IH. reflexivity.
Qed.

Section JsonToObj.

Variable float_repr : float -> string.

Lemma vertex_lines_whole (vs : list float) :
  whole_triples vs ->
  vertex_lines float_repr vs =
    Ok (map (fun t => let '(x, y, z) := t in vertex_line float_repr x y z)
            (vertex_triples vs)).
Proof.
  intros Hw. pattern vs. apply whole_triples_ind; [|intros x y z l Hl IH|exact Hw].
  - reflexivity.
  - cbn [vertex_lines vertex_triples map]. rewrite IH. reflexivity.
Qed.

(** The vertices and the faces [json_to_obj] works on. *)
Definition exported_vertices (data : document) : list float :=
  match doc_triangles data with
  | Some t => get_or_empty (tri_v t)
  | None => []
  end.

Definition exported_faces (data : document) : list Z :=
  match doc_triangles data with
  | Some t => get_or_empty (tri_f t)
  | None => []
  end.

(** X8.  [json_to_obj] raises [ValueError] exactly when the document has no
    [triangles] member or no vertex (a missing or an empty [v]); a missing
    [f] is no error. *)
Theorem json_to_obj_value_error (data : document) (name : string) :
  json_to_obj float_repr data name = Raise ValueError <->
  (doc_triangles data = None \/ exported_vertices data = []).
Proof.
  unfold json_to_obj, exported_vertices.
  destruct (doc_triangles data) as [t|]; [|split; auto].
  destruct (get_or_empty (tri_v t)) as [|x vs] eqn:Ev; [split; auto|].
  split; [|intros [H|H]; discriminate].
  intros H. exfalso.
  destruct (whole_triples_dec (x :: vs)) as [Hw|Hn].
  - destruct (bounds_xyz_loop_whole (x :: vs) Hw (initial_bounds, (infinity, neg_infinity)))
      as [acc Hb].
    rewrite Hb, (vertex_lines_whole _ Hw) in H. cbn [bind] in H.
    destruct (whole_triples_dec (get_or_empty (tri_f t))) as [Hf|Hf].
    + rewrite (face_lines_whole _ Hf) in H. discriminate.
    + rewrite (face_lines_not_whole _ Hf) in H. discriminate.
  - rewrite (bounds_xyz_loop_not_whole _ Hn) in H. discriminate.
Qed.

(** X9.  The layout of the exported file.  With no line break in the name
    of the file, at least one vertex and whole triples, [json_to_obj] writes
    eight header lines, one line per vertex in vertex order, an empty line,
    and one line per face in face order with every index raised by one:
    vertex [i] is line [8 + i], face [j] is line [9 + V + j]. *)
Theorem json_to_obj_layout (data : document) (name : string) :
  Str.no_line_break name = true ->
  doc_triangles data <> None ->
  exported_vertices data <> [] ->
  whole_triples (exported_vertices data) ->
  whole_triples (exported_faces data) ->
  let vts := vertex_triples (exported_vertices data) in
  let fts := face_triples (exported_faces data) in
  exists lines,
    json_to_obj float_repr data name = Ok lines /\
    length lines = (9 + length vts + length fts)%nat /\
    (forall i x y z, nth_error vts i = Some (x, y, z) ->
       nth_error lines (8 + i) = Some (vertex_line float_repr x y z)) /\
    nth_error lines (8 + length vts) = Some ""%string /\
    (forall j a b c, nth_error fts j = Some (a, b, c) ->
       nth_error lines (9 + length vts + j) =
         Some (face_line (a + 1) (b + 1) (c + 1))).
Proof.
  intros Hname. unfold json_to_obj, exported_vertices, exported_faces.
  destruct (doc_triangles data) as [t|]; [|congruence]. intros _ Hne Hv Hf.
  destruct (get_or_empty (tri_v t)) as [|x0 vs0] eqn:Ev; [congruence|].
  destruct (bounds_xyz_loop_whole _ Hv (initial_bounds, (infinity, neg_infinity)))
    as [acc Hb].
  rewrite Hb, (vertex_lines_whole _ Hv), (face_lines_whole _ Hf). cbn [bind].
  set (vts := vertex_triples (x0 :: vs0)).
  set (fts := face_triples (get_or_empty (tri_f t))).
  set (vl := map _ vts). set (fl := map _ fts).
  set (h := header name _ _).
  assert (Hh : length h = 8%nat)
    by (unfold h; rewrite (header_one_line _ _ _ Hname); reflexivity).
  assert (Hvl : length vl = length vts) by apply length_map.
  assert (Hfl : length fl = length fts) by apply length_map.
  eexists. split; [reflexivity|]. split.
  - rewrite !length_app. cbn [length]. lia.
  - split; [|split].
    + intros i x y z Hi.
      rewrite nth_error_app2 by lia. replace (8 + i - length h)%nat with i by lia.
      rewrite nth_error_app1 by (rewrite Hvl; apply nth_error_Some; congruence).
      unfold vl. rewrite nth_error_map, Hi. reflexivity.
    + rewrite nth_error_app2 by lia.
      rewrite nth_error_app2 by lia.
      replace (8 + length vts - length h - length vl)%nat with 0%nat by lia.
      reflexivity.
    + intros j a b c Hj.
      rewrite nth_error_app2 by lia.
      rewrite nth_error_app2 by lia.
      replace (9 + length vts + j - length h - length vl)%nat with (S j) by lia.
      cbn [app nth_error]. unfold fl. rewrite nth_error_map, Hj. reflexivity.
Qed.

(** X10.  With at least one vertex, [json_to_obj] raises [IndexError]
    exactly when the vertex list or the face list ends in an incomplete
    triple. *)
Theorem json_to_obj_index_error (data : document) (name : string) :
  doc_triangles data <> None ->
  exported_vertices data <> [] ->
  (json_to_obj float_repr data name = Raise IndexError <->
   ~ (whole_triples (exported_vertices data) /\ whole_triples (exported_faces data))).
Proof.
  unfold json_to_obj, exported_vertices, exported_faces.
  destruct (doc_triangles data) as [t|]; [|congruence]. intros _ Hne.
  destruct (get_or_empty (tri_v t)) as [|x0 vs0] eqn:Ev; [congruence|].
  destruct (whole_triples_dec (x0 :: vs0)) as [Hw|Hn].
  - destruct (bounds_xyz_loop_whole _ Hw (initial_bounds, (infinity, neg_infinity)))
      as [acc Hb].
    rewrite Hb, (vertex_lines_whole _ Hw). cbn [bind].
    destruct (whole_triples_dec (get_or_empty (tri_f t))) as [Hf|Hf].
    + rewrite (face_lines_whole _ Hf). cbn [bind]. split; [discriminate|].
      intros H. exfalso. apply H. auto.
    + rewrite (face_lines_not_whole _ Hf). cbn [bind]. split; [|reflexivity].
      intros _ [_ H]. auto.
  - rewrite (bounds_xyz_loop_not_whole _ Hn). cbn [bind]. split; [|reflexivity].
    intros _ [H _]. auto.
Qed.

End JsonToObj.

Lemma json_to_obj_layout_witness :
  exists lines,
    json_to_obj sample_float_repr (to_document unit_square) "a0.json" = Ok lines /\
    length lines = 15%nat /\
    nth_error lines (8 + 3) = Some "v 1.0 1.0 1.0"%string /\
    nth_error lines (8 + 4) = Some ""%string /\
    nth_error lines (9 + 4 + 1) = Some "f 2 4 3"%string.
Proof.
  destruct (json_to_obj_layout sample_float_repr (to_document unit_square) "a0.json")
    as (lines & H & Hlen & Hv & Hblank & Hf).
  - reflexivity.
  - discriminate.
  - discriminate.
  - reflexivity.
  - reflexivity.
  - exists lines. split; [exact H|]. split; [exact Hlen|].
    split; [exact (Hv 3%nat 1%float 1%float 1%float eq_refl)|].
    split; [exact Hblank|].
    exact (Hf 1%nat 1%Z 3%Z 2%Z eq_refl).
Defined.

Lemma json_to_obj_index_error_witness :
  json_to_obj sample_float_repr
    (to_document {| vertices := [0; 0; 1; 1]%float; faces := [] |}) "a0.json" =
    Raise IndexError.
Proof.
  apply (json_to_obj_index_error sample_float_repr
           (to_document {| vertices := [0; 0; 1; 1]%float; faces := [] |}) "a0.json").
  - discriminate.
  - discriminate.
  - intros [H _]. discriminate.
Defined.

(** ** [obj_to_json]: what a line contributes *)

Lemma rstrip_app_fixed (x y : string) :
  Str.rstrip y = y -> y <> EmptyString -> Str.rstrip (x ++ y) = (x ++ y)%string.
Proof.
  intros Hy Hne. induction x as [|c x IH]; [exact Hy|].
  cbn [append Str.rstrip]. rewrite IH.
  destruct (x ++ y)%string eqn:E; [|reflexivity].
  destruct x; cbn [append] in E; [congruence|discriminate].
Qed.

Lemma join_tokens_cons (t : string) (ts : list string) :
  ts <> [] -> join_tokens (t :: ts) = (t ++ String " " (join_tokens ts))%string.
Proof.
  destruct ts; [congruence|reflexivity].
Qed.

Lemma token_nonempty (t : string) : Str.token t = true -> t <> EmptyString.
Proof. destruct t; [discriminate|congruence]. Qed.

Lemma join_tokens_fixed (ts : list string) :
  ts <> [] -> Forall (fun t => Str.token t = true) ts ->
  join_tokens ts <> EmptyString /\
  Str.rstrip (join_tokens ts) = join_tokens ts /\
  Str.lstrip (join_tokens ts) = join_tokens ts /\
  Str.split (join_tokens ts) = ts.
Proof.
  induction ts as [|t ts IH]; [congruence|]. intros _ Hall.
  inversion Hall as [|? ? Ht Hts]; subst.
  assert (Hl : forall r, Str.lstrip (t ++ r) = (t ++ r)%string).
  { intros r. destruct t as [|c t']; [discriminate|].
    destruct (token_cons _ _ Ht) as [Hc _]. cbn [append Str.lstrip]. rewrite Hc.
    reflexivity. }
  destruct ts as [|t' ts'].
  - cbn [join_tokens]. split; [apply token_nonempty, Ht|].
    split; [apply rstrip_token, Ht|]. split.
    + specialize (Hl EmptyString). 
      replace (t ++ "")%string with t in Hl; [exact Hl|].
      clear. induction t as [|c t IH]; [reflexivity|]. cbn [append]. rewrite <- IH.
      reflexivity.
    + apply split_token, Ht.
  - destruct (IH ltac:(discriminate) Hts) as (Hne & Hr & _ & Hs).
    rewrite join_tokens_cons by discriminate.
    split; [|split; [|split]].
    + destruct t; [discriminate|]. cbn [append]. discriminate.
    + apply rstrip_app_fixed.
      * change (String " " (join_tokens (t' :: ts')))
          with (String " " EmptyString ++ join_tokens (t' :: ts'))%string.
        apply rstrip_app_fixed; assumption.
      * discriminate.
    + apply Hl.
    + rewrite split_token_space by exact Ht. rewrite Hs. reflexivity.
Qed.

Lemma strip_join_tokens (ts : list string) :
  ts <> [] -> Forall (fun t => Str.token t = true) ts ->
  Str.strip (join_tokens ts) = join_tokens ts.
Proof.
  intros Hne Hall. destruct (join_tokens_fixed ts Hne Hall) as (_ & Hr & Hl & _).
  unfold Str.strip. rewrite Hl. exact Hr.
Qed.

Lemma split_join_tokens (ts : list string) :
  ts <> [] -> Forall (fun t => Str.token t = true) ts ->
  Str.split (join_tokens ts) = ts.
Proof.
  intros Hne Hall. apply (join_tokens_fixed ts Hne Hall).
Qed.

Lemma startswith_join (k : ascii) (t : string) (ts : list string) :
  Str.startswith (String k (String " " EmptyString))
    (join_tokens (String k EmptyString :: t :: ts)) = true.
Proof.
  rewrite join_tokens_cons by discriminate. cbn [append]. apply startswith_keyword.
Qed.

Lemma startswith_join_other (k k' : ascii) (p : string) (ts : list string) :
  k <> k' ->
  Str.startswith (String k p) (join_tokens (String k' EmptyString :: ts)) = false.
Proof.
  intros N. destruct ts as [|t ts].
  - cbn [join_tokens]. apply startswith_other, N.
  - rewrite join_tokens_cons by discriminate. cbn [append]. apply startswith_other, N.
Qed.

Lemma token_keyword (k : ascii) :
  Str.is_space k = false -> Str.token (String k EmptyString) = true.
Proof. intros H. cbn. rewrite H. reflexivity. Qed.

Section ObjLines.

Variable float_of_string : string -> option float.

Lemma parse_line_irrelevant (line : string) (acc : list float * list Z) :
  obj_relevant line = false -> parse_line float_of_string line acc = Ok acc.
Proof.
  unfold obj_relevant, parse_line. intros H. apply orb_false_iff in H as [Hv Hf].
  destruct acc as [vs fs]. rewrite Hv, Hf. reflexivity.
Qed.

Lemma parse_lines_relevant (lines : list string) :
  forall acc,
    parse_lines float_of_string lines acc =
    parse_lines float_of_string (filter obj_relevant lines) acc.
Proof.
  induction lines as [|l lines IH]; intros acc; [reflexivity|].
  cbn [filter parse_lines]. destruct (obj_relevant l) eqn:E.
  - cbn [parse_lines]. destruct (parse_line float_of_string l acc); cbn [bind]; auto.
  - rewrite (parse_line_irrelevant _ _ E). cbn [bind]. apply IH.
Qed.

(** X11.  Only the lines that start, once stripped, with [v ] or [f ] count:
    comments, blank lines and every other kind of OBJ statement ([vn], [vt],
    [o], [s], [usemtl], ...) can be removed from the file without changing
    what is parsed, errors included. *)
Theorem parse_obj_other_lines_ignored (lines : list string) :
  parse_obj float_of_string lines =
  parse_obj float_of_string (filter obj_relevant lines).
Proof.
  apply parse_lines_relevant.
Qed.

(** What a face line made of a keyword and at least three tokens reads. *)
Lemma parse_face_tokens (ta tb tc : string) (extra : list string)
    (vs : list float) (fs : list Z) :
  Forall (fun t => Str.token t = true) (ta :: tb :: tc :: extra) ->
  parse_line float_of_string (join_tokens ("f"%string :: ta :: tb :: tc :: extra)) (vs, fs) =
    (v1 <- Str.to_int (Str.before "/" ta) ;;
     v2 <- Str.to_int (Str.before "/" tb) ;;
     v3 <- Str.to_int (Str.before "/" tc) ;;
     Ok (vs, fs ++ [v1 - 1; v2 - 1; v3 - 1]%Z)).
Proof.
  intros Hall.
  assert (Hall' : Forall (fun t => Str.token t = true)
                    ("f"%string :: ta :: tb :: tc :: extra))
    by (constructor; [reflexivity|exact Hall]).
  unfold parse_line.
  rewrite strip_join_tokens by (discriminate || exact Hall').
  rewrite startswith_join_other by discriminate.
  rewrite (startswith_join "f").
  rewrite split_join_tokens by (discriminate || exact Hall').
  reflexivity.
Qed.

Lemma parse_vertex_tokens (tx ty tz : string) (extra : list string)
    (vs : list float) (fs : list Z) :
  Forall (fun t => Str.token t = true) (tx :: ty :: tz :: extra) ->
  parse_line float_of_string (join_tokens ("v"%string :: tx :: ty :: tz :: extra)) (vs, fs) =
    (x <- to_float float_of_string tx ;;
     y <- to_float float_of_string ty ;;
     z <- to_float float_of_string tz ;;
     Ok (vs ++ [x; y; z], fs)).
Proof.
  intros Hall.
  assert (Hall' : Forall (fun t => Str.token t = true)
                    ("v"%string :: tx :: ty :: tz :: extra))
    by (constructor; [reflexivity|exact Hall]).
  unfold parse_line.
  rewrite strip_join_tokens by (discriminate || exact Hall').
  rewrite (startswith_join "v").
  rewrite split_join_tokens by (discriminate || exact Hall').
  reflexivity.
Qed.

End ObjLines.

Lemma no_space_app (a b : string) :
  Str.no_space (a ++ b) = Str.no_space a && Str.no_space b.
Proof.
  induction a as [|c a IH]; [reflexivity|].
  cbn [append Str.no_space]. rewrite IH, andb_assoc. reflexivity.
Qed.

Lemma no_space_of_int (n : Z) : Str.no_space (Str.of_int n) = true.
Proof.
  pose proof (token_of_int n) as H. destruct (Str.of_int n); [discriminate|exact H].
Qed.

Lemma token_with_suffix (n : Z) (suffix : string) :
  Str.no_space suffix = true -> Str.token (with_suffix n suffix) = true.
Proof.
  intros Hs. unfold with_suffix.
  pose proof (token_of_int n) as Ht. pose proof (no_space_of_int n) as Hn.
  destruct (Str.of_int n) as [|c r]; [discriminate|].
  cbn [append Str.token].
  change (String c (r ++ String "/" suffix)) with (String c r ++ String "/" suffix)%string.
  rewrite no_space_app, Hn. cbn. exact Hs.
Qed.

Lemma before_app_sep (sep : ascii) (t r : string) :
  Str.before sep t = t -> Str.before sep (t ++ String sep r) = t.
Proof.
  induction t as [|c t IH]; intros H.
  - cbn. rewrite Ascii.eqb_refl. reflexivity.
  - cbn [append Str.before] in *. destruct (Ascii.eqb c sep); [discriminate|].
    injection H as H. rewrite (IH H). reflexivity.
Qed.

Lemma before_with_suffix (n : Z) (suffix : string) :
  Str.before "/" (with_suffix n suffix) = Str.of_int n.
Proof.
  apply before_app_sep, before_slash_of_int.
Qed.

Section ObjTokens.

Variable float_of_string : string -> option float.

(** X12.  The texture and normal indices a face line may carry are ignored:
    [f a/.. b/.. c/..] adds the face [(a - 1, b - 1, c - 1)], whatever
    follows the first slash of each part. *)
Theorem face_line_suffixes_ignored (a b c : Z) (sa sb sc : string)
    (vs : list float) (fs : list Z) :
  Str.no_space sa = true -> Str.no_space sb = true -> Str.no_space sc = true ->
  parse_line float_of_string
    (join_tokens ["f"%string; with_suffix a sa; with_suffix b sb; with_suffix c sc])
    (vs, fs) =
  Ok (vs, fs ++ [a - 1; b - 1; c - 1]%Z).
Proof.
  intros Ha Hb Hc.
  rewrite parse_face_tokens
    by (repeat constructor; apply token_with_suffix; assumption).
  rewrite !before_with_suffix, !to_int_of_int. reflexivity.
Qed.

(** X13.  Whatever follows the third value of a line is ignored, and not
    even parsed: a face line with more than three indices contributes the
    triangle of its first three, a vertex line with more than three numbers
    the vertex of its first three. *)
Theorem extra_tokens_ignored (extra : list string) (vs : list float) (fs : list Z) :
  Forall (fun t => Str.token t = true) extra ->
  (forall a b c : Z,
     parse_line float_of_string
       (join_tokens ("f"%string :: Str.of_int a :: Str.of_int b :: Str.of_int c :: extra))
       (vs, fs) =
     Ok (vs, fs ++ [a - 1; b - 1; c - 1]%Z)) /\
  (forall (tx ty tz : string) (x y z : float),
     Str.token tx = true -> Str.token ty = true -> Str.token tz = true ->
     float_of_string tx = Some x -> float_of_string ty = Some y ->
     float_of_string tz = Some z ->
     parse_line float_of_string
       (join_tokens ("v"%string :: tx :: ty :: tz :: extra)) (vs, fs) =
     Ok (vs ++ [x; y; z], fs)).
Proof.
  intros Hextra. split.
  - intros a b c.
    rewrite parse_face_tokens by (repeat constructor; try apply token_of_int; exact Hextra).
    rewrite !before_slash_of_int, !to_int_of_int. reflexivity.
  - intros tx ty tz x y z Tx Ty Tz Px Py Pz.
    rewrite parse_vertex_tokens by (repeat constructor; assumption).
    unfold to_float. rewrite Px, Py, Pz. reflexivity.
Qed.

(** X14.  A vertex or a face line with fewer than three values is skipped
    without an error: nothing is added to the vertices or to the faces
    parsed so far. *)
Theorem short_line_skipped (k : string) (ts : list string)
    (acc : list float * list Z) :
  k = "v"%string \/ k = "f"%string ->
  (length ts < 3)%nat ->
  Forall (fun t => Str.token t = true) ts ->
  parse_line float_of_string (join_tokens (k :: ts)) acc = Ok acc.
Proof.
  intros Hk Hlen Hall. destruct acc as [vs fs].
  assert (Hkt : Str.token k = true) by (destruct Hk; subst; reflexivity).
  assert (Hall' : Forall (fun t => Str.token t = true) (k :: ts))
    by (constructor; assumption).
  unfold parse_line.
  rewrite strip_join_tokens by (discriminate || exact Hall').
  rewrite split_join_tokens by (discriminate || exact Hall').
  assert (Hshort : (4 <=? length (k :: ts))%nat = false)
    by (apply Nat.leb_gt; cbn [length]; lia).
  rewrite Hshort.
  destruct (Str.startswith "v " (join_tokens (k :: ts))); [reflexivity|].
  destruct (Str.startswith "f " (join_tokens (k :: ts))); reflexivity.
Qed.

End ObjTokens.

Lemma face_line_suffixes_ignored_witness :
  parse_line sample_float_of_string "f 3/1/1 4/4/1 2/2/1" ([], []) =
    Ok ([], [2; 3; 1]%Z).
Proof.
  exact (face_line_suffixes_ignored sample_float_of_string 3 4 2 "1/1" "4/1" "2/1" [] []
           eq_refl eq_refl eq_refl).
Defined.

Lemma extra_tokens_ignored_witness :
  parse_line sample_float_of_string "f 1 2 3 4" ([], []) = Ok ([], [0; 1; 2]%Z) /\
  parse_line sample_float_of_string "v 0.0 1.0 2.0 0.5 garbage" ([], []) =
    Ok ([0; 1; 2]%float, []).
Proof.
  split.
  - exact (proj1 (extra_tokens_ignored sample_float_of_string ["4"%string] [] []
                    ltac:(repeat constructor)) 1%Z 2%Z 3%Z).
  - exact (proj2 (extra_tokens_ignored sample_float_of_string
                    ["0.5"%string; "garbage"%string] [] []
                    ltac:(repeat constructor))
             "0.0"%string "1.0"%string "2.0"%string 0%float 1%float 2%float
             eq_refl eq_refl eq_refl eq_refl eq_refl eq_refl).
Defined.

Lemma short_line_skipped_witness :
  parse_line sample_float_of_string "v 0.0 1.0" ([0; 0; 1]%float, [0; 0; 0]%Z) =
    Ok ([0; 0; 1]%float, [0; 0; 0]%Z).
Proof.
  exact (short_line_skipped sample_float_of_string "v" ["0.0"%string; "1.0"%string]
           ([0; 0; 1]%float, [0; 0; 0]%Z)
           (or_introl eq_refl) ltac:(cbn; lia) ltac:(repeat constructor)).
Defined.

(** ** [obj_to_json]: the validation of the positions *)

Lemma nan_sub_l (y : float) : (nan - y = nan)%float.
Proof.
  apply Prim2SF_inj. rewrite sub_spec.
  change (Prim2SF nan) with S754_nan. destruct (Prim2SF y); reflexivity.
Qed.

(** A coordinate that shows no difference to the original one: it is the
    same, or it is NaN, whose difference to anything is NaN and never
    compares greater. *)
Lemma max2_abs_sub_same_or_nan (x ox : float) :
  x = ox \/ x = nan -> max2 0 (abs (x - ox)) = 0%float.
Proof.
  intros [->| ->]; [apply max2_abs_sub_diag|].
  rewrite nan_sub_l. reflexivity.
Qed.

Definition same_or_nan_xy (t ot : float * float * float) : Prop :=
  (fst (fst t) = fst (fst ot) \/ fst (fst t) = nan) /\
  (snd (fst t) = snd (fst ot) \/ snd (fst t) = nan).

Lemma drift_loop_same_xy (ts ots : list (float * float * float)) :
  Forall2 same_or_nan_xy ts ots ->
  forall dz0, exists dz,
    drift_loop (flatten_vertices ts) (flatten_vertices ots) (0%float, dz0) =
      Ok (0%float, dz).
Proof.
  induction 1 as [|[[x y] z] [[ox oy] oz] ts ots [Hx Hy] _ IH]; intros dz0.
  - exists dz0. reflexivity.
  - cbn [fst snd] in Hx, Hy. cbn [flatten_vertices drift_loop].
    rewrite (max2_abs_sub_same_or_nan x ox Hx), (max2_abs_sub_same_or_nan y oy Hy).
    apply IH.
Qed.

Lemma check_positions_same_xy (vs ovs : list float) (stdin : list string) :
  whole_triples vs -> whole_triples ovs ->
  Forall2 same_or_nan_xy (vertex_triples vs) (vertex_triples ovs) ->
  check_positions vs ovs stdin = Ok stdin.
Proof.
  intros Hv Ho H. unfold check_positions.
  rewrite <- (flatten_vertex_triples vs Hv), <- (flatten_vertex_triples ovs Ho).
  destruct (drift_loop_same_xy _ _ H 0%float) as [dz ->]. reflexivity.
Qed.

Lemma len_div3_triples (vs : list float) :
  (len vs / 3)%Z = Z.of_nat (length (vertex_triples vs)).
Proof.
  rewrite length_vertex_triples. unfold len.
  rewrite Nat2Z.inj_div. reflexivity.
Qed.

Section Positions.

Variable float_of_string : string -> option float.

(** X15.  An OBJ file that differs from the reference in elevations only is
    accepted without a question: with the X and Y of every vertex equal to
    the reference's, [obj_to_json] reads nothing from standard input and
    writes the parsed vertices with the reference's faces. *)
Theorem elevation_edit_accepted (lines : list string) (ref : mesh)
    (stdin : list string) (vs : list float) (fs : list Z) :
  parse_obj float_of_string lines = Ok (vs, fs) ->
  whole_triples (vertices ref) ->
  map fst (vertex_triples vs) = map fst (vertex_triples (vertices ref)) ->
  obj_to_json float_of_string lines (to_document ref) stdin =
    Ok {| vertices := vs; faces := faces ref |}.
Proof.
  intros Hp Hw Hxy.
  destruct (parse_obj_whole _ _ _ _ Hp) as [Hv _].
  rewrite (obj_to_json_parsed _ _ _ _ _ _ Hp). unfold resolve_faces.
  assert (Hlen : length (vertex_triples vs) = length (vertex_triples (vertices ref))).
  { rewrite <- (length_map fst (vertex_triples vs)), Hxy. apply length_map. }
  rewrite !len_div3_triples, Hlen, Z.eqb_refl. cbn [negb bind].
  rewrite check_positions_same_xy; [reflexivity|exact Hv|exact Hw|].
  clear - Hxy. revert Hxy.
  generalize (vertex_triples (vertices ref)).
  induction (vertex_triples vs) as [|t ts IH]; intros [|ot ots] H; try discriminate.
  - constructor.
  - cbn [map] in H. injection H as Ht Hts. constructor; [|apply IH, Hts].
    unfold same_or_nan_xy. rewrite Ht. auto.
Qed.

(** X16.  The validation of the positions does not see a NaN: an OBJ file
    whose X and Y coordinates are NaN wherever they are not the reference's
    passes it like an untouched file, since a NaN difference never compares
    greater than the running maximum. *)
Theorem nan_position_accepted (lines : list string) (ref : mesh)
    (stdin : list string) (vs : list float) (fs : list Z) :
  parse_obj float_of_string lines = Ok (vs, fs) ->
  whole_triples (vertices ref) ->
  Forall2 same_or_nan_xy (vertex_triples vs) (vertex_triples (vertices ref)) ->
  obj_to_json float_of_string lines (to_document ref) stdin =
    Ok {| vertices := vs; faces := faces ref |}.
Proof.
  intros Hp Hw Hxy.
  destruct (parse_obj_whole _ _ _ _ Hp) as [Hv _].
  rewrite (obj_to_json_parsed _ _ _ _ _ _ Hp). unfold resolve_faces.
  rewrite !len_div3_triples, (Forall2_length Hxy), Z.eqb_refl. cbn [negb bind].
  rewrite check_positions_same_xy; [reflexivity|exact Hv|exact Hw|exact Hxy].
Qed.

End Positions.

Lemma elevation_edit_accepted_witness :
  obj_to_json sample_float_of_string edited_square_obj (to_document unit_square)
    ["never read"%string] =
    Ok {| vertices := [0; 0; 1;  1; 0; 1;  0; 1; 1;  1; 1; 2]%float;
          faces := faces unit_square |}.
Proof.
  exact (elevation_edit_accepted sample_float_of_string edited_square_obj unit_square
           ["never read"%string] _ [2; 1; 0; 2; 3; 1]%Z eq_refl eq_refl eq_refl).
Defined.

Lemma nan_position_accepted_witness :
  obj_to_json sample_float_of_string
    [ "v nan 0.0 1.0"; "v 1.0 nan 1.0"; "v 0.0 1.0 1.0"; "v 1.0 1.0 1.0" ]%string
    (to_document unit_square) [] =
    Ok {| vertices := [nan; 0; 1;  1; nan; 1;  0; 1; 1;  1; 1; 1]%float;
          faces := faces unit_square |}.
Proof.
  apply (nan_position_accepted sample_float_of_string
           [ "v nan 0.0 1.0"; "v 1.0 nan 1.0"; "v 0.0 1.0 1.0"; "v 1.0 1.0 1.0" ]%string
           unit_square [] _ [] eq_refl eq_refl).
  repeat (apply Forall2_cons; [split; cbn; auto|]). apply Forall2_nil.
Defined.

Lemma lex_lt_le (p q r : Z * Z * Z) :
  lex_compare p q = Lt -> lex_le q r -> lex_compare p r = Lt.
Proof.
  destruct p as [[a1 b1] c1], q as [[a2 b2] c2], r as [[a3 b3] c3].
  unfold lex_compare, lex_le.
  destruct (Z.compare_spec a1 a2), (Z.compare_spec b1 b2), (Z.compare_spec c1 c2);
    intros Hlt Hle; try discriminate;
    destruct (Z.compare_spec a1 a3), (Z.compare_spec b1 b3), (Z.compare_spec c1 c3);
    try reflexivity; exfalso; lia.
Qed.

Lemma ltb_le_trans (x y z : float) :
  (x <? y)%float = true -> float_le y z -> (x <? z)%float = true.
Proof.
  rewrite !ltb_spec. unfold SFltb. rewrite !SFcompare_rank.
  intros Hlt (q & r & Hq & Hr & Hle). rewrite Hq in Hlt. rewrite Hr.
  destruct (rank (Prim2SF x)) as [p|]; [|discriminate].
  destruct (lex_compare p q) eqn:E; try discriminate.
  rewrite (lex_lt_le _ _ _ E Hle). reflexivity.
Qed.

(** The differences of a parsed vertex to the original one, none of them
    NaN. *)
Definition comparable_xy (t ot : float * float * float) : Prop :=
  not_nan (abs (fst (fst t) - fst (fst ot))) /\
  not_nan (abs (snd (fst t) - snd (fst ot))).

Lemma drift_loop_max (ts ots : list (float * float * float)) :
  Forall2 comparable_xy ts ots ->
  forall m dz, not_nan m ->
  exists m' dz',
    drift_loop (flatten_vertices ts) (flatten_vertices ots) (m, dz) = Ok (m', dz') /\
    float_le m m' /\
    Forall2 (fun t ot => float_le (abs (fst (fst t) - fst (fst ot))) m' /\
                         float_le (abs (snd (fst t) - snd (fst ot))) m') ts ots.
Proof.
  induction 1 as [|[[x y] z] [[ox oy] oz] ts ots [Hx Hy] _ IH]; intros m dz Hm.
  - exists m, dz. split; [reflexivity|]. split; [apply float_le_refl, Hm|constructor].
  - cbn [fst snd] in Hx, Hy. cbn [flatten_vertices drift_loop].
    destruct (max2_ge m (abs (x - ox)) Hm Hx) as [A1 A2].
    pose proof (proj2 (float_le_not_nan _ _ A1)) as Hm1.
    destruct (max2_ge (max2 m (abs (x - ox))) (abs (y - oy)) Hm1 Hy) as [B1 B2].
    pose proof (proj2 (float_le_not_nan _ _ B1)) as Hm2.
    destruct (IH (max2 (max2 m (abs (x - ox))) (abs (y - oy)))
                 (max2 dz (abs (z - oz))) Hm2) as (m' & dz' & E & Hle & Hall).
    exists m', dz'. split; [exact E|].
    split; [eapply float_le_trans; [|exact Hle]; eapply float_le_trans; eassumption|].
    constructor; [|exact Hall]. cbn [fst snd]. split.
    + eapply float_le_trans; [|exact Hle]. eapply float_le_trans; eassumption.
    + eapply float_le_trans; eassumption.
Qed.

Section Moved.

Variable float_of_string : string -> option float.

(** X17.  A vertex moved horizontally is noticed.  With as many parsed
    vertices as the reference has, no NaN among the X and Y differences, and
    one vertex whose X or Y differs from the reference's by more than
    [0.001], [obj_to_json] asks for a confirmation: it raises [EOFError]
    with nothing to read, exits with status 1 unless the answer is a [y],
    and writes the mesh after a [y]. *)
Theorem horizontal_move_refused (lines : list string) (ref : mesh)
    (stdin : list string) (vs : list float) (fs : list Z) :
  parse_obj float_of_string lines = Ok (vs, fs) ->
  whole_triples (vertices ref) ->
  Forall2 comparable_xy (vertex_triples vs) (vertex_triples (vertices ref)) ->
  Exists (fun p => let '(t, ot) := p in
            (0.001 <? abs (fst (fst t) - fst (fst ot)))%float = true \/
            (0.001 <? abs (snd (fst t) - snd (fst ot)))%float = true)
         (combine (vertex_triples vs) (vertex_triples (vertices ref))) ->
  obj_to_json float_of_string lines (to_document ref) stdin =
    match stdin with
    | [] => Raise EOFError
    | response :: _ =>
        if String.eqb (Str.lower response) "y"
        then Ok {| vertices := vs; faces := faces ref |}
        else Raise (SystemExit 1)
    end.
Proof.
  intros Hp Hw Hcmp Hmoved.
  destruct (parse_obj_whole _ _ _ _ Hp) as [Hv _].
  rewrite (obj_to_json_parsed _ _ _ _ _ _ Hp). unfold resolve_faces.
  rewrite !len_div3_triples, (Forall2_length Hcmp), Z.eqb_refl. cbn [negb bind].
  unfold check_positions.
  rewrite <- (flatten_vertex_triples vs Hv) at 1.
  rewrite <- (flatten_vertex_triples (vertices ref) Hw) at 1.
  assert (H0 : not_nan 0%float) by (eexists; vm_compute; reflexivity).
  destruct (drift_loop_max _ _ Hcmp 0%float 0%float H0) as (m & dz & E & _ & Hall).
  rewrite E. cbn [bind].
  assert (Hm : (0.001 <? m)%float = true).
  { clear - Hall Hmoved.
    induction Hall as [|t ot ts ots [Hx Hy] _ IH]; cbn [combine] in Hmoved.
    - inversion Hmoved.
    - inversion Hmoved as [? ? H|? ? H]; subst.
      + destruct H as [H|H]; eapply ltb_le_trans; eassumption.
      + apply IH, H. }
  rewrite Hm. destruct stdin as [|response rest]; cbn [confirm bind]; [reflexivity|].
  destruct (String.eqb (Str.lower response) "y"); reflexivity.
Qed.

End Moved.

Lemma horizontal_move_refused_witness :
  obj_to_json sample_float_of_string
    [ "v 0.5 0.0 1.0"; "v 1.0 0.0 1.0"; "v 0.0 1.0 1.0"; "v 1.0 1.0 1.0" ]%string
    (to_document unit_square) [""%string] = Raise (SystemExit 1).
Proof.
  apply (horizontal_move_refused sample_float_of_string
           [ "v 0.5 0.0 1.0"; "v 1.0 0.0 1.0"; "v 0.0 1.0 1.0"; "v 1.0 1.0 1.0" ]%string
           unit_square [""%string] _ [] eq_refl eq_refl).
  - repeat (apply Forall2_cons;
            [split; eexists; vm_compute; reflexivity|]).
    apply Forall2_nil.
  - apply Exists_cons_hd. left. reflexivity.
Defined.

(** ** [obj_to_json]: the mesh written and the exceptions raised *)

Section Imported.

Variable float_of_string : string -> option float.

(** X18.  With as many parsed vertices as a valid reference has, every mesh
    [obj_to_json] writes is valid: whole triples of coordinates, and the
    reference's faces, whose indices still name a vertex. *)
Theorem obj_to_json_output_valid (lines : list string) (ref out : mesh)
    (stdin : list string) (vs : list float) (fs : list Z) :
  valid_mesh ref ->
  parse_obj float_of_string lines = Ok (vs, fs) ->
  (len vs / 3 = len (vertices ref) / 3)%Z ->
  obj_to_json float_of_string lines (to_document ref) stdin = Ok out ->
  valid_mesh out.
Proof.
  intros (Hrv & Hrf & Hidx) Hp Hcount H.
  destruct (parse_obj_whole _ _ _ _ Hp) as [Hv _].
  rewrite (obj_to_json_parsed _ _ _ _ _ _ Hp) in H. unfold resolve_faces in H.
  apply Z.eqb_eq in Hcount. rewrite Hcount in H. cbn [negb bind] in H.
  destruct (check_positions vs (vertices ref) stdin); [|discriminate].
  cbn [bind] in H. injection H as <-.
  split; [exact Hv|]. split; [exact Hrf|]. cbn [vertices faces].
  apply Z.eqb_eq in Hcount. rewrite !len_div3_triples in Hcount.
  apply Nat2Z.inj in Hcount. rewrite !length_vertex_triples in Hcount.
  rewrite Hcount. exact Hidx.
Qed.

Lemma to_float_raises (s : string) (err : exn) :
  to_float float_of_string s = Raise err -> err = ValueError.
Proof.
  unfold to_float. destruct (float_of_string s); [discriminate|congruence].
Qed.

Lemma to_int_raises (s : string) (err : exn) :
  Str.to_int s = Raise err -> err = ValueError.
Proof.
  unfold Str.to_int. destruct (match s with EmptyString => _ | String _ _ => _ end);
    [discriminate|congruence].
Qed.

Lemma parse_line_raises (line : string) (acc : list float * list Z) (err : exn) :
  parse_line float_of_string line acc = Raise err -> err = ValueError.
Proof.
  unfold parse_line. destruct acc as [vs fs].
  destruct (Str.startswith "v " (Str.strip line)).
  - destruct (4 <=? length (Str.split (Str.strip line)))%nat; [|discriminate].
    destruct (to_float float_of_string (nth 1 (Str.split (Str.strip line)) ""%string))
      as [x|e] eqn:Ex; cbn [bind];
      [|intros H; injection H as <-; eapply to_float_raises, Ex].
    destruct (to_float float_of_string (nth 2 (Str.split (Str.strip line)) ""%string))
      as [y|e] eqn:Ey; cbn [bind];
      [|intros H; injection H as <-; eapply to_float_raises, Ey].
    destruct (to_float float_of_string (nth 3 (Str.split (Str.strip line)) ""%string))
      as [z|e] eqn:Ez; cbn [bind];
      [discriminate|intros H; injection H as <-; eapply to_float_raises, Ez].
  - destruct (Str.startswith "f " (Str.strip line)); [|discriminate].
    destruct (4 <=? length (Str.split (Str.strip line)))%nat; [|discriminate].
    destruct (Str.to_int (Str.before "/" (nth 1 (Str.split (Str.strip line)) ""%string)))
      as [a|e] eqn:Ea; cbn [bind];
      [|intros H; injection H as <-; eapply to_int_raises, Ea].
    destruct (Str.to_int (Str.before "/" (nth 2 (Str.split (Str.strip line)) ""%string)))
      as [b|e] eqn:Eb; cbn [bind];
      [|intros H; injection H as <-; eapply to_int_raises, Eb].
    destruct (Str.to_int (Str.before "/" (nth 3 (Str.split (Str.strip line)) ""%string)))
      as [c|e] eqn:Ec; cbn [bind];
      [discriminate|intros H; injection H as <-; eapply to_int_raises, Ec].
Qed.

Lemma parse_lines_raises (lines : list string) :
  forall acc err, parse_lines float_of_string lines acc = Raise err -> err = ValueError.
Proof.
  induction lines as [|l lines IH]; intros acc err H; [discriminate|].
  cbn [parse_lines] in H.
  destruct (parse_line float_of_string l acc) as [acc'|e] eqn:E; cbn [bind] in H.
  - eapply IH, H.
  - injection H as <-. eapply parse_line_raises, E.
Qed.

Lemma confirm_raises (stdin : list string) (err : exn) :
  confirm stdin = Raise err -> err = EOFError \/ err = SystemExit 1.
Proof.
  unfold confirm. destruct stdin as [|r rest]; [left; congruence|].
  destruct (negb _); [right; congruence|discriminate].
Qed.

Lemma drift_loop_whole (ts ots : list (float * float * float)) :
  forall acc, exists acc',
    drift_loop (flatten_vertices ts) (flatten_vertices ots) acc = Ok acc'.
Proof.
  revert ots. induction ts as [|[[x y] z] ts IH]; intros ots acc.
  - exists acc. reflexivity.
  - destruct ots as [|[[ox oy] oz] ots].
    + exists acc. reflexivity.
    + destruct acc as [m dz]. cbn [flatten_vertices drift_loop]. apply IH.
Qed.

(** X19.  Against a reference whose vertex list holds whole triples,
    [obj_to_json] raises nothing but [ValueError] (a number of the OBJ file
    does not parse), [EOFError] (a question with nothing to read) and
    [SystemExit] with status 1 (a question not answered by [y]). *)
Theorem obj_to_json_failures (lines : list string) (ref : mesh)
    (stdin : list string) (err : exn) :
  whole_triples (vertices ref) ->
  obj_to_json float_of_string lines (to_document ref) stdin = Raise err ->
  err = ValueError \/ err = EOFError \/ err = SystemExit 1.
Proof.
  intros Hw H. unfold obj_to_json, to_document in H.
  cbn [doc_triangles tri_v tri_f subscript bind] in H.
  destruct (parse_obj float_of_string lines) as [[vs fs]|e] eqn:Ep; cbn [bind] in H.
  2:{ left. injection H as <-. eapply parse_lines_raises, Ep. }
  destruct (parse_obj_whole _ _ _ _ Ep) as [Hv _].
  right.
  assert (Hcheck : forall sin e', check_positions vs (vertices ref) sin = Raise e' ->
                                  e' = EOFError \/ e' = SystemExit 1).
  { intros sin e' Hc. unfold check_positions in Hc.
    rewrite <- (flatten_vertex_triples vs Hv) in Hc at 1.
    rewrite <- (flatten_vertex_triples (vertices ref) Hw) in Hc at 1.
    destruct (drift_loop_whole (vertex_triples vs) (vertex_triples (vertices ref))
                (0%float, 0%float)) as [[m dz] E].
    rewrite E in Hc. cbn [bind] in Hc.
    destruct (0.001 <? m)%float; [eapply confirm_raises, Hc|discriminate]. }
  unfold resolve_faces in H.
  destruct (negb (len vs / 3 =? len (vertices ref) / 3)%Z).
  - destruct (negb (len fs =? len (faces ref))%Z).
    + destruct (confirm stdin) as [sin|e] eqn:Ec; cbn [bind] in H.
      * destruct (check_positions vs (vertices ref) sin) as [s'|e] eqn:Ek;
          cbn [bind] in H; [discriminate|].
        injection H as <-. eapply Hcheck, Ek.
      * injection H as <-. eapply confirm_raises, Ec.
    + cbn [bind] in H.
      destruct (check_positions vs (vertices ref) stdin) as [s'|e] eqn:Ek;
        cbn [bind] in H; [discriminate|].
      injection H as <-. eapply Hcheck, Ek.
  - cbn [bind] in H.
    destruct (check_positions vs (vertices ref) stdin) as [s'|e] eqn:Ek;
      cbn [bind] in H; [discriminate|].
    injection H as <-. eapply Hcheck, Ek.
Qed.

End Imported.

Lemma obj_to_json_output_valid_witness :
  exists out,
    obj_to_json sample_float_of_string edited_square_obj (to_document unit_square) [] =
      Ok out /\ valid_mesh out.
Proof.
  eexists. split; [reflexivity|].
  apply (obj_to_json_output_valid sample_float_of_string edited_square_obj unit_square _ []
           _ [2; 1; 0; 2; 3; 1]%Z valid_unit_square eq_refl eq_refl eq_refl).
Defined.

Lemma obj_to_json_failures_witness :
  obj_to_json sample_float_of_string [ "v 0.0 zero 1.0" ]%string
    (to_document unit_square) [] = Raise ValueError /\
  (ValueError = ValueError \/ ValueError = EOFError \/ ValueError = SystemExit 1).
Proof.
  split; [reflexivity|].
  exact (obj_to_json_failures sample_float_of_string [ "v 0.0 zero 1.0" ]%string
           unit_square [] ValueError eq_refl eq_refl).
Defined.

(** ** [trim_edges]: indices outside the data model *)

(** The position a list index stands for: a negative one counts from the
    end. *)
Definition wrap_index (n : nat) (i : Z) : Z :=
  if (i <? 0)%Z then (i + Z.of_nat n)%Z else i.

Definition index_in_range (n : nat) (i : Z) : Prop :=
  (- Z.of_nat n <= i < Z.of_nat n)%Z.

Lemma getitem_wrap {A : Type} (l : list A) (i : Z) :
  index_in_range (length l) i ->
  index_ok (length l) (wrap_index (length l) i) /\
  getitem l i = getitem l (wrap_index (length l) i).
Proof.
  unfold index_in_range, index_ok, wrap_index. intros [Hlo Hhi].
  destruct (i <? 0)%Z eqn:E.
  - pose proof (proj1 (Z.ltb_lt _ _) E) as Hneg. split; [lia|].
    assert (E' : (i + Z.of_nat (length l) <? 0)%Z = false) by (apply Z.ltb_ge; lia).
    unfold getitem. cbv zeta. rewrite E. cbv iota. rewrite !E'. cbv iota.
    reflexivity.
  - pose proof (proj1 (Z.ltb_ge _ _) E) as Hpos. split; [lia|]. reflexivity.
Qed.

Lemma getitem_out_of_range {A : Type} (l : list A) (i : Z) :
  ~ index_in_range (length l) i -> getitem l i = Raise IndexError.
Proof.
  unfold index_in_range, getitem. intros H. cbv zeta.
  destruct (i <? 0)%Z eqn:E.
  - pose proof (proj1 (Z.ltb_lt _ _) E) as Hneg.
    assert (E' : (i + Z.of_nat (length l) <? 0)%Z = true) by (apply Z.ltb_lt; lia).
    rewrite E'. reflexivity.
  - pose proof (proj1 (Z.ltb_ge _ _) E) as Hpos.
    assert (E' : (Z.of_nat (length l) <=? i)%Z = true) by (apply Z.leb_le; lia).
    rewrite E, E'. reflexivity.
Qed.

Lemma filter_faces_by (marks : list bool) (g : Z -> bool) (fs : list Z) :
  whole_triples fs ->
  Forall (fun i => getitem marks i = Ok (g i)) fs ->
  filter_faces marks fs =
    Ok (flatten_faces
          (filter (fun t => let '(a, b, c) := t in g a && g b && g c) (face_triples fs))).
Proof.
  intros Hw. pattern fs. apply whole_triples_ind; [|intros a b c l Hl IH|exact Hw].
  - reflexivity.
  - intros Hall.
    inversion Hall as [|? ? Ha Hall1]; subst.
    inversion Hall1 as [|? ? Hb Hall2]; subst.
    inversion Hall2 as [|? ? Hc Hall3]; subst.
    cbn [filter_faces face_triples filter]. unfold face_inside.
    rewrite Ha, Hb, Hc, (IH Hall3). cbn [bind].
    destruct (g a), (g b), (g c); reflexivity.
Qed.

(** X20.  [trim_edges] does not ask for the indices of a face to be
    non-negative.  With whole triples, at least one face and every index in
    [-V, V), a negative index [i] stands for vertex [V + i]: the face is kept
    when the three vertices so named are in the trimmed box, and it is
    written with its indices as they came, negative ones included. *)
Theorem trim_edges_negative_indices (m : mesh) (trim_percent : float) :
  whole_triples (vertices m) -> whole_triples (faces m) -> faces m <> [] ->
  let ts := vertex_triples (vertices m) in
  let nb := trim_bounds (bounds_of ts) trim_percent in
  Forall (index_in_range (length ts)) (faces m) ->
  trim_edges (to_document m) trim_percent =
    Ok {| vertices := vertices m;
          faces := flatten_faces
                     (filter (fun t => let '(a, b, c) := t in
                                vertex_in_box nb ts (wrap_index (length ts) a) &&
                                vertex_in_box nb ts (wrap_index (length ts) b) &&
                                vertex_in_box nb ts (wrap_index (length ts) c))
                             (face_triples (faces m))) |}.
Proof.
  intros Hv Hf Hne ts nb Hidx.
  unfold trim_edges, to_document. cbn [doc_triangles tri_v tri_f subscript bind].
  rewrite (find_bounds_whole _ Hv). cbn [bind]. fold ts. fold nb.
  rewrite (mark_inside_whole _ _ Hv). cbn [bind]. fold ts.
  set (marks := map _ ts).
  assert (Hlen : length marks = length ts) by apply length_map.
  rewrite (filter_faces_by marks
             (fun i => vertex_in_box nb ts (wrap_index (length ts) i)) _ Hf).
  - cbn [bind]. unfold int_truediv. rewrite (len_div3_pos _ Hf Hne). reflexivity.
  - eapply Forall_impl; [|exact Hidx]. intros i Hi. cbv beta.
    rewrite <- Hlen in Hi. destruct (getitem_wrap marks i Hi) as [Hok ->].
    rewrite Hlen in Hok. rewrite Hlen. apply vertex_in_box_marks, Hok.
Qed.

Lemma trim_edges_negative_indices_witness :
  trim_edges (to_document {| vertices := vertices island; faces := [-3; -2; -1]%Z |}) 0.25 =
    Ok {| vertices := vertices island; faces := [-3; -2; -1]%Z |}.
Proof.
  apply (trim_edges_negative_indices
           {| vertices := vertices island; faces := [-3; -2; -1]%Z |} 0.25).
  - reflexivity.
  - reflexivity.
  - discriminate.
  - repeat constructor; cbn; lia.
Defined.

(** X21.  A face whose first index is out of range makes [trim_edges] raise
    [IndexError], wherever the face stands in the list. *)
Theorem trim_edges_dangling_first_index (m : mesh) (trim_percent : float) :
  whole_triples (vertices m) ->
  Exists (fun t => ~ index_in_range (length (vertex_triples (vertices m))) (fst (fst t)))
         (face_triples (faces m)) ->
  trim_edges (to_document m) trim_percent = Raise IndexError.
Proof.
  intros Hv Hbad.
  unfold trim_edges, to_document. cbn [doc_triangles tri_v tri_f subscript bind].
  rewrite (find_bounds_whole _ Hv). cbn [bind].
  rewrite (mark_inside_whole _ _ Hv). cbn [bind].
  set (marks := map _ (vertex_triples (vertices m))).
  assert (Hlen : length marks = length (vertex_triples (vertices m))) by apply length_map.
  rewrite <- Hlen in Hbad.
  assert (Hraise : filter_faces marks (faces m) = Raise IndexError).
  { clear - Hbad. induction (faces m) as [|a|a b|a b c l IH] using list_ind3;
      cbn [face_triples] in Hbad; try (inversion Hbad; fail).
    cbn [filter_faces]. inversion Hbad as [? ? H|? ? H]; subst.
    - cbn [fst] in H. unfold face_inside.
      rewrite (getitem_out_of_range _ _ H). reflexivity.
    - destruct (face_inside marks a b c) as [keep|e] eqn:E; cbn [bind].
      + rewrite (IH H). reflexivity.
      + f_equal. eapply face_inside_raises, E. }
  rewrite Hraise. reflexivity.
Qed.

Lemma trim_edges_dangling_first_index_witness :
  trim_edges (to_document {| vertices := vertices island; faces := [2; 3; 4; 5; 0; 0]%Z |})
    0.25 = Raise IndexError.
Proof.
  apply (trim_edges_dangling_first_index
           {| vertices := vertices island; faces := [2; 3; 4; 5; 0; 0]%Z |} 0.25).
  - reflexivity.
  - apply Exists_cons_tl, Exists_cons_hd. cbn. unfold index_in_range. cbn. lia.
Defined.

(** X22.  The indices of a face are looked up from left to right and only as
    far as needed: a face whose first vertex is outside the trimmed box is
    dropped whatever its two other indices are, dangling ones included, and
    the call goes on as if the face were not there. *)
Theorem trim_edges_short_circuit (m : mesh) (trim_percent : float) (a b c : Z) :
  valid_mesh m -> faces m <> [] ->
  let ts := vertex_triples (vertices m) in
  index_ok (length ts) a ->
  vertex_in_box (trim_bounds (bounds_of ts) trim_percent) ts a = false ->
  trim_edges (to_document {| vertices := vertices m; faces := a :: b :: c :: faces m |})
    trim_percent =
  trim_edges (to_document m) trim_percent.
Proof.
  intros Hvalid Hne ts Ha Hout.
  rewrite (trim_edges_valid m trim_percent Hvalid Hne).
  destruct (trim_filter_valid m trim_percent Hvalid) as (marks & Hb & Hm & Hk).
  cbv zeta in Hm, Hk.
  unfold trim_edges, to_document. cbn [doc_triangles tri_v tri_f subscript bind vertices faces].
  rewrite Hb. cbn [bind]. rewrite Hm. cbn [bind filter_faces].
  assert (Hga : getitem marks a = Ok false).
  { destruct Hvalid as (Hv & _ & _).
    rewrite (mark_inside_whole _ _ Hv) in Hm. injection Hm as <-.
    fold ts. rewrite vertex_in_box_marks by exact Ha. fold ts in Hout. rewrite Hout.
    reflexivity. }
  unfold face_inside. rewrite Hga. cbn [bind]. rewrite Hk. cbn [bind].
  unfold int_truediv.
  assert (Hpos : (len (a :: b :: c :: faces m) / 3 =? 0)%Z = false).
  { apply Z.eqb_neq. unfold len. cbn [length].
    assert (1 <= Z.of_nat (S (S (S (length (faces m))))) / 3)%Z
      by (apply Z.div_le_lower_bound; lia).
    lia. }
  rewrite Hpos. reflexivity.
Qed.

Lemma trim_edges_short_circuit_witness :
  trim_edges (to_document {| vertices := vertices island;
                             faces := 0%Z :: 99%Z :: (-99)%Z :: faces island |}) 0.25 =
  trim_edges (to_document island) 0.25.
Proof.
  apply (trim_edges_short_circuit island 0.25 0 99 (-99) valid_island).
  - discriminate.
  - cbn. unfold index_ok. cbn. lia.
  - reflexivity.
Defined.

(** ** [smooth_edges] with no strength *)

Lemma sub_finite_r (a z : float) :
  is_finite (a - z) = true ->
  (exists s, Prim2SF z = S754_zero s) \/ (exists s m e, Prim2SF z = S754_finite s m e).
Proof.
  intros H. destruct (finite_rank _ H) as [[s E]|(s & m & e & E)];
    rewrite sub_spec in E; unfold SF64sub in E;
    destruct (Prim2SF z) as [sz|sz| |sz mz ez];
    try (left; eexists; reflexivity); try (right; do 3 eexists; reflexivity);
    exfalso; destruct (Prim2SF a) as [sa|sa| |sa ma ea]; cbn in E;
    try discriminate; try (destruct sa, sz; discriminate).
Qed.

Lemma mul_zero_l_finite (t d : float) (s : bool) :
  Prim2SF t = S754_zero s -> is_finite d = true ->
  exists s', Prim2SF (t * d) = S754_zero s'.
Proof.
  intros Ht Hd. rewrite mul_spec, Ht. unfold SF64mul.
  destruct (finite_rank d Hd) as [[sd E]|(sd & m & e & E)]; rewrite E; cbn;
    eexists; reflexivity.
Qed.

Lemma add_zero_finite_nonzero (z t : float) (s sz : bool) (m : positive) (e : Z) :
  Prim2SF t = S754_zero s -> Prim2SF z = S754_finite sz m e -> (z + t = z)%float.
Proof.
  intros Ht Hz. apply Prim2SF_inj. rewrite add_spec, Ht, Hz. reflexivity.
Qed.

(** With a strength of zero the blend leaves an elevation as it is. *)
Lemma smooth_z_zero_strength (st : interior_stats) (d z : float) :
  is_outlier st z = false ->
  is_finite (avg_elevation st - z) = true ->
  is_finite (1 - d) = true ->
  smooth_z st 0 d z = z.
Proof.
  intros Hout Hfin Hd. unfold smooth_z. rewrite Hout.
  destruct (d <? 1)%float; [|reflexivity].
  destruct (mul_zero_finite _ Hfin) as [s1 H1].
  destruct (mul_zero_l_finite _ _ _ H1 Hd) as [s2 H2].
  destruct (sub_finite_r _ _ Hfin) as [[sz Hz]|(sz & m & e & Hz)].
  - exfalso. unfold is_outlier in Hout.
    apply orb_false_iff in Hout as [Hout _]. apply orb_false_iff in Hout as [Hle _].
    rewrite leb_spec, Hz in Hle. destruct sz; discriminate.
  - eapply add_zero_finite_nonzero; eassumption.
Qed.

(** X23.  With a smoothing strength of zero, [smooth_edges] still replaces
    the outliers of the edge zone by the mean interior elevation, and leaves
    every other elevation as it is (where [avg - z] and [1 - d] are finite):
    zero strength is no change only on a mesh without outliers. *)
Theorem smooth_edges_zero_strength (m m' : mesh) (e : float) :
  smooth_edges (to_document m) e 0 = Ok (Written m') ->
  let ts := vertex_triples (vertices m) in
  let b := bounds_of ts in
  let st := stats (interior_of b (edge_x b e) (edge_y b e) ts) in
  forall (i : nat) (x y z : float),
    nth_error ts i = Some (x, y, z) ->
    let d := min_dist b (edge_x b e) (edge_y b e) x y in
    ((d <? 1)%float = true -> is_outlier st z = true ->
       nth_error (vertex_triples (vertices m')) i = Some (x, y, avg_elevation st)) /\
    (is_outlier st z = false ->
     is_finite (avg_elevation st - z) = true -> is_finite (1 - d) = true ->
       nth_error (vertex_triples (vertices m')) i = Some (x, y, z)).
Proof.
  intros H ts b st i x y z Hi d.
  destruct (smooth_edges_written _ _ _ _ H) as [Hw ->]. clear H.
  fold ts. fold b. fold st. cbn [vertices].
  rewrite vertex_triples_flatten, nth_error_map, Hi. cbn [option_map smooth_vertex].
  fold d. split.
  - intros Hd Hout. unfold smooth_z. rewrite Hd, Hout. reflexivity.
  - intros Hout Hfin Hfd. rewrite smooth_z_zero_strength by assumption. reflexivity.
Qed.

Lemma smooth_edges_zero_strength_witness :
  exists m',
    smooth_edges (to_document terrain) 0.25 0 = Ok (Written m') /\
    nth_error (vertex_triples (vertices m')) 0 = Some (0, 0, 9)%float /\
    nth_error (vertex_triples (vertices m')) 2 = Some (0.25, 1, 7)%float.
Proof.
  eexists. split; [reflexivity|]. split.
  - exact (proj1 (smooth_edges_zero_strength terrain _ 0.25 eq_refl
                    0%nat 0%float 0%float 4%float eq_refl) eq_refl eq_refl).
  - exact (proj2 (smooth_edges_zero_strength terrain _ 0.25 eq_refl
                    2%nat 0.25%float 1%float 7%float eq_refl) eq_refl eq_refl eq_refl).
Defined.
(** ** The command line *)

Lemma drift_loop_raises (vs : list float) :
  forall ovs acc err, drift_loop vs ovs acc = Raise err -> err = IndexError.
Proof.
  induction vs as [|x|x y|x y z l IH] using list_ind3; intros ovs acc err H.
  - discriminate.
  - destruct ovs; [discriminate|]. cbn in H. congruence.
  - destruct ovs; [discriminate|]. cbn in H. congruence.
  - destruct ovs as [|ox [|oy [|oz ovs']]]; cbn [drift_loop] in H;
      try discriminate; try congruence.
    destruct acc as [m dz]. eapply IH, H.
Qed.

Section MainProgram.

Variable float_repr : float -> string.
Variable float_of_string : string -> option float.

Local Abbreviation main' := (main float_repr float_of_string).

Lemma trim_edges_no_exit (data : document) (p : float) (code : Z) :
  trim_edges data p <> Raise (SystemExit code).
Proof.
  unfold trim_edges. intros H.
  destruct (doc_triangles data) as [t|]; cbn [subscript bind] in H; [|discriminate].
  destruct (tri_v t) as [vs|]; cbn [subscript bind] in H; [|discriminate].
  destruct (tri_f t) as [fs|]; cbn [subscript bind] in H; [|discriminate].
  destruct (find_bounds vs) as [b|e] eqn:Eb; cbn [bind] in H.
  2:{ injection H as ->. apply bounds_loop_raises in Eb. discriminate. }
  destruct (mark_inside (trim_bounds b p) vs) as [marks|e] eqn:Em; cbn [bind] in H.
  2:{ injection H as ->. apply mark_inside_raises in Em. discriminate. }
  destruct (filter_faces marks fs) as [kept|e] eqn:Ek; cbn [bind] in H.
  2:{ injection H as ->. apply filter_faces_raises in Ek. discriminate. }
  unfold int_truediv in H. destruct (_ =? 0)%Z; discriminate.
Qed.

Lemma smooth_edges_no_exit (data : document) (d s : float) (code : Z) :
  smooth_edges data d s <> Raise (SystemExit code).
Proof.
  unfold smooth_edges. intros H.
  destruct (doc_triangles data) as [t|]; cbn [subscript bind] in H; [|discriminate].
  destruct (tri_v t) as [vs|]; cbn [subscript bind] in H; [|discriminate].
  destruct (tri_f t) as [fs|]; cbn [subscript bind] in H; [|discriminate].
  destruct (find_bounds vs) as [b|e] eqn:Eb; cbn [bind] in H.
  2:{ injection H as ->. apply bounds_loop_raises in Eb. discriminate. }
  destruct (interior_loop b (edge_x b d) (edge_y b d) vs) as [zs|e] eqn:Ei;
    cbn [bind] in H.
  2:{ injection H as ->. apply interior_loop_raises in Ei. discriminate. }
  pose proof (interior_loop_ok_whole _ _ _ _ _ Ei) as Hw.
  destruct zs as [|z zs]; [discriminate|].
  rewrite stats_of_ok in H by discriminate. cbn [bind] in H.
  rewrite (smooth_loop_whole _ _ _ _ _ _ Hw) in H. discriminate.
Qed.

Lemma json_to_obj_no_exit (data : document) (name : string) (code : Z) :
  json_to_obj float_repr data name <> Raise (SystemExit code).
Proof.
  unfold json_to_obj. intros H.
  destruct (doc_triangles data) as [t|]; [|discriminate].
  destruct (get_or_empty (tri_v t)) as [|x vs]; [discriminate|].
  destruct (whole_triples_dec (x :: vs)) as [Hw|Hn].
  - destruct (bounds_xyz_loop_whole (x :: vs) Hw (initial_bounds, (infinity, neg_infinity)))
      as [acc Hb].
    rewrite Hb, (vertex_lines_whole _ _ Hw) in H. cbn [bind] in H.
    destruct (whole_triples_dec (get_or_empty (tri_f t))) as [Hf|Hf].
    + rewrite (face_lines_whole _ Hf) in H. discriminate.
    + rewrite (face_lines_not_whole _ Hf) in H. discriminate.
  - rewrite (bounds_xyz_loop_not_whole _ Hn) in H. discriminate.
Qed.

Lemma check_positions_exit (vs ovs : list float) (stdin : list string) (code : Z) :
  check_positions vs ovs stdin = Raise (SystemExit code) -> code = 1%Z.
Proof.
  unfold check_positions. intros H.
  destruct (drift_loop vs ovs (0%float, 0%float)) as [[m dz]|e] eqn:E; cbn [bind] in H.
  - destruct (0.001 <? m)%float; [|discriminate].
    destruct (confirm_raises _ _ H) as [H'|H']; congruence.
  - injection H as ->. apply drift_loop_raises in E. discriminate.
Qed.

Lemma obj_to_json_exit (lines : list string) (data : document) (stdin : list string)
    (code : Z) :
  obj_to_json float_of_string lines data stdin = Raise (SystemExit code) -> code = 1%Z.
Proof.
  unfold obj_to_json. intros H.
  destruct (doc_triangles data) as [t|]; cbn [subscript bind] in H; [|discriminate].
  destruct (tri_v t) as [ovs|]; cbn [subscript bind] in H; [|discriminate].
  destruct (tri_f t) as [ofs|]; cbn [subscript bind] in H; [|discriminate].
  destruct (parse_obj float_of_string lines) as [[vs fs]|e] eqn:Ep; cbn [bind] in H.
  2:{ injection H as ->. apply parse_lines_raises in Ep. discriminate. }
  unfold resolve_faces in H.
  destruct (negb (len vs / 3 =? len ovs / 3)%Z).
  - destruct (negb (len fs =? len ofs)%Z).
    + destruct (confirm stdin) as [sin|e] eqn:Ec; cbn [bind] in H.
      * destruct (check_positions vs ovs sin) as [s'|e] eqn:Ek; cbn [bind] in H;
          [discriminate|].
        injection H as ->. eapply check_positions_exit, Ek.
      * injection H as ->. destruct (confirm_raises _ _ Ec) as [H'|H']; congruence.
    + cbn [bind] in H.
      destruct (check_positions vs ovs stdin) as [s'|e] eqn:Ek; cbn [bind] in H;
        [discriminate|].
      injection H as ->. eapply check_positions_exit, Ek.
  - cbn [bind] in H.
    destruct (check_positions vs ovs stdin) as [s'|e] eqn:Ek; cbn [bind] in H;
      [discriminate|].
    injection H as ->. eapply check_positions_exit, Ek.
Qed.

Lemma option_value_no_exit (arg : string) (code : Z) :
  option_value float_of_string arg <> Raise (SystemExit code).
Proof.
  unfold option_value. intros H.
  destruct (getitem (split_on "=" arg) 1) as [v|e] eqn:E; cbn [bind] in H.
  - apply to_float_raises in H. discriminate.
  - injection H as ->. apply getitem_raises in E. discriminate.
Qed.

Lemma trim_options_no_exit (args : list string) :
  forall o p code, trim_options float_of_string args o p <> Raise (SystemExit code).
Proof.
  induction args as [|arg rest IH]; intros o p code H; [discriminate|].
  cbn [trim_options] in H.
  destruct (Str.startswith "--percent=" arg).
  - destruct (option_value float_of_string arg) as [v|e] eqn:E; cbn [bind] in H.
    + eapply IH, H.
    + injection H as ->. eapply option_value_no_exit, E.
  - destruct (negb (Str.startswith "--" arg)); eapply IH, H.
Qed.

Lemma smooth_options_no_exit (args : list string) :
  forall o d s code, smooth_options float_of_string args o d s <> Raise (SystemExit code).
Proof.
  induction args as [|arg rest IH]; intros o d s code H; [discriminate|].
  cbn [smooth_options] in H.
  destruct (Str.startswith "--distance=" arg).
  - destruct (option_value float_of_string arg) as [v|e] eqn:E; cbn [bind] in H.
    + eapply IH, H.
    + injection H as ->. eapply option_value_no_exit, E.
  - destruct (Str.startswith "--strength=" arg).
    + destruct (option_value float_of_string arg) as [v|e] eqn:E; cbn [bind] in H.
      * eapply IH, H.
      * injection H as ->. eapply option_value_no_exit, E.
    + destruct (negb (Str.startswith "--" arg)); eapply IH, H.
Qed.

Lemma dispatch_exit (command : string) (args : list string) (code : Z) :
  dispatch float_of_string command args = Raise (SystemExit code) -> code = 1%Z.
Proof.
  unfold dispatch. intros H.
  destruct (String.eqb command "to-obj").
  { destruct args; [congruence|discriminate]. }
  destruct (String.eqb command "to-json").
  { destruct args as [|a [|b rest]]; congruence. }
  destruct (String.eqb command "trim").
  { destruct args as [|a rest]; [congruence|].
    destruct (trim_options float_of_string rest None 0.02%float) as [[o p]|e] eqn:E;
      cbn [bind] in H; [discriminate|].
    injection H as ->. exfalso. eapply trim_options_no_exit, E. }
  destruct (String.eqb command "smooth").
  { destruct args as [|a rest]; [congruence|].
    destruct (smooth_options float_of_string rest None 0.05%float 0.5%float)
      as [[o [d s]]|e] eqn:E; cbn [bind] in H; [discriminate|].
    injection H as ->. exfalso. eapply smooth_options_no_exit, E. }
  destruct (_ || _)%bool; [discriminate|congruence].
Qed.

Lemma invoke_exit (w : world) (i : invocation) (code : Z) :
  invoke float_repr float_of_string w i = Raise (SystemExit code) -> code = 1%Z.
Proof.
  destruct i; cbn [invoke]; intros H.
  - destruct (json_to_obj _ _ _) eqn:E; cbn [bind] in H; [discriminate|].
    injection H as ->. exfalso. eapply json_to_obj_no_exit, E.
  - destruct (obj_to_json _ _ _ _) eqn:E; cbn [bind] in H; [discriminate|].
    injection H as ->. eapply obj_to_json_exit, E.
  - destruct (trim_edges _ _) eqn:E; cbn [bind] in H; [discriminate|].
    injection H as ->. exfalso. eapply trim_edges_no_exit, E.
  - destruct (smooth_edges _ _ _) eqn:E; cbn [bind] in H; [discriminate|].
    injection H as ->. exfalso. eapply smooth_edges_no_exit, E.
  - discriminate.
Qed.

(** X24.  The main program ends with exit status 0 (it runs to its end) or
    1: whatever the arguments, the files and the answers typed, no other
    status is handed to the shell. *)
Theorem main_exit_status (w : world) (argv : list string) (status : Z) :
  main' w argv = Exit status -> status = 1%Z.
Proof.
  unfold main. destruct argv as [|script [|command args]]; try congruence.
  destruct (dispatch float_of_string (Str.lower command) args) as [i|e] eqn:Ed;
    cbn [bind].
  - destruct (invoke float_repr float_of_string w i) as [eff|e] eqn:Ei;
      [discriminate|].
    destruct e; try congruence.
    intros H. injection H as <-. eapply invoke_exit, Ei.
  - destruct e; try congruence.
    intros H. injection H as <-. eapply dispatch_exit, Ed.
Qed.

Lemma trim_options_heeded (args : list string) :
  forall o p,
    trim_options float_of_string (filter (heeded "trim") args) o p
    = trim_options float_of_string args o p.
Proof.
  induction args as [|arg rest IH]; intros o p; [reflexivity|].
  cbn [filter]. unfold heeded at 1, takes_value. cbn [String.eqb Ascii.eqb Bool.eqb].
  cbn [trim_options].
  destruct (Str.startswith "--percent=" arg) eqn:Ep; cbn [orb].
  - cbn [trim_options]. rewrite Ep.
    destruct (option_value float_of_string arg); cbn [bind]; auto.
  - destruct (negb (Str.startswith "--" arg)) eqn:Ed.
    + cbn [trim_options]. rewrite Ep, Ed. apply IH.
    + apply IH.
Qed.

Lemma smooth_options_heeded (args : list string) :
  forall o d s,
    smooth_options float_of_string (filter (heeded "smooth") args) o d s
    = smooth_options float_of_string args o d s.
Proof.
  induction args as [|arg rest IH]; intros o d s; [reflexivity|].
  cbn [filter]. unfold heeded at 1, takes_value. cbn [String.eqb Ascii.eqb Bool.eqb].
  cbn [smooth_options].
  destruct (Str.startswith "--distance=" arg) eqn:Ed; cbn [orb].
  - cbn [smooth_options]. rewrite Ed.
    destruct (option_value float_of_string arg); cbn [bind]; auto.
  - destruct (Str.startswith "--strength=" arg) eqn:Es; cbn [orb].
    + cbn [smooth_options]. rewrite Ed, Es.
      destruct (option_value float_of_string arg); cbn [bind]; auto.
    + destruct (negb (Str.startswith "--" arg)) eqn:En.
      * cbn [smooth_options]. rewrite Ed, Es, En. apply IH.
      * apply IH.
Qed.

(** X25.  The [trim] and [smooth] commands drop without a word every
    argument that starts with two dashes and is not one of their own
    options: a misspelt [--precent=0.5] leaves the default in force, and the
    run is the one without that argument. *)
Theorem unknown_options_ignored (w : world) (script command json_path : string)
    (args : list string) :
  Str.lower command = "trim"%string \/ Str.lower command = "smooth"%string ->
  main' w (script :: command :: json_path :: args)
  = main' w (script :: command :: json_path
               :: filter (heeded (Str.lower command)) args).
Proof.
  unfold main. intros [-> | ->]; unfold dispatch;
    cbn [String.eqb Ascii.eqb Bool.eqb].
  - now rewrite trim_options_heeded.
  - now rewrite smooth_options_heeded.
Qed.

Lemma lower_char_idem (c : ascii) :
  Str.lower_char (Str.lower_char c) = Str.lower_char c.
Proof.
  destruct c as [[] [] [] [] [] [] [] []]; reflexivity.
Qed.

Lemma lower_idem (s : string) : Str.lower (Str.lower s) = Str.lower s.
Proof.
  induction s as [|c r IH]; [reflexivity|].
  cbn [Str.lower]. now rewrite lower_char_idem, IH.
Qed.

Lemma trim_options_bad_value (arg : string) (err : exn) (args : list string) :
  Str.startswith "--percent=" arg = true ->
  option_value float_of_string arg = Raise err ->
  In arg args ->
  forall o p, exists err', trim_options float_of_string args o p = Raise err'.
Proof.
  intros Hp Hv. induction args as [|a rest IH]; intros Hin o p; [destruct Hin|].
  cbn [trim_options].
  destruct Hin as [-> | Hin].
  - rewrite Hp, Hv. eexists. reflexivity.
  - destruct (Str.startswith "--percent=" a).
    + destruct (option_value float_of_string a); cbn [bind]; eauto.
    + destruct (negb (Str.startswith "--" a)); eauto.
Qed.

Lemma smooth_options_bad_value (arg : string) (err : exn) (args : list string) :
  takes_value "smooth" arg = true ->
  option_value float_of_string arg = Raise err ->
  In arg args ->
  forall o d s, exists err', smooth_options float_of_string args o d s = Raise err'.
Proof.
  unfold takes_value. cbn [String.eqb Ascii.eqb Bool.eqb].
  intros Hp Hv. induction args as [|a rest IH]; intros Hin o d s; [destruct Hin|].
  cbn [smooth_options].
  destruct Hin as [-> | Hin].
  - destruct (Str.startswith "--distance=" arg).
    + rewrite Hv. eexists. reflexivity.
    + cbn [orb] in Hp. rewrite Hp, Hv. eexists. reflexivity.
  - destruct (Str.startswith "--distance=" a).
    + destruct (option_value float_of_string a); cbn [bind]; eauto.
    + destruct (Str.startswith "--strength=" a).
      * destruct (option_value float_of_string a); cbn [bind]; eauto.
      * destruct (negb (Str.startswith "--" a)); eauto.
Qed.

(** X26.  An option of [trim] or [smooth] whose value is not a number ends
    the run with exit status 1 before any file is looked at: the outcome is
    the same in every world, wherever the option stands among the arguments
    and whatever follows it. *)
Theorem bad_option_value_aborts (w : world) (script command json_path arg : string)
    (args : list string) (err : exn) :
  Str.lower command = "trim"%string \/ Str.lower command = "smooth"%string ->
  takes_value (Str.lower command) arg = true ->
  option_value float_of_string arg = Raise err ->
  In arg args ->
  main' w (script :: command :: json_path :: args) = Exit 1.
Proof.
  unfold main. intros Hc Ht Hv Hin.
  destruct Hc as [Hc | Hc]; rewrite Hc in *; unfold dispatch;
    cbn [String.eqb Ascii.eqb Bool.eqb].
  - destruct (trim_options_bad_value arg err args Ht Hv Hin None 0.02%float)
      as [e He].
    rewrite He. cbn [bind]. destruct e; try reflexivity.
    exfalso. eapply trim_options_no_exit, He.
  - destruct (smooth_options_bad_value arg err args Ht Hv Hin None 0.05%float 0.5%float)
      as [e He].
    rewrite He. cbn [bind]. destruct e; try reflexivity.
    exfalso. eapply smooth_options_no_exit, He.
Qed.

(** X27.  The command is read without regard to case: [TRIM] and [Trim]
    run what [trim] runs. *)
Theorem command_case_insensitive (w : world) (script command : string)
    (args : list string) :
  main' w (script :: command :: args) = main' w (script :: Str.lower command :: args).
Proof.
  unfold main. now rewrite lower_idem.
Qed.

End MainProgram.

Lemma main_exit_status_witness :
  exists status,
    main sample_float_repr sample_float_of_string sample_world
      ["converter.py"; "trim"; "triangle.json"]%string = Exit status /\
    status = 1%Z.
Proof.
  exists 1%Z. split; [reflexivity|].
  exact (main_exit_status sample_float_repr sample_float_of_string sample_world
           ["converter.py"; "trim"; "triangle.json"]%string 1 eq_refl).
Defined.

Lemma unknown_options_ignored_witness :
  main sample_float_repr sample_float_of_string sample_world
    ["converter.py"; "trim"; "square.json"; "--precent=0.5"; "out.json"; "--force"]%string
  = main sample_float_repr sample_float_of_string sample_world
      ["converter.py"; "trim"; "square.json"; "out.json"]%string.
Proof.
  exact (unknown_options_ignored sample_float_repr sample_float_of_string sample_world
           "converter.py" "trim" "square.json"
           ["--precent=0.5"; "out.json"; "--force"]%string (or_introl eq_refl)).
Defined.

Lemma bad_option_value_aborts_witness :
  main sample_float_repr sample_float_of_string sample_world
    ["converter.py"; "smooth"; "square.json"; "--strength=half"; "--strength=0.5"]%string
  = Exit 1.
Proof.
  exact (bad_option_value_aborts sample_float_repr sample_float_of_string sample_world
           "converter.py" "smooth" "square.json" "--strength=half"
           ["--strength=half"; "--strength=0.5"]%string ValueError
           (or_intror eq_refl) eq_refl eq_refl (or_introl eq_refl)).
Defined.
